(** * Documentation graph populator: a shallow embedding of
    [scripts/populate-doc-graph.py] and the properties of its extraction
    pipeline and graph writer.

    Text is modelled by [string]; the character classes are Python's on the
    ASCII range (documents are taken to be ASCII text).  A Python [set] is a
    [gset string] read back with [elements], a [dict] is a [gmap].  The
    regular expressions of the script are transcribed one to one into the
    syntax of module [Re] and run by a backtracking matcher with the
    priorities of Python's [re] (leftmost match, first alternative first,
    greedy and lazy repetition).  The graph store is a list of nodes and a
    list of relationships on which the Cypher statements of [create_graph]
    act. *)

From Stdlib Require Import Ascii String List Arith Bool Lia.
From stdpp Require Import gmap strings list fin_maps.
Import ListNotations.

Open Scope string_scope.
Open Scope nat_scope.

#[global] Arguments String.append !_ _ / : simpl nomatch.

(** ** Python's [str] primitives *)

Module Py.

Definition nl : ascii := "010"%char.
Definition NL : string := String nl "".

Definition code (c : ascii) : nat := nat_of_ascii c.

Definition between (lo hi : nat) (c : ascii) : bool :=
  (lo <=? code c) && (code c <=? hi).

(** [str.isspace] on the ASCII range: TAB..CR, FS..US and the space. *)
Definition is_space (c : ascii) : bool :=
  between 9 13 c || between 28 32 c.

Definition is_upper (c : ascii) : bool := between 65 90 c.
Definition is_lower (c : ascii) : bool := between 97 122 c.
Definition is_digit (c : ascii) : bool := between 48 57 c.
Definition is_alpha (c : ascii) : bool := is_upper c || is_lower c.

(** The class [\w]: letters, digits and the underscore. *)
Definition is_word (c : ascii) : bool :=
  is_alpha c || is_digit c || (code c =? 95).

Definition lower_char (c : ascii) : ascii :=
  if is_upper c then ascii_of_nat (code c + 32) else c.
Definition upper_char (c : ascii) : ascii :=
  if is_lower c then ascii_of_nat (code c - 32) else c.

Fixpoint map_chars (f : ascii -> ascii) (s : string) : string :=
  match s with
  | "" => ""
  | String c s' => String (f c) (map_chars f s')
  end.

(** [s.lower()] *)
Definition lower (s : string) : string := map_chars lower_char s.
(** [s.upper()] *)
Definition upper (s : string) : string := map_chars upper_char s.

(** [s.startswith(p)] *)
Fixpoint startswith (s p : string) {struct p} : bool :=
  match p, s with
  | "", _ => true
  | String a p', String b s' => if Ascii.eqb a b then startswith s' p' else false
  | String _ _, "" => false
  end.

(** [sub in s] *)
Fixpoint contains (sub s : string) : bool :=
  startswith s sub ||
  match s with
  | "" => false
  | String _ s' => contains sub s'
  end.

(** [s[:n]] *)
Fixpoint take (n : nat) (s : string) : string :=
  match n, s with
  | S n', String c s' => String c (take n' s')
  | _, _ => ""
  end.

(** [s[n:]] *)
Fixpoint drop (n : nat) (s : string) : string :=
  match n, s with
  | S n', String _ s' => drop n' s'
  | _, _ => s
  end.

Fixpoint rev_onto (s acc : string) : string :=
  match s with
  | "" => acc
  | String c s' => rev_onto s' (String c acc)
  end.

Definition rev (s : string) : string := rev_onto s "".

Fixpoint lstrip (s : string) : string :=
  match s with
  | String c s' => if is_space c then lstrip s' else s
  | "" => ""
  end.

Definition rstrip (s : string) : string := rev (lstrip (rev s)).

(** [s.strip()] *)
Definition strip (s : string) : string := rstrip (lstrip s).

(** [s.split(sep, maxsplit)] for a non-empty separator; [cur] holds the
    piece being read, reversed, and [skip] counts the characters of a
    separator that are still to be passed over.  [maxsplit] is the number
    of cuts that may still be made; [None] is Python's default, no limit. *)
Definition may_cut (maxsplit : option nat) : bool :=
  match maxsplit with
  | Some 0 => false
  | _ => true
  end.

Definition cut (maxsplit : option nat) : option nat :=
  match maxsplit with
  | Some n => Some (pred n)
  | None => None
  end.

Fixpoint split_go (sep : string) (maxsplit : option nat) (skip : nat)
         (cur s : string) : list string :=
  match s with
  | "" => [rev cur]
  | String c s' =>
      match skip with
      | S k => split_go sep maxsplit k cur s'
      | 0 =>
          if may_cut maxsplit && startswith s sep
          then rev cur :: split_go sep (cut maxsplit) (pred (String.length sep)) "" s'
          else split_go sep maxsplit 0 (String c cur) s'
      end
  end.

Definition split (sep : string) (maxsplit : option nat) (s : string) : list string :=
  split_go sep maxsplit 0 "" s.

(** [sep.join(parts)] *)
Fixpoint join (sep : string) (parts : list string) : string :=
  match parts with
  | [] => ""
  | [p] => p
  | p :: ps => p ++ sep ++ join sep ps
  end.

(** [s.replace(old, new)] for a non-empty [old]: the pieces between the
    occurrences of [old], found from the left, joined by [new]. *)
Definition replace (old new s : string) : string :=
  join new (split old None s).

(** [s.title()]: a cased character is upper-cased when the character
    before it is not cased and lower-cased when it is. *)
Fixpoint titlecase_go (prev_cased : bool) (s : string) : string :=
  match s with
  | "" => ""
  | String c s' =>
      if is_lower c then
        String (if prev_cased then c else upper_char c) (titlecase_go true s')
      else if is_upper c then
        String (if prev_cased then lower_char c else c) (titlecase_go true s')
      else String c (titlecase_go false s')
  end.

Definition titlecase (s : string) : string := titlecase_go false s.

(** [s.rfind(".")]: the index of the last dot. *)
Fixpoint rfind_dot (i : nat) (s : string) : option nat :=
  match s with
  | "" => None
  | String c s' =>
      match rfind_dot (S i) s' with
      | Some j => Some j
      | None => if Ascii.eqb c "."%char then Some i else None
      end
  end.

End Py.

(** ** The fragment of Python's [re] that the script uses *)

Module Re.
Import Py.

(** The flags [re.IGNORECASE], [re.MULTILINE] and [re.DOTALL]. *)
Record flags := Flags { ignorecase : bool; multiline : bool; dotall : bool }.

Definition no_flags : flags := Flags false false false.
Definition IGNORECASE : flags := Flags true false false.
Definition MULTILINE : flags := Flags false true false.
Definition DOTALL_IGNORECASE : flags := Flags true false true.

(** What matches one character. *)
Inductive cls : Type :=
| Lit (a : ascii)       (* the character itself *)
| Any                   (* .     *)
| Space                 (* \s    *)
| Word                  (* \w    *)
| Digit                 (* \d    *)
| Not (a : ascii).      (* [^a]  *)

Inductive re : Type :=
| Eps
| Chr (c : cls)
| Rep (c : cls) (lo : nat) (hi : option nat) (greedy : bool)
                        (* c{lo,hi}; c* is {0,}, c+ is {1,}; lazy with ? *)
| Seq (r1 r2 : re)
| Alt (r1 r2 : re)      (* r1|r2 *)
| Group (n : nat) (r : re)   (* the n-th parenthesis *)
| Bol                   (* ^     *)
| Eol                   (* $     *)
| EndZ                  (* \Z    *)
| WordB                 (* \b    *)
| Ahead (r : re).       (* (?=r) *)

Definition same_char (fl : flags) (a c : ascii) : bool :=
  if ignorecase fl then Ascii.eqb (lower_char a) (lower_char c) else Ascii.eqb a c.

Definition cls_ok (fl : flags) (k : cls) (c : ascii) : bool :=
  match k with
  | Lit a => same_char fl a c
  | Any => dotall fl || negb (Ascii.eqb c nl)
  | Space => is_space c
  | Word => is_word c
  | Digit => is_digit c
  | Not a => negb (same_char fl a c)
  end.

(** Where the matcher stands: the character before the position, the
    position, the text from the position on, and the groups set so far
    (the latest first). *)
Record state := State {
  prev : option ascii;
  pos : nat;
  rest : string;
  groups : list (nat * string)
}.

Definition set_group (n : nat) (from to : state) : state :=
  State (prev to) (pos to) (rest to)
        ((n, take (pos to - pos from) (rest from)) :: groups to).

Definition more (hi : option nat) : bool :=
  match hi with
  | Some 0 => false
  | _ => true
  end.

Definition less (hi : option nat) : option nat :=
  match hi with
  | Some n => Some (pred n)
  | None => None
  end.

(** Repetition of a one-character class, between [lo] and [hi] times.
    Greedy: the longer run is tried before the continuation is tried
    here; lazy: the continuation first. *)
Fixpoint rep {A : Type} (ok : ascii -> bool) (greedy : bool) (lo : nat)
         (hi : option nat) (p : option ascii) (i : nat) (s : string)
         (k : option ascii -> nat -> string -> option A) : option A :=
  match s with
  | String c s' =>
      if more hi && ok c then
        match lo with
        | S lo' => rep ok greedy lo' (less hi) (Some c) (S i) s' k
        | 0 =>
            if greedy then
              match rep ok greedy 0 (less hi) (Some c) (S i) s' k with
              | Some r => Some r
              | None => k p i s
              end
            else
              match k p i s with
              | Some r => Some r
              | None => rep ok greedy 0 (less hi) (Some c) (S i) s' k
              end
        end
      else
        match lo with
        | 0 => k p i s
        | S _ => None
        end
  | "" =>
      match lo with
      | 0 => k p i s
      | S _ => None
      end
  end.

Definition is_word_opt (c : option ascii) : bool :=
  match c with
  | Some a => is_word a
  | None => false
  end.

Definition next (s : string) : option ascii :=
  match s with
  | String c _ => Some c
  | "" => None
  end.

Definition at_bol (fl : flags) (st : state) : bool :=
  match prev st with
  | None => true
  | Some c => multiline fl && Ascii.eqb c nl
  end.

Definition at_eol (fl : flags) (st : state) : bool :=
  match rest st with
  | "" => true
  | String c s' =>
      Ascii.eqb c nl && (multiline fl || match s' with "" => true | _ => false end)
  end.

Definition at_end (st : state) : bool :=
  match rest st with
  | "" => true
  | _ => false
  end.

Definition at_boundary (st : state) : bool :=
  xorb (is_word_opt (prev st)) (is_word_opt (next (rest st))).

(** The backtracking matcher: [run fl r st k] matches [r] at [st] and
    hands every end position, in the order of Python's priorities, to the
    continuation [k] until [k] accepts. *)
Fixpoint run (fl : flags) (r : re) (st : state) (k : state -> option state)
  : option state :=
  match r with
  | Eps => k st
  | Chr c =>
      match rest st with
      | String a s' =>
          if cls_ok fl c a then k (State (Some a) (S (pos st)) s' (groups st))
          else None
      | "" => None
      end
  | Rep c lo hi greedy =>
      rep (cls_ok fl c) greedy lo hi (prev st) (pos st) (rest st)
          (fun p i s => k (State p i s (groups st)))
  | Seq r1 r2 => run fl r1 st (fun st' => run fl r2 st' k)
  | Alt r1 r2 =>
      match run fl r1 st k with
      | Some res => Some res
      | None => run fl r2 st k
      end
  | Group n r1 => run fl r1 st (fun st' => k (set_group n st st'))
  | Bol => if at_bol fl st then k st else None
  | Eol => if at_eol fl st then k st else None
  | EndZ => if at_end st then k st else None
  | WordB => if at_boundary st then k st else None
  | Ahead r1 =>
      match run fl r1 st Some with
      | Some st' => k (State (prev st) (pos st) (rest st) (groups st'))
      | None => None
      end
  end.

(** A match object: where it starts and ends and what its groups hold. *)
Record mtch := Match { m_start : nat; m_end : nat; m_groups : list (nat * string) }.

(** [m.group(n)] for a group that took part in the match. *)
Fixpoint assoc (n : nat) (gs : list (nat * string)) : option string :=
  match gs with
  | [] => None
  | (i, s) :: gs' => if i =? n then Some s else assoc n gs'
  end.

Definition group (n : nat) (m : mtch) : string :=
  match assoc n (m_groups m) with
  | Some s => s
  | None => ""
  end.

(** One attempt at one position. *)
Definition match_at (fl : flags) (r : re) (p : option ascii) (i : nat) (s : string)
  : option mtch :=
  match run fl r (State p i s []) Some with
  | Some st => Some (Match i (pos st) (groups st))
  | None => None
  end.

(** [re.match(r, s)]: an attempt at the start of the text only. *)
Definition match_ (fl : flags) (r : re) (s : string) : option mtch :=
  match_at fl r None 0 s.

(** [re.search(r, s)]: the attempt is made at every position from the
    left, the end of the text included, and the first success is the
    result. *)
Fixpoint search_go (fl : flags) (r : re) (p : option ascii) (i : nat) (s : string)
  : option mtch :=
  match match_at fl r p i s with
  | Some m => Some m
  | None =>
      match s with
      | String c s' => search_go fl r (Some c) (S i) s'
      | "" => None
      end
  end.

Definition search (fl : flags) (r : re) (s : string) : option mtch :=
  search_go fl r None 0 s.

(** [re.finditer(r, s)]: the matches from the left that do not overlap.
    [skip] counts the characters of the last match still to be passed
    over.  (No expression of the script matches the empty text, so the
    special rule of [re] after an empty match never applies.) *)
Fixpoint finditer_go (fl : flags) (r : re) (skip : nat) (p : option ascii) (i : nat)
         (s : string) : list mtch :=
  match skip with
  | S n =>
      match s with
      | String c s' => finditer_go fl r n (Some c) (S i) s'
      | "" => []
      end
  | 0 =>
      match match_at fl r p i s with
      | Some m =>
          m :: match s with
               | String c s' => finditer_go fl r (pred (m_end m - i)) (Some c) (S i) s'
               | "" => []
               end
      | None =>
          match s with
          | String c s' => finditer_go fl r 0 (Some c) (S i) s'
          | "" => []
          end
      end
  end.

Definition finditer (fl : flags) (r : re) (s : string) : list mtch :=
  finditer_go fl r 0 None 0 s.

(** [re.findall(r, s)] for an expression with one group. *)
Definition findall (fl : flags) (r : re) (s : string) : list string :=
  map (group 1) (finditer fl r s).

(** Building expressions. *)
Fixpoint lit (s : string) : re :=
  match s with
  | "" => Eps
  | String c "" => Chr (Lit c)
  | String c s' => Seq (Chr (Lit c)) (lit s')
  end.

Fixpoint seq (rs : list re) : re :=
  match rs with
  | [] => Eps
  | [r] => r
  | r :: rs' => Seq r (seq rs')
  end.

Fixpoint alt (rs : list re) : re :=
  match rs with
  | [] => Eps
  | [r] => r
  | r :: rs' => Alt r (alt rs')
  end.

Definition star (c : cls) : re := Rep c 0 None true.
Definition plus (c : cls) : re := Rep c 1 None true.
Definition star_lazy (c : cls) : re := Rep c 0 None false.
Definition plus_lazy (c : cls) : re := Rep c 1 None false.

End Re.

(** ** [pathlib]: a path is the list of its components below the root [/] *)

Module PathLib.
Import Py.

Definition path := list string.

(** [str(p)] *)
Definition str (p : path) : string := "/" ++ join "/" p.

(** [p.name] *)
Definition name (p : path) : string := List.last p "".

(** [p.parent] *)
Definition parent (p : path) : path := removelast p.

(** [stem] of a file name: the name without its last suffix. *)
Definition stem_of (nm : string) : string :=
  match rfind_dot 0 nm with
  | Some i => if (0 <? i) && (i <? String.length nm - 1) then take i nm else nm
  | None => nm
  end.

(** [p.stem] *)
Definition stem (p : path) : string := stem_of (name p).

(** [p.relative_to(base)]: [None] stands for the [ValueError] raised when
    [p] does not lie below [base]. *)
Fixpoint relative_to (p base : path) {struct base} : option path :=
  match base, p with
  | [], _ => Some p
  | b :: base', a :: p' => if String.eqb a b then relative_to p' base' else None
  | _ :: _, [] => None
  end.

(** [str] of a relative path. *)
Definition rel_str (p : path) : string :=
  match p with
  | [] => "."
  | _ => join "/" p
  end.

(** [Path(s).stem] for the text of a relative path. *)
Definition stem_of_str (s : string) : string :=
  stem (List.filter (fun c => negb (String.eqb c "")) (split "/" None s)).

End PathLib.

(** ** The data model *)

Record Document := mkDocument {
  path : string;
  title : string;
  doc_type : string;
  headings : list string;
  content : string;
  frontmatter : gmap string string;
  references : list string;
  components : list string;
  concepts : list string
}.

Record Decision := mkDecision {
  dec_id : string;
  dec_title : string;
  dec_status : string;
  dec_path : string;
  dec_context : string;
  dec_decision : string;
  dec_consequences : string
}.

(** ** The extractors *)

Import Py Re.

(** [frontmatter[key.strip()] = value.strip()] for a line with a colon.
    [line.split(":", 1)] of such a line has two parts (lemma
    [split_colon_two]), so the unpacking cannot fail. *)
Definition add_line (fm : gmap string string) (line : string) : gmap string string :=
  if contains ":" line then
    match split ":" (Some 1) line with
    | [key; value] => <[strip key := strip value]> fm
    | _ => fm
    end
  else fm.

Definition parse_frontmatter (content : string) : gmap string string * string :=
  if negb (startswith content "---") then (∅, content)
  else
    match split "---" (Some 2) content with
    | [_; meta; body] => (fold_left add_line (split NL None (strip meta)) ∅, body)
    | _ => (∅, content)
    end.

(** [^#\s+(.+)$] *)
Definition h1_re : re := seq [Bol; lit "#"; plus Space; Group 1 (plus Any); Eol].

Definition extract_title (content path : string) : string :=
  match search MULTILINE h1_re content with
  | Some m => strip (group 1 m)
  | None => titlecase (replace "-" " " (PathLib.stem_of_str path))
  end.

(** [^#{1,3}\s+(.+)$] *)
Definition heading_re : re :=
  seq [Bol; Rep (Lit "#") 1 (Some 3) true; plus Space; Group 1 (plus Any); Eol].

Definition extract_headings (content : string) : list string :=
  findall MULTILINE heading_re content.

(** [\[.+?\]\(([^)]+\.md)\)] *)
Definition link_re : re :=
  seq [lit "["; plus_lazy Any; lit "]"; lit "(";
       Group 1 (Seq (plus (Not ")")) (lit ".md")); lit ")"].

Definition extract_references (content : string) : list string :=
  List.filter (fun ref_path => negb (startswith ref_path "http"))
         (map (group 1) (finditer no_flags link_re content)).

(** [\b(v1|v2|...)\b] *)
Definition component_re (variants : list string) : re :=
  seq [WordB; Group 1 (alt (map lit variants)); WordB].

Definition patterns : list re :=
  [ component_re ["TokenScreener"; "Screener"];
    component_re ["RiskEngine"; "Risk Engine"];
    component_re ["ExitEngine"; "Exit Engine"];
    component_re ["TradeExecutor"; "Trade Executor"; "Executor"];
    component_re ["Keystore"; "Key Store"];
    component_re ["WebhookHandler"; "Webhook Handler"];
    component_re ["CopyTradeWorker"; "Copy Trade Worker"];
    component_re ["ExitCheckWorker"; "Exit Check Worker"];
    component_re ["PriceUpdateWorker"; "Price Update Worker"];
    component_re ["Jupiter"; "Helius"; "Birdeye"] ].

(** The name that one match adds to the set. *)
Definition component_name (m : mtch) : string := replace " " "" (group 1 m).

(** The set [components] after the two loops. *)
Definition component_set (content : string) : gset string :=
  fold_left
    (fun components pattern =>
       fold_left (fun components m => components ∪ {[ component_name m ]})
                 (finditer IGNORECASE pattern content) components)
    patterns ∅.

Definition extract_components (content : string) : list string :=
  elements (component_set content).

(** [`([^`]+)`] *)
Definition backtick_re : re := seq [lit "`"; Group 1 (plus (Not "`")); lit "`"].

(** [\*\*([^*]+)\*\*] *)
Definition bold_re : re := seq [lit "**"; Group 1 (plus (Not "*")); lit "**"].

Definition backtick_ok (term : string) : bool :=
  (2 <? String.length term) && (String.length term <? 50) && negb (startswith term "/").

Definition bold_ok (term : string) : bool :=
  (2 <? String.length term) && (String.length term <? 50).

Definition backtick_terms (content : string) : list string :=
  List.filter backtick_ok (map (group 1) (finditer no_flags backtick_re content)).

Definition bold_terms (content : string) : list string :=
  List.filter bold_ok (map (group 1) (finditer no_flags bold_re content)).

(** The set [concepts] after the two loops. *)
Definition concept_set (content : string) : gset string :=
  fold_left (fun concepts term => concepts ∪ {[ term ]}) (bold_terms content)
    (fold_left (fun concepts term => concepts ∪ {[ term ]}) (backtick_terms content) ∅).

Definition extract_concepts (content : string) : list string :=
  List.firstn 20 (elements (concept_set content)).

Definition determine_doc_type (path : string) : string :=
  let path_lower := lower path in
  if contains "overview" path_lower || contains "00-" path then "overview"
  else if contains "architecture" path_lower || contains "01-" path then "architecture"
  else if contains "decision" path_lower || contains "02-" path then "decision"
  else if contains "implementation" path_lower || contains "04-" path then "implementation"
  else if contains "operations" path_lower || contains "05-" path then "operations"
  else if contains "plan" path_lower || contains "06-" path then "plan"
  else "other".

(** ** Files, and the two parsers that read them *)

(** What the body of a [try] gives: a value, or an exception with its text. *)
Inductive result (A : Type) : Type :=
| Ok (a : A)
| Raise (e : string).
Arguments Ok {A} a.
Arguments Raise {A} e.

(** A markdown file: where it is, and what [read_text(encoding="utf-8")]
    gives for it (the text, or the [OSError] or [UnicodeDecodeError]). *)
Record file := mkFile {
  file_path : PathLib.path;
  read_text : result string
}.

Definition relative_to (f : file) (base_path : PathLib.path) : result string :=
  match PathLib.relative_to (file_path f) base_path with
  | Some p => Ok (PathLib.rel_str p)
  | None => Raise "path is not in the subpath of the base path"
  end.

Definition parse_document (f : file) (base_path : PathLib.path) : result Document :=
  match read_text f with
  | Raise e => Raise e
  | Ok content =>
      match relative_to f base_path with
      | Raise e => Raise e
      | Ok rel_path =>
          let '(frontmatter, body) := parse_frontmatter content in
          Ok (mkDocument rel_path
                (extract_title body rel_path)
                (determine_doc_type rel_path)
                (extract_headings body)
                (take 5000 body)
                frontmatter
                (extract_references body)
                (extract_components body)
                (extract_concepts body))
      end
  end.

(** [^(\d+)-(.+)$] *)
Definition adr_name_re : re :=
  seq [Bol; Group 1 (plus Digit); lit "-"; Group 2 (plus Any); Eol].

(** [Status:\s*(\w+)] *)
Definition status_re : re := seq [lit "Status:"; star Space; Group 1 (plus Word)].

(** [## Name\s*\n(.*?)(?=\n##|\Z)] *)
Definition section_re (heading : string) : re :=
  seq [lit ("## " ++ heading); star Space; Chr (Lit nl); Group 1 (star_lazy Any);
       Ahead (Alt (Seq (Chr (Lit nl)) (lit "##")) EndZ)].

(** [m.group(1).strip()[:2000] if m else ""] *)
Definition section (heading content : string) : string :=
  match search DOTALL_IGNORECASE (section_re heading) content with
  | Some m => take 2000 (strip (group 1 m))
  | None => ""
  end.

Definition parse_decision (f : file) (base_path : PathLib.path)
  : result (option Decision) :=
  match read_text f with
  | Raise e => Raise e
  | Ok content =>
      match relative_to f base_path with
      | Raise e => Raise e
      | Ok rel_path =>
          let filename := PathLib.stem (file_path f) in
          match match_ no_flags adr_name_re filename with
          | None => Ok None
          | Some m =>
              let decision_id := group 1 m in
              let title :=
                match search MULTILINE h1_re content with
                | Some title_match => group 1 title_match
                | None => filename
                end in
              let status :=
                match search IGNORECASE status_re content with
                | Some status_match => lower (group 1 status_match)
                | None => "accepted"
                end in
              Ok (Some (mkDecision decision_id title status rel_path
                          (section "Context" content)
                          (section "Decision" content)
                          (section "Consequences" content)))
          end
      end
  end.

(** ** The scan loop of [main] *)

Record scan := mkScan {
  docs : list Document;
  decisions : list Decision;
  printed : list string
}.

Definition warning (f : file) (e : string) : string :=
  "  Warning: Failed to parse " ++ PathLib.str (file_path f) ++ ": " ++ e.

(** [md_file.name.upper() == "README.MD" and md_file.parent == docs_path] *)
Definition is_root_readme (docs_path : PathLib.path) (f : file) : bool :=
  String.eqb (upper (PathLib.name (file_path f))) "README.MD"
  && bool_decide (PathLib.parent (file_path f) = docs_path).

(** ["decision" in md_file.parent.name.lower() or "02-" in str(md_file)] *)
Definition is_decision_doc (f : file) : bool :=
  contains "decision" (lower (PathLib.name (PathLib.parent (file_path f))))
  || contains "02-" (PathLib.str (file_path f)).

(** One turn of the loop: the body of the [try] and its [except]. *)
Definition scan_file (docs_path : PathLib.path) (st : scan) (md_file : file) : scan :=
  if is_root_readme docs_path md_file then st
  else
    match parse_document md_file docs_path with
    | Raise e => mkScan (docs st) (decisions st) (printed st ++ [warning md_file e])
    | Ok doc =>
        let st := mkScan (docs st ++ [doc]) (decisions st) (printed st) in
        if is_decision_doc md_file then
          match parse_decision md_file docs_path with
          | Raise e => mkScan (docs st) (decisions st) (printed st ++ [warning md_file e])
          | Ok (Some dec) => mkScan (docs st) (decisions st ++ [dec]) (printed st)
          | Ok None => st
          end
        else st
    end.

Definition scan_files (docs_path : PathLib.path) (md_files : list file) : scan :=
  fold_left (scan_file docs_path) md_files (mkScan [] [] []).

(** ** The graph store and the Cypher statements of the writer *)

Inductive value : Type :=
| VStr (s : string)
| VList (l : list string).

Global Instance value_eq_dec : EqDecision value.
Proof. solve_decision. Defined.

Record node := mkNode {
  nid : nat;
  labels : list string;
  props : list (string * value)
}.

Record rel := mkRel {
  src : nat;
  rtype : string;
  dst : nat
}.

Global Instance rel_eq_dec : EqDecision rel.
Proof. solve_decision. Defined.

Record graph := mkGraph {
  nodes : list node;
  rels : list rel
}.

Definition empty_graph : graph := mkGraph [] [].

(** The store numbers a new node above every node it holds. *)
Definition fresh (g : graph) : nat :=
  fold_right Nat.max 0 (map (fun n => S (nid n)) (nodes g)).

Definition has_label (l : string) (n : node) : bool :=
  bool_decide (l ∈ labels n).

Fixpoint prop (key : string) (ps : list (string * value)) : option value :=
  match ps with
  | [] => None
  | (k, v) :: ps' => if String.eqb k key then Some v else prop key ps'
  end.

(** The node pattern [(x:l1:l2 {key: $v})]. *)
Definition matches (ls : list string) (key v : string) (n : node) : bool :=
  forallb (fun l => has_label l n) ls
  && bool_decide (prop key (props n) = Some (VStr v)).

Definition match_nodes (ls : list string) (key v : string) (g : graph) : list node :=
  List.filter (matches ls key v) (nodes g).

(** [CREATE (x:l1:l2 {...})] *)
Definition create_node (ls : list string) (ps : list (string * value)) (g : graph)
  : graph :=
  mkGraph (nodes g ++ [mkNode (fresh g) ls ps]) (rels g).

(** [MERGE (x:l1:l2 {key: $v})]: the nodes that match, or else a new one. *)
Definition merge_node (ls : list string) (key v : string) (g : graph)
  : graph * list node :=
  match match_nodes ls key v g with
  | [] => (create_node ls [(key, VStr v)] g, [mkNode (fresh g) ls [(key, VStr v)]])
  | ms => (g, ms)
  end.

(** [MERGE (a)-[:T]->(b)] for bound [a] and [b]. *)
Definition merge_rel (t : string) (a b : node) (g : graph) : graph :=
  let r := mkRel (nid a) t (nid b) in
  if bool_decide (r ∈ rels g) then g else mkGraph (nodes g) (rels g ++ [r]).

(** The statements that [create_graph] sends, with their parameters. *)
Inductive query : Type :=
| DetachDelete (project : string)
    (* MATCH (n:P) DETACH DELETE n *)
| Create (ls : list string) (ps : list (string * value))
    (* CREATE (d:P:Kind {...}) *)
| MergeLinked (project kind t name path : string)
    (* MERGE (c:P:Kind {name: $name}) WITH c
       MATCH (d:P:Document {path: $path}) MERGE (d)-[:T]->(c) *)
| LinkDocuments (project from_path to_path : string).
    (* MATCH (d1:P:Document {path: $from_path})
       MATCH (d2:P:Document {path: $to_path}) MERGE (d1)-[:REFERENCES]->(d2) *)

Definition detach_delete (project : string) (g : graph) : graph :=
  let dead := map nid (List.filter (has_label project) (nodes g)) in
  mkGraph (List.filter (fun n => negb (has_label project n)) (nodes g))
          (List.filter (fun r => negb (bool_decide (src r ∈ dead))
                            && negb (bool_decide (dst r ∈ dead))) (rels g)).

(** [MERGE (a)-[:T]->(b)] for every row [(a, b)], the rows of [a] outermost. *)
Definition merge_rels (t : string) (froms tos : list node) (g : graph) : graph :=
  fold_left (fun g a => fold_left (fun g b => merge_rel t a b g) tos g) froms g.

Definition run_query (g : graph) (q : query) : graph :=
  match q with
  | DetachDelete project => detach_delete project g
  | Create ls ps => create_node ls ps g
  | MergeLinked project kind t name path =>
      let '(g, cs) := merge_node [project; kind] "name" name g in
      fold_left
        (fun g c => fold_left (fun g d => merge_rel t d c g)
                              (match_nodes [project; "Document"] "path" path g) g)
        cs g
  | LinkDocuments project from_path to_path =>
      merge_rels "REFERENCES"
                 (match_nodes [project; "Document"] "path" from_path g)
                 (match_nodes [project; "Document"] "path" to_path g) g
  end.

(** ** [create_graph] *)

Definition document_props (doc : Document) : list (string * value) :=
  [("path", VStr (path doc)); ("title", VStr (title doc));
   ("type", VStr (doc_type doc)); ("headings", VList (headings doc));
   ("content", VStr (take 2000 (content doc)))].

Definition decision_props (dec : Decision) : list (string * value) :=
  [("id", VStr (dec_id dec)); ("title", VStr (dec_title dec));
   ("status", VStr (dec_status dec)); ("path", VStr (dec_path dec));
   ("context", VStr (dec_context dec)); ("decision", VStr (dec_decision dec));
   ("consequences", VStr (dec_consequences dec))].

(** The body of the loop over [docs]. *)
Definition write_document (project : string) (g : graph) (doc : Document) : graph :=
  let g := run_query g (Create [project; "Document"] (document_props doc)) in
  let g := fold_left
             (fun g comp => run_query g (MergeLinked project "Component" "DESCRIBES" comp (path doc)))
             (components doc) g in
  fold_left
    (fun g concept => run_query g (MergeLinked project "Concept" "MENTIONS" concept (path doc)))
    (List.firstn 10 (concepts doc)) g.

Definition write_decision (project : string) (g : graph) (dec : Decision) : graph :=
  run_query g (Create [project; "Decision"] (decision_props dec)).

Definition write_references (project : string) (g : graph) (doc : Document) : graph :=
  fold_left (fun g ref => run_query g (LinkDocuments project (path doc) ref))
            (references doc) g.

(** The writes of [create_graph] after the reset. *)
Definition write_all (project : string) (docs : list Document)
           (decisions : list Decision) (g : graph) : graph :=
  let g := fold_left (write_document project) docs g in
  let g := fold_left (write_decision project) decisions g in
  fold_left (write_references project) docs g.

Definition create_graph (project : string) (docs : list Document)
           (decisions : list Decision) (g : graph) : graph :=
  let g := run_query g (DetachDelete project) in
  write_all project docs decisions g.

(** The counts of the summary. *)
Definition node_count (g : graph) : nat := length (nodes g).
Definition rel_count (g : graph) : nat := length (rels g).

(** [MATCH (n:P) RETURN labels(n), count( * )]: one row per list of labels. *)
Fixpoint tally_add (ls : list string) (rows : list (list string * nat))
  : list (list string * nat) :=
  match rows with
  | [] => [(ls, 1)]
  | (ls', c) :: rows' =>
      if bool_decide (ls' = ls) then (ls', S c) :: rows'
      else (ls', c) :: tally_add ls rows'
  end.

Definition summary (project : string) (g : graph) : list (list string * nat) :=
  fold_left (fun rows n => tally_add (labels n) rows)
            (List.filter (has_label project) (nodes g)) [].

(** ** Notions used to state the properties *)

(** The seven tags of the classifier. *)
Definition doc_types : list string :=
  ["overview"; "architecture"; "decision"; "implementation"; "operations";
   "plan"; "other"].

(** The rows of the classifier from the top: a keyword, a numeric marker
    and the tag they give. *)
Definition classifier_rules : list (string * string * string) :=
  [("overview", "00-", "overview");
   ("architecture", "01-", "architecture");
   ("decision", "02-", "decision");
   ("implementation", "04-", "implementation");
   ("operations", "05-", "operations");
   ("plan", "06-", "plan")].

Definition contains_nocase (sub s : string) : bool := contains (lower sub) (lower s).

(** The if-chain of the code read as a table: a row applies when the
    keyword or the marker occurs anywhere in the path, letter case apart,
    and the first row that applies wins. *)
Fixpoint first_match (rules : list (string * string * string)) (path : string)
  : string :=
  match rules with
  | [] => "other"
  | (keyword, marker, tag) :: rules' =>
      if contains_nocase keyword path || contains_nocase marker path then tag
      else first_match rules' path
  end.

(** The checks as the specification lists them: a row applies when the
    path holds the keyword, or when one of the segments of the path (the
    pieces between the slashes) starts with the marker; both without regard
    to letter case, the first row that applies wins, and "other" is the
    default. *)
Definition starts_segment (marker path : string) : bool :=
  existsb (fun segment => startswith segment marker) (split "/" None path).

Fixpoint listed_checks (rules : list (string * string * string)) (path : string)
  : string :=
  match rules with
  | [] => "other"
  | (keyword, marker, tag) :: rules' =>
      if contains (lower keyword) (lower path)
         || starts_segment (lower marker) (lower path)
      then tag
      else listed_checks rules' path
  end.

Definition specified_doc_type (path : string) : string :=
  listed_checks classifier_rules path.

(** [term] stands in [text] between two copies of the delimiter [d]. *)
Definition delimited (d term text : string) : Prop :=
  exists before after, text = before ++ d ++ term ++ d ++ after.

(** The text of a line before its first colon, and after it. *)
Fixpoint before_colon (line : string) : string :=
  match line with
  | "" => ""
  | String c s => if Ascii.eqb c ":" then "" else String c (before_colon s)
  end.

Fixpoint after_colon (line : string) : string :=
  match line with
  | "" => ""
  | String c s => if Ascii.eqb c ":" then s else after_colon s
  end.

Definition entry_key (line : string) : string := strip (before_colon line).
Definition entry_value (line : string) : string := strip (after_colon line).

(** No whitespace at either end. *)
Definition trimmed (s : string) : Prop :=
  (forall c s', s = String c s' -> is_space c = false) /\
  (forall s' c, s = s' ++ String c "" -> is_space c = false).

(** Every relationship of the store joins two nodes of the store. *)
Definition wf_graph (g : graph) : Prop :=
  forall r, r ∈ rels g -> src r ∈ map nid (nodes g) /\ dst r ∈ map nid (nodes g).

(** The nodes that the writer created for the Document with a given path. *)
Definition is_document (project : string) (n : node) : bool :=
  bool_decide (labels n = [project; "Document"]).

Definition path_of (n : node) : option value := prop "path" (props n).

Definition document_nodes (project p : string) (g : graph) : list node :=
  List.filter (fun n => is_document project n && bool_decide (path_of n = Some (VStr p)))
              (nodes g).

(** The number of relationships of type [t] from node [a] to node [b]. *)
Definition count_rels (t : string) (a b : node) (g : graph) : nat :=
  length (List.filter (fun r => bool_decide (r = mkRel (nid a) t (nid b))) (rels g)).

(** What one file adds to the three lists of a scan. *)
Definition documents_of (docs_path : PathLib.path) (f : file) : list Document :=
  if is_root_readme docs_path f then []
  else match parse_document f docs_path with
       | Ok doc => [doc]
       | Raise _ => []
       end.

Definition warnings_of (docs_path : PathLib.path) (f : file) : list string :=
  if is_root_readme docs_path f then []
  else match parse_document f docs_path with
       | Ok _ => []
       | Raise e => [warning f e]
       end.

Definition decisions_of (docs_path : PathLib.path) (f : file) : list Decision :=
  if is_root_readme docs_path f then []
  else if is_decision_doc f then
         match parse_decision f docs_path with
         | Ok (Some dec) => [dec]
         | _ => []
         end
       else [].

(** The file name has the shape [<digits>-<rest>] of a decision record. *)
Definition numeric_prefix (f : file) : bool :=
  match match_ no_flags adr_name_re (PathLib.stem (file_path f)) with
  | Some _ => true
  | None => false
  end.

(** No letter occurs in the text, so that letter case cannot matter to it. *)
Fixpoint caseless (s : string) : bool :=
  match s with
  | "" => true
  | String c s' => negb (is_alpha c) && caseless s'
  end.

(** Every character of the text is in the class. *)
Fixpoint all_chars (ok : ascii -> bool) (s : string) : bool :=
  match s with
  | "" => true
  | String c s' => ok c && all_chars ok s'
  end.

(** What a line with a colon does to the mapping. *)
Definition insert_entry (fm : gmap string string) (line : string)
  : gmap string string :=
  <[entry_key line := entry_value line]> fm.

(** No node of the store has the label. *)
Definition unlabelled (project : string) (g : graph) : Prop :=
  Forall (fun n => has_label project n = false) (nodes g).

(** [g'] is [g] with more nodes, every one with the label [project] and
    numbered from [fresh g] on, and with more relationships, every one
    leaving one of the new nodes. *)
Definition extends (project : string) (g g' : graph) : Prop :=
  exists new_nodes new_rels,
    nodes g' = (nodes g ++ new_nodes)%list /\
    rels g' = (rels g ++ new_rels)%list /\
    Forall (fun n => has_label project n = true /\ fresh g <= nid n) new_nodes /\
    Forall (fun r => In (src r) (map nid new_nodes)) new_rels.

(** The [path] properties of the Document nodes, in the order of the store. *)
Definition doc_paths (project : string) (g : graph) : list (option value) :=
  map path_of (List.filter (is_document project) (nodes g)).

(** No node of the store is matched by [(d:P:Document {path: $ref})]. *)
Definition unmatched (project ref : string) (g : graph) : Prop :=
  match_nodes [project; "Document"] "path" ref g = [].

(** The text without the occurrences of one character. *)
Fixpoint remove_char (c : ascii) (s : string) : string :=
  match s with
  | "" => ""
  | String x s' => if Ascii.eqb c x then remove_char c s' else String x (remove_char c s')
  end.

(** The names of the vocabulary of [extract_components], in lower case and
    without spaces. *)
Definition component_names : list string :=
  ["tokenscreener"; "screener"; "riskengine"; "exitengine"; "tradeexecutor";
   "executor"; "keystore"; "webhookhandler"; "copytradeworker";
   "exitcheckworker"; "priceupdateworker"; "jupiter"; "helius"; "birdeye"].

(** The last character of a text, or [p] for the empty text. *)
Fixpoint last_char (p : option ascii) (s : string) : option ascii :=
  match s with
  | "" => p
  | String c s' => last_char (Some c) s'
  end.

(** A node of another owner: it does not carry the label [project]. *)
Definition foreign (project : string) (n : node) : bool :=
  negb (has_label project n).

(** The nodes of one kind that the writer created, by their labels, and
    their properties in the order of the store. *)
Definition of_kind (project kind : string) (n : node) : bool :=
  bool_decide (labels n = [project; kind]).

Definition kind_props (project kind : string) (g : graph)
  : list (list (string * value)) :=
  map props (List.filter (of_kind project kind) (nodes g)).

(** [g'] holds every node and every relationship of [g]. *)
Definition grows (g g' : graph) : Prop :=
  incl (nodes g) (nodes g') /\ incl (rels g) (rels g').

(** At most one node is matched by [(c:P:Kind {name: $name})], for the two
    kinds that the writer merges. *)
Definition merged_once (project : string) (g : graph) : Prop :=
  forall kind name,
    kind = "Component" \/ kind = "Concept" ->
    length (match_nodes [project; kind] "name" name g) <= 1.

(** The node [d] has a relationship of type [t] to a node that the pattern
    [(c:P:Kind {name: $name})] matches. *)
Definition links_to (project kind t name : string) (d : node) (g : graph) : Prop :=
  exists c,
    In c (match_nodes [project; kind] "name" name g) /\
    In (mkRel (nid d) t (nid c)) (rels g).

(** The store holds a Document node with the properties of [doc] that
    describes every component of [doc] and mentions each of its first ten
    concepts. *)
Definition document_linked (project : string) (doc : Document) (g : graph) : Prop :=
  exists d,
    In d (nodes g) /\ labels d = [project; "Document"] /\
    props d = document_props doc /\
    (forall comp, In comp (components doc) ->
                  links_to project "Component" "DESCRIBES" comp d g) /\
    (forall concept, In concept (List.firstn 10 (concepts doc)) ->
                     links_to project "Concept" "MENTIONS" concept d g).

(** A character of a word that is no capital letter. *)
Definition is_lower_word (c : ascii) : bool := is_word c && negb (is_upper c).


(** The count that the rows of a summary give for a list of labels. *)
Fixpoint tally_of (ls : list string) (rows : list (list string * nat)) : nat :=
  match rows with
  | [] => 0
  | (ls', c) :: rows' => if bool_decide (ls' = ls) then c else tally_of ls rows'
  end.

(** A delimiter line, in the words of the specification: a line that is
    the three dashes, whitespace behind them apart; and a text that begins
    with one. *)
Definition first_line (content : string) : string :=
  hd "" (split NL None content).

Definition begins_with_delimiter_line (content : string) : bool :=
  String.eqb (rstrip (first_line content)) "---".

(** A text with a three-part frontmatter block, in the words of the
    specification: the delimiter line, the lines of the metadata segment,
    and the closing delimiter line with the body behind it. *)
Definition frontmatter_block (lines : list string) (body : string) : string :=
  join NL ("---" :: (lines ++ [("---" ++ body)%string])%list).

(** The text of the lines, each behind a line break. *)
Fixpoint lines_text (lines : list string) : string :=
  match lines with
  | [] => ""
  | l :: ls => NL ++ l ++ lines_text ls
  end.

(** The entries that lines give: for each line with a colon, in the order
    of the lines, its trimmed key and its trimmed value. *)
Definition entries (lines : list string) : list (string * string) :=
  map (fun l => (entry_key l, entry_value l)) (List.filter (contains ":") lines).

Definition insert_pair (fm : gmap string string) (kv : string * string)
  : gmap string string :=
  <[fst kv := snd kv]> fm.

(** A character of the ASCII range, on which the classes and the letter
    cases of this file are those of Python. *)
Definition is_ascii (c : ascii) : bool := code c <? 128.

(** * Properties *)

(** ** Strings *)

Section StringFacts.

Lemma append_nil_r (s : string) : s ++ "" = s.
Proof. induction s as [|c s IH]; simpl; [reflexivity | now rewrite IH]. Qed.

Lemma append_assoc (a b c : string) : (a ++ b) ++ c = a ++ (b ++ c).
Proof. induction a as [|x a IH]; simpl; [reflexivity | now rewrite IH]. Qed.

Lemma length_append (a b : string) :
  String.length (a ++ b) = String.length a + String.length b.
Proof. induction a as [|x a IH]; simpl; [reflexivity | now rewrite IH]. Qed.

Lemma startswith_spec (s p : string) :
  startswith s p = true <-> exists t, s = p ++ t.
Proof.
  revert s. induction p as [|a p IH]; intros s; simpl.
  - split; [intros _; now exists s | reflexivity].
  - destruct s as [|b s].
    + split; [discriminate | intros [t Ht]; discriminate].
    + destruct (Ascii.eqb_spec a b) as [->|Hne].
      * rewrite IH. split; intros [t Ht]; exists t; simpl in *; congruence.
      * split; [discriminate | intros [t Ht]; simpl in Ht; congruence].
Qed.

Lemma contains_spec (sub s : string) :
  contains sub s = true <-> exists a b, s = a ++ sub ++ b.
Proof.
  induction s as [|c s IH].
  - simpl. rewrite orb_false_r, startswith_spec. split.
    + intros [t Ht]. now exists "", t.
    + intros [a [b H]]. destruct a; simpl in H.
      * now exists b.
      * discriminate.
  - cbn [contains]. rewrite orb_true_iff, IH, startswith_spec. split.
    + intros [[t Ht] | [a [b H]]].
      * now exists "", t.
      * exists (String c a), b. simpl. now rewrite H.
    + intros [a [b H]]. destruct a as [|x a]; simpl in H.
      * left. now exists b.
      * right. inversion H. now exists a, b.
Qed.

Lemma contains_append (sub a b : string) :
  contains sub a = true \/ contains sub b = true -> contains sub (a ++ b) = true.
Proof.
  rewrite !contains_spec. intros [[x [y H]] | [x [y H]]]; subst.
  - exists x, (y ++ b). now rewrite !append_assoc.
  - exists (a ++ x), y. now rewrite !append_assoc.
Qed.

Lemma contains_refl (s : string) : contains s s = true.
Proof. apply contains_spec. exists "", "". simpl. now rewrite append_nil_r. Qed.

Lemma length_take (n : nat) (s : string) : String.length (take n s) <= n.
Proof.
  revert s. induction n as [|n IH]; intros [|c s]; simpl; try lia.
  specialize (IH s). lia.
Qed.

Lemma take_drop (n : nat) (s : string) : take n s ++ drop n s = s.
Proof.
  revert s. induction n as [|n IH]; intros [|c s]; simpl; try reflexivity.
  now rewrite IH.
Qed.

End StringFacts.

(** ** The frontmatter splitter without a block *)

(** The test is on the three characters: a text that begins with a longer
    rule of dashes begins with the delimiter too, and is split. *)
Example parse_frontmatter_long_rule :
  parse_frontmatter ("------" ++ NL ++ "rule") = (∅, NL ++ "rule") /\
  parse_frontmatter ("----" ++ NL ++ "rule") = (∅, "----" ++ NL ++ "rule").
Proof.
  vm_compute. split; reflexivity.
Qed.

(** ** The classifier *)

Section Classifier.

Lemma lower_of_upper (b : ascii) :
  is_upper b = true -> is_lower (lower_char b) = true /\ is_alpha b = true.
Proof.
  destruct b as [[] [] [] [] [] [] [] []]; vm_compute; intros H;
    first [discriminate H | split; reflexivity].
Qed.

Lemma eqb_lower_caseless (a b : ascii) :
  is_alpha a = false -> Ascii.eqb a (lower_char b) = Ascii.eqb a b.
Proof.
  intros Ha. destruct (is_upper b) eqn:Hb.
  - destruct (lower_of_upper b Hb) as [Hl Hal].
    destruct (Ascii.eqb_spec a (lower_char b)) as [E|_];
      destruct (Ascii.eqb_spec a b) as [E'|_]; try reflexivity.
    + subst a. unfold is_alpha in Ha. rewrite Hl, orb_true_r in Ha. discriminate.
    + subst a. congruence.
  - unfold lower_char. now rewrite Hb.
Qed.

Lemma startswith_lower_caseless (sub s : string) :
  caseless sub = true -> startswith (lower s) sub = startswith s sub.
Proof.
  revert s. induction sub as [|a sub IH]; intros s H; [reflexivity|].
  simpl in H. apply andb_true_iff in H as [Ha Hs].
  apply negb_true_iff in Ha.
  destruct s as [|b s]; [reflexivity|].
  cbn [lower map_chars startswith]. rewrite (eqb_lower_caseless a b Ha).
  destruct (Ascii.eqb a b); [apply IH; exact Hs | reflexivity].
Qed.

Lemma contains_lower_caseless (sub s : string) :
  caseless sub = true -> contains sub (lower s) = contains sub s.
Proof.
  intros H. induction s as [|c s IH].
  - reflexivity.
  - change (lower (String c s)) with (String (lower_char c) (lower s)).
    cbn [contains].
    change (String (lower_char c) (lower s)) with (lower (String c s)).
    now rewrite (startswith_lower_caseless sub (String c s) H), IH.
Qed.

Lemma first_match_default (path : string) : first_match [] path = "other".
Proof. reflexivity. Qed.

End Classifier.

(** The classifier is total and its result is one of the seven tags; it is
    the tag of the first row whose keyword or marker occurs in the path, or
    "other" when there is none. *)
Lemma determine_doc_type_total (path : string) :
  In (determine_doc_type path) doc_types /\
  determine_doc_type path = first_match classifier_rules path.
Proof.
  split.
  - unfold determine_doc_type, doc_types.
    repeat match goal with
           | |- context [if ?b then _ else _] => destruct b
           end; simpl; tauto.
  - unfold determine_doc_type, classifier_rules, first_match, contains_nocase.
    change (lower "overview") with "overview".
    change (lower "architecture") with "architecture".
    change (lower "decision") with "decision".
    change (lower "implementation") with "implementation".
    change (lower "operations") with "operations".
    change (lower "plan") with "plan".
    change (lower "00-") with "00-". change (lower "01-") with "01-".
    change (lower "02-") with "02-". change (lower "04-") with "04-".
    change (lower "05-") with "05-". change (lower "06-") with "06-".
    rewrite (contains_lower_caseless "00-"), (contains_lower_caseless "01-"),
      (contains_lower_caseless "02-"), (contains_lower_caseless "04-"),
      (contains_lower_caseless "05-"), (contains_lower_caseless "06-")
      by reflexivity.
    reflexivity.
Qed.

(** The markers are looked for anywhere in the path, the keywords in any
    letter case, and the first row wins. *)
Example determine_doc_type_examples :
  determine_doc_type "guides/x00-notes.md" = "overview" /\
  determine_doc_type "02-decisions/ARCHITECTURE.md" = "architecture" /\
  determine_doc_type "03-design/api.md" = "other" /\
  determine_doc_type "06-roadmap/explanations.md" = "plan".
Proof.
  vm_compute. repeat split; reflexivity.
Qed.

(** ** Component names *)

Lemma extract_components_NoDup (content : string) :
  NoDup (extract_components content).
Proof. unfold extract_components. apply NoDup_elements. Qed.

(** C1: the names are matched without regard to letter case, but the
    matched text is added with the letter case it has in the document, only
    its spaces removed: two spellings of one component give two names. *)
Theorem extract_components_keeps_letter_case :
  extract_components "Trade Executor" = ["TradeExecutor"] /\
  extract_components "TRADE EXECUTOR" = ["TRADEEXECUTOR"] /\
  length (extract_components "Trade Executor, TRADE EXECUTOR") = 2 /\
  In "TradeExecutor" (extract_components "Trade Executor, TRADE EXECUTOR") /\
  In "TRADEEXECUTOR" (extract_components "Trade Executor, TRADE EXECUTOR").
Proof.
  vm_compute. repeat split; auto.
Qed.

(** ** The sections of a decision record *)

(** C3: a section with no text under its heading takes the heading that
    follows and the text under that one. *)
Theorem section_takes_following_heading :
  section "Context" ("## Context" ++ NL ++ "## Decision" ++ NL ++ "Use X")
  = "## Decision" ++ NL ++ "Use X" /\
  section "Decision" ("## Context" ++ NL ++ "## Decision" ++ NL ++ "Use X")
  = "Use X".
Proof.
  vm_compute. split; reflexivity.
Qed.

(** The heading is found inside a heading of a deeper level too, and a
    heading of a deeper level ends the section. *)
Example section_other_levels :
  section "Context" ("### Context" ++ NL ++ "inner") = "inner" /\
  section "Context" ("## Context" ++ NL ++ "one" ++ NL ++ "### Detail" ++ NL ++ "two")
  = "one".
Proof.
  vm_compute. split; reflexivity.
Qed.

Lemma section_length (heading content : string) :
  String.length (section heading content) <= 2000.
Proof.
  unfold section. destruct (search _ _ _); [apply length_take | simpl; lia].
Qed.

(** ** The scan *)

Section Scan.

Variable docs_path : PathLib.path.

Lemma parse_decision_of_ok (f : file) (doc : Document) :
  parse_document f docs_path = Ok doc ->
  exists o, parse_decision f docs_path = Ok o.
Proof.
  unfold parse_document, parse_decision.
  destruct (read_text f) as [content|e]; [|discriminate].
  destruct (relative_to f docs_path) as [rel_path|e]; [|discriminate].
  intros _. destruct (match_ _ _ _); eauto.
Qed.

Lemma parse_decision_of_raise (f : file) (e : string) :
  parse_document f docs_path = Raise e ->
  parse_decision f docs_path = Raise e.
Proof.
  unfold parse_document, parse_decision.
  destruct (read_text f) as [content|e']; [|congruence].
  destruct (relative_to f docs_path) as [rel_path|e']; [|congruence].
  destruct (parse_frontmatter content). discriminate.
Qed.

Lemma scan_file_adds (st : scan) (f : file) :
  scan_file docs_path st f =
  mkScan (docs st ++ documents_of docs_path f)
         (decisions st ++ decisions_of docs_path f)
         (printed st ++ warnings_of docs_path f).
Proof.
  unfold scan_file, documents_of, decisions_of, warnings_of.
  destruct st as [ds cs ps]. cbn [docs decisions printed].
  destruct (is_root_readme docs_path f).
  { now rewrite !app_nil_r. }
  destruct (parse_document f docs_path) as [doc|e] eqn:Hdoc.
  - destruct (parse_decision_of_ok f doc Hdoc) as [o Ho]. rewrite Ho.
    destruct (is_decision_doc f); [destruct o|]; cbn [docs decisions printed];
      now rewrite !app_nil_r.
  - rewrite (parse_decision_of_raise f e Hdoc).
    destruct (is_decision_doc f); now rewrite !app_nil_r.
Qed.

Lemma scan_fold (md_files : list file) (st : scan) :
  fold_left (scan_file docs_path) md_files st =
  mkScan (docs st ++ flat_map (documents_of docs_path) md_files)
         (decisions st ++ flat_map (decisions_of docs_path) md_files)
         (printed st ++ flat_map (warnings_of docs_path) md_files).
Proof.
  revert st. induction md_files as [|f fs IH]; intros st.
  - destruct st. cbn. now rewrite !app_nil_r.
  - cbn [fold_left flat_map]. rewrite IH, scan_file_adds.
    cbn [docs decisions printed]. now rewrite <- !app_assoc.
Qed.

Lemma scan_files_lists (md_files : list file) :
  scan_files docs_path md_files =
  mkScan (flat_map (documents_of docs_path) md_files)
         (flat_map (decisions_of docs_path) md_files)
         (flat_map (warnings_of docs_path) md_files).
Proof. unfold scan_files. now rewrite scan_fold. Qed.

Lemma failing_file_adds (f : file) (e : string) :
  is_root_readme docs_path f = false ->
  parse_document f docs_path = Raise e ->
  documents_of docs_path f = [] /\
  decisions_of docs_path f = [] /\
  warnings_of docs_path f = [warning f e].
Proof.
  intros Hr Hp. unfold documents_of, decisions_of, warnings_of.
  rewrite Hr, Hp, (parse_decision_of_raise f e Hp).
  now destruct (is_decision_doc f).
Qed.

Lemma warning_names_file (f : file) (e : string) :
  contains (PathLib.str (file_path f)) (warning f e) = true.
Proof.
  unfold warning. apply contains_append. right.
  apply contains_append. left. apply contains_refl.
Qed.

End Scan.

(** C7: a file whose parsing fails adds one warning that names it and
    nothing else: the Documents and Decisions of the scan are those of the
    scan of the other files, every other file that parses has its Document,
    and the scan itself produces its three lists for every corpus. *)
Theorem scan_isolates_failures (docs_path : PathLib.path)
        (before after : list file) (bad : file) (e : string) :
  is_root_readme docs_path bad = false ->
  parse_document bad docs_path = Raise e ->
  let st := scan_files docs_path (before ++ bad :: after) in
  docs st = docs (scan_files docs_path (before ++ after)) /\
  decisions st = decisions (scan_files docs_path (before ++ after)) /\
  printed st = (printed (scan_files docs_path before) ++ warning bad e
                  :: printed (scan_files docs_path after))%list /\
  contains (PathLib.str (file_path bad)) (warning bad e) = true /\
  Forall (fun f => forall doc,
            is_root_readme docs_path f = false ->
            parse_document f docs_path = Ok doc -> In doc (docs st))
         (before ++ after).
Proof.
  intros Hr Hp st. subst st. rewrite !scan_files_lists. cbn [docs decisions printed].
  destruct (failing_file_adds docs_path bad e Hr Hp) as (Hd & Hc & Hw).
  split; [|split; [|split; [|split]]].
  - rewrite !flat_map_app. cbn [flat_map]. now rewrite Hd.
  - rewrite !flat_map_app. cbn [flat_map]. now rewrite Hc.
  - rewrite flat_map_app. cbn [flat_map]. now rewrite Hw.
  - apply warning_names_file.
  - apply List.Forall_forall. intros f Hf doc Hrf Hpf.
    apply in_flat_map. exists f. split.
    + apply in_app_iff. apply in_app_iff in Hf as [Hf|Hf]; [now left | right; now right].
    + unfold documents_of. rewrite Hrf, Hpf. now left.
Qed.

Lemma scan_isolates_failures_witness :
  let docs_path := ["srv"; "docs"] in
  let good := mkFile ["srv"; "docs"; "guide.md"] (Ok "# Guide") in
  let bad := mkFile ["srv"; "docs"; "broken.md"]
                    (Raise "'utf-8' codec can't decode byte 0xff in position 0") in
  let e := "'utf-8' codec can't decode byte 0xff in position 0" in
  let st := scan_files docs_path ([good] ++ bad :: []) in
  docs st = docs (scan_files docs_path ([good] ++ [])) /\
  decisions st = decisions (scan_files docs_path ([good] ++ [])) /\
  printed st = (printed (scan_files docs_path [good]) ++ warning bad e
                  :: printed (scan_files docs_path []))%list /\
  contains (PathLib.str (file_path bad)) (warning bad e) = true /\
  Forall (fun f => forall doc,
            is_root_readme docs_path f = false ->
            parse_document f docs_path = Ok doc -> In doc (docs st))
         ([good] ++ []).
Proof.
  intros docs_path good bad e.
  apply (scan_isolates_failures docs_path [good] [] bad e); reflexivity.
Defined.

(** One well-formed file and one that cannot be decoded: one Document, no
    Decision, one warning with the path of the failing file. *)
Example scan_one_good_one_bad :
  let st := scan_files ["srv"; "docs"]
              [mkFile ["srv"; "docs"; "guide.md"] (Ok "# Guide");
               mkFile ["srv"; "docs"; "decisions"; "001-broken.md"]
                      (Raise "invalid start byte")] in
  map path (docs st) = ["guide.md"] /\
  decisions st = [] /\
  printed st =
    ["  Warning: Failed to parse /srv/docs/decisions/001-broken.md: invalid start byte"].
Proof.
  vm_compute. repeat split; reflexivity.
Qed.

(** ** Decision candidates *)

Lemma contains_join (sub sep : string) (p : list string) :
  Exists (fun d => contains sub d = true) p -> contains sub (join sep p) = true.
Proof.
  induction 1 as [d p Hd | d p Hp IH].
  - destruct p as [|d' p]; cbn [join]; [exact Hd|].
    apply contains_append. now left.
  - destruct p as [|d' p]; [inversion Hp|].
    cbn [join] in *. apply contains_append. right.
    apply contains_append. now right.
Qed.

Lemma marker_in_path (docs_path rel : PathLib.path) (data : result string) :
  Exists (fun d => contains "02-" d = true) docs_path ->
  is_decision_doc (mkFile (docs_path ++ rel)%list data) = true.
Proof.
  intros H. unfold is_decision_doc. apply orb_true_iff. right.
  cbn [file_path]. unfold PathLib.str. apply contains_append. right.
  apply contains_join. apply Exists_app. now left.
Qed.

Lemma parse_decision_numeric_prefix (docs_path : PathLib.path) (f : file)
      (content rel_path : string) :
  read_text f = Ok content ->
  relative_to f docs_path = Ok rel_path ->
  (numeric_prefix f = true <-> exists dec, parse_decision f docs_path = Ok (Some dec)).
Proof.
  intros Hread Hrel. unfold numeric_prefix, parse_decision. rewrite Hread, Hrel.
  destruct (match_ _ _ _); split; intros H; try discriminate; eauto.
  destruct H as [dec H]. discriminate.
Qed.

(** The same file is a Decision below a root with the marker in its path
    and is none below a root without it. *)
Example marker_above_root_example :
  map dec_id (decisions (scan_files ["srv"; "2002-archive"; "docs"]
    [mkFile ["srv"; "2002-archive"; "docs"; "notes"; "7-ideas.md"] (Ok "# Ideas")]))
  = ["7"] /\
  decisions (scan_files ["srv"; "docs"]
    [mkFile ["srv"; "docs"; "notes"; "7-ideas.md"] (Ok "# Ideas")]) = [].
Proof.
  vm_compute. split; reflexivity.
Qed.

(** ** What a successful match says about the text *)

Section Matcher.

(** A repetition that succeeds has passed over [n] characters of the
    class, at least [lo], and the continuation succeeded after them. *)
Lemma rep_sound {A : Type} (ok : ascii -> bool) (greedy : bool) (s : string) :
  forall (lo : nat) (hi : option nat) (p : option ascii) (i : nat)
         (k : option ascii -> nat -> string -> option A) (r : A),
    rep ok greedy lo hi p i s k = Some r ->
    exists n p', lo <= n /\ n <= String.length s /\
                 all_chars ok (take n s) = true /\
                 k p' (i + n) (drop n s) = Some r.
Proof.
  induction s as [|c s IH]; intros lo hi p i k r H.
  - cbn [rep] in H. destruct lo; [|discriminate].
    exists 0, p. rewrite Nat.add_0_r. cbn. repeat split; auto.
  - cbn [rep] in H.
    assert (Hstop : forall p0, k p0 i (String c s) = Some r ->
              exists n p', 0 <= n /\ n <= String.length (String c s) /\
                           all_chars ok (take n (String c s)) = true /\
                           k p' (i + n) (drop n (String c s)) = Some r).
    { intros p0 Hk. exists 0, p0. rewrite Nat.add_0_r. cbn.
      repeat split; auto. lia. }
    assert (Hmore : forall lo' hi', ok c = true ->
              rep ok greedy lo' hi' (Some c) (S i) s k = Some r ->
              exists n p', S lo' <= n /\ n <= String.length (String c s) /\
                           all_chars ok (take n (String c s)) = true /\
                           k p' (i + n) (drop n (String c s)) = Some r).
    { intros lo' hi' Hc Hr. destruct (IH _ _ _ _ _ _ Hr) as (n & p' & Hlo & Hlen & Hall & Hk).
      exists (S n), p'. cbn. rewrite Hc, Hall.
      replace (i + S n) with (S i + n) by lia. repeat split; auto; lia. }
    destruct (more hi && ok c) eqn:E.
    + apply andb_true_iff in E as [_ Hc]. destruct lo as [|lo'].
      * destruct greedy.
        -- destruct (rep ok true 0 (less hi) (Some c) (S i) s k) eqn:Hr.
           ++ inversion H; subst.
              destruct (Hmore _ _ Hc Hr) as (n & p' & ? & ? & ? & ?).
              exists n, p'. repeat split; auto. lia.
           ++ eauto.
        -- destruct (k p i (String c s)) eqn:Hk.
           ++ inversion H; subst. eauto.
           ++ destruct (Hmore _ _ Hc H) as (n & p' & ? & ? & ? & ?).
              exists n, p'. repeat split; auto. lia.
      * eauto.
    + destruct lo; [eauto | discriminate].
Qed.

End Matcher.

Section MatchFacts.

Lemma run_lit (a : ascii) (st : state) (k : state -> option state) (r : state) :
  run no_flags (Chr (Lit a)) st k = Some r ->
  exists s', rest st = String a s' /\
             k (State (Some a) (S (pos st)) s' (groups st)) = Some r.
Proof.
  cbn [run]. destruct (rest st) as [|b s']; [discriminate|].
  cbn [cls_ok same_char no_flags ignorecase].
  destruct (Ascii.eqb_spec a b) as [->|_]; [|discriminate].
  intros H. now exists s'.
Qed.

(** Every match that [finditer] yields is the result of an attempt at
    some position of the text. *)
Lemma finditer_sound (fl : flags) (r : re) (s : string) :
  forall (skip : nat) (p : option ascii) (i : nat) (m : mtch),
    In m (finditer_go fl r skip p i s) ->
    exists before p' i' s', s = before ++ s' /\ match_at fl r p' i' s' = Some m.
Proof.
  induction s as [|c s IH]; intros skip p i m H.
  - destruct skip; cbn [finditer_go] in H; [|contradiction].
    destruct (match_at fl r p i "") as [m0|] eqn:E; [|contradiction].
    destruct H as [->|[]]. now exists "", p, i, "".
  - assert (Hlater : forall skip' p' i', In m (finditer_go fl r skip' p' i' s) ->
              exists before p' i' s', String c s = before ++ s' /\
                                      match_at fl r p' i' s' = Some m).
    { intros skip' p' i' Hin.
      destruct (IH _ _ _ _ Hin) as (before & p'' & i'' & s' & -> & Hm).
      now exists (String c before), p'', i'', s'. }
    destruct skip; cbn [finditer_go] in H; [|eauto].
    destruct (match_at fl r p i (String c s)) as [m0|] eqn:E; [|eauto].
    destruct H as [->|H]; [|eauto].
    now exists "", p, i, (String c s).
Qed.

Lemma backtick_match (p : option ascii) (i : nat) (s : string) (m : mtch) :
  match_at no_flags backtick_re p i s = Some m ->
  exists after, s = "`" ++ group 1 m ++ "`" ++ after.
Proof.
  unfold match_at, backtick_re. cbn [seq lit plus].
  destruct (run _ _ _ _) as [st|] eqn:H; [|discriminate].
  intros E. inversion E; subst m; clear E.
  cbn [run] in H. fold (run no_flags (Chr (Lit "`"))) in H.
  destruct s as [|a s]; cbn [rest] in H; [discriminate|].
  cbn [cls_ok same_char no_flags ignorecase] in H.
  destruct (Ascii.eqb_spec "`" a) as [<-|_]; [|discriminate].
  cbn [prev pos rest groups] in H.
  apply rep_sound in H as (n & p' & _ & _ & _ & H).
  cbn [run set_group prev pos rest groups cls_ok same_char no_flags ignorecase] in H.
  destruct (drop n s) as [|b s'] eqn:Hd; [discriminate|].
  destruct (Ascii.eqb_spec "`" b) as [<-|_]; [|discriminate].
  inversion H; subst st; clear H.
  exists s'. unfold group. cbn [m_groups groups assoc Nat.eqb].
  cbn [String.append]. f_equal.
  replace (i + n - i) with n by lia.
  rewrite <- Hd. now rewrite take_drop.
Qed.

Lemma bold_match (p : option ascii) (i : nat) (s : string) (m : mtch) :
  match_at no_flags bold_re p i s = Some m ->
  exists after, s = "**" ++ group 1 m ++ "**" ++ after.
Proof.
  unfold match_at, bold_re. cbn [seq lit plus].
  destruct (run _ _ _ _) as [st|] eqn:H; [|discriminate].
  intros E. inversion E; subst m; clear E.
  cbn [run] in H.
  destruct s as [|a s]; cbn [rest] in H; [discriminate|].
  cbn [cls_ok same_char no_flags ignorecase] in H.
  destruct (Ascii.eqb_spec "*" a) as [<-|_]; [|discriminate].
  cbn [prev pos rest groups] in H.
  destruct s as [|a s]; [discriminate|].
  destruct (Ascii.eqb_spec "*" a) as [<-|_]; [|discriminate].
  cbn [prev pos rest groups] in H.
  apply rep_sound in H as (n & p' & _ & _ & _ & H).
  cbn [run set_group prev pos rest groups cls_ok same_char no_flags ignorecase] in H.
  destruct (drop n s) as [|b s'] eqn:Hd; [discriminate|].
  destruct (Ascii.eqb_spec "*" b) as [<-|_]; [|discriminate].
  cbn [prev pos rest groups] in H.
  destruct s' as [|b s']; [discriminate|].
  destruct (Ascii.eqb_spec "*" b) as [<-|_]; [|discriminate].
  inversion H; subst st; clear H.
  exists s'. unfold group. cbn [m_groups groups assoc Nat.eqb].
  cbn [String.append]. do 2 f_equal.
  replace (i + n - i) with n by lia.
  rewrite <- Hd. now rewrite take_drop.
Qed.

End MatchFacts.

(** ** Concepts *)

Section Concepts.

Lemma In_firstn {A : Type} (n : nat) (l : list A) (x : A) :
  In x (List.firstn n l) -> In x l.
Proof.
  revert l. induction n as [|n IH]; intros [|a l] H; cbn in *; auto.
  - contradiction.
  - destruct H as [H|H]; auto.
Qed.

Lemma fold_union_elem (l : list string) :
  forall (s0 : gset string) (x : string),
    x ∈ fold_left (fun (s : gset string) t => s ∪ {[ t ]}) l s0 <-> x ∈ s0 \/ In x l.
Proof.
  induction l as [|t l IH]; intros s0 x; cbn [fold_left In].
  - tauto.
  - rewrite IH, elem_of_union, elem_of_singleton. intuition congruence.
Qed.

Lemma concept_set_elem (content x : string) :
  x ∈ concept_set content <->
  In x (backtick_terms content) \/ In x (bold_terms content).
Proof.
  unfold concept_set. rewrite !fold_union_elem.
  split; [intros [[H|H]|H]; auto; now apply not_elem_of_empty in H | tauto].
Qed.

Lemma finditer_groups (r : re) (content t : string) :
  In t (map (group 1) (finditer no_flags r content)) ->
  exists before p i s m,
    content = before ++ s /\ match_at no_flags r p i s = Some m /\ t = group 1 m.
Proof.
  intros H. apply in_map_iff in H as (m & <- & Hm).
  apply finditer_sound in Hm as (before & p & i & s & E & Hm).
  now exists before, p, i, s, m.
Qed.

Lemma backtick_terms_ok (content t : string) :
  In t (backtick_terms content) ->
  backtick_ok t = true /\ delimited "`" t content.
Proof.
  unfold backtick_terms. intros H. apply filter_In in H as [H Hok].
  split; [exact Hok|].
  apply finditer_groups in H as (before & p & i & s & m & -> & Hm & ->).
  apply backtick_match in Hm as [after ->]. now exists before, after.
Qed.

Lemma bold_terms_ok (content t : string) :
  In t (bold_terms content) ->
  bold_ok t = true /\ delimited "**" t content.
Proof.
  unfold bold_terms. intros H. apply filter_In in H as [H Hok].
  split; [exact Hok|].
  apply finditer_groups in H as (before & p & i & s & m & -> & Hm & ->).
  apply bold_match in Hm as [after ->]. now exists before, after.
Qed.

End Concepts.

(** C8: at most 20 concepts are returned, and each of them is a span of
    the body of 3 to 49 characters that stands between two backticks and
    does not begin with a slash, or between two bold markers. *)
Theorem extract_concepts_bounded (content : string) :
  length (extract_concepts content) <= 20 /\
  Forall (fun term =>
            3 <= String.length term <= 49 /\
            ((delimited "`" term content /\ startswith term "/" = false) \/
             delimited "**" term content))
         (extract_concepts content).
Proof.
  unfold extract_concepts. split.
  - apply firstn_le_length.
  - apply List.Forall_forall. intros term H.
    apply In_firstn in H. apply list_elem_of_In, elem_of_elements in H.
    apply concept_set_elem in H as [H|H].
    + apply backtick_terms_ok in H as [Hok Hd]. unfold backtick_ok in Hok.
      apply andb_true_iff in Hok as [Hok Hslash].
      apply andb_true_iff in Hok as [Hlo Hhi].
      apply Nat.ltb_lt in Hlo, Hhi. apply negb_true_iff in Hslash.
      split; [lia | left; now split].
    + apply bold_terms_ok in H as [Hok Hd]. unfold bold_ok in Hok.
      apply andb_true_iff in Hok as [Hlo Hhi].
      apply Nat.ltb_lt in Hlo, Hhi.
      split; [lia | now right].
Qed.

(** Twenty-one distinct terms give twenty concepts; a bold term may begin
    with a slash. *)
Example extract_concepts_examples :
  length (extract_concepts
    "`a01` `a02` `a03` `a04` `a05` `a06` `a07` `a08` `a09` `a10` `a11` `a12` `a13` `a14` `a15` `a16` `a17` `a18` `a19` `a20` `a21`") = 20 /\
  extract_concepts "`/etc/hosts` **/slash** `ab`" = ["/slash"].
Proof.
  vm_compute. split; reflexivity.
Qed.

(** ** Splitting and trimming *)

Section SplitStrip.

Lemma rev_onto_append (s acc : string) : rev_onto s acc = rev_onto s "" ++ acc.
Proof.
  revert acc. induction s as [|c s IH]; intros acc; cbn [rev_onto]; [reflexivity|].
  rewrite (IH (String c acc)), (IH (String c "")), append_assoc. reflexivity.
Qed.

Lemma rev_cons (c : ascii) (s : string) : rev (String c s) = rev s ++ String c "".
Proof. unfold rev. cbn [rev_onto]. apply rev_onto_append. Qed.

Lemma rev_append (a b : string) : rev (a ++ b) = rev b ++ rev a.
Proof.
  induction a as [|c a IH]; cbn [String.append].
  - now rewrite append_nil_r.
  - now rewrite !rev_cons, IH, append_assoc.
Qed.

Lemma rev_involutive (s : string) : rev (rev s) = s.
Proof.
  induction s as [|c s IH]; [reflexivity|].
  now rewrite rev_cons, rev_append, IH.
Qed.

Lemma rev_rev_onto (s acc : string) : rev (rev_onto s acc) = rev acc ++ s.
Proof.
  rewrite rev_onto_append, rev_append. fold (rev s). now rewrite rev_involutive.
Qed.

(** With no cut left the rest of the text is one piece. *)
Lemma split_go_no_cut (sep cur s : string) :
  split_go sep (Some 0) 0 cur s = [rev cur ++ s].
Proof.
  revert cur. induction s as [|c s IH]; intros cur; cbn [split_go may_cut andb].
  - now rewrite append_nil_r.
  - rewrite IH, rev_cons, append_assoc. reflexivity.
Qed.

Lemma split_go_colon (cur line : string) :
  contains ":" line = true ->
  split_go ":" (Some 1) 0 cur line
  = [rev cur ++ before_colon line; after_colon line].
Proof.
  revert cur. induction line as [|c s IH]; intros cur H; [discriminate|].
  cbn [contains startswith] in H.
  cbn [split_go may_cut andb startswith before_colon after_colon cut pred String.length].
  rewrite (Ascii.eqb_sym c ":"). destruct (Ascii.eqb ":" c).
  - now rewrite split_go_no_cut, append_nil_r.
  - rewrite (IH (String c cur) H), rev_cons, append_assoc. reflexivity.
Qed.

(** [line.split(":", 1)] of a line with a colon: the two parts. *)
Lemma split_colon_two (line : string) :
  contains ":" line = true ->
  split ":" (Some 1) line = [before_colon line; after_colon line].
Proof. intros H. unfold split. now rewrite split_go_colon. Qed.

Lemma colon_line_parts (line : string) :
  contains ":" line = true ->
  line = before_colon line ++ ":" ++ after_colon line /\
  contains ":" (before_colon line) = false.
Proof.
  induction line as [|c s IH]; intros H; [discriminate|].
  cbn [contains startswith] in H. cbn [before_colon after_colon].
  rewrite (Ascii.eqb_sym c ":"). destruct (Ascii.eqb_spec ":" c) as [<-|Hne].
  - split; reflexivity.
  - destruct (IH H) as [E Hb]. split.
    + cbn [String.append] in E |- *. now rewrite <- E.
    + cbn [contains startswith]. destruct (Ascii.eqb_spec ":" c); [contradiction|].
      exact Hb.
Qed.

Lemma lstrip_head (s : string) (c : ascii) (s' : string) :
  lstrip s = String c s' -> is_space c = false.
Proof.
  induction s as [|a s IH]; cbn [lstrip]; [discriminate|].
  destruct (is_space a) eqn:E; [exact IH|].
  intros H. inversion H; subst. exact E.
Qed.

Lemma lstrip_suffix (s : string) : exists w, s = w ++ lstrip s.
Proof.
  induction s as [|a s [w IH]]; cbn [lstrip]; [now exists ""|].
  destruct (is_space a).
  - exists (String a w). cbn [String.append]. now rewrite <- IH.
  - now exists "".
Qed.

Lemma rstrip_prefix (s : string) : exists w, s = rstrip s ++ w.
Proof.
  unfold rstrip. destruct (lstrip_suffix (rev s)) as [w E].
  exists (rev w). rewrite <- rev_append, <- E. now rewrite rev_involutive.
Qed.

Lemma strip_trimmed (s : string) : trimmed (strip s).
Proof.
  unfold trimmed, strip. split.
  - intros c s' E. destruct (rstrip_prefix (lstrip s)) as [w Hw].
    rewrite E in Hw. cbn [String.append] in Hw. now apply lstrip_head in Hw.
  - intros s' c E. unfold rstrip in E.
    apply (f_equal rev) in E. rewrite rev_involutive, rev_append in E.
    cbn in E. now apply lstrip_head in E.
Qed.

End SplitStrip.

(** ** The frontmatter mapping *)

Section Frontmatter.

Lemma add_line_colon (fm : gmap string string) (line : string) :
  contains ":" line = true -> add_line fm line = insert_entry fm line.
Proof.
  intros H. unfold add_line. now rewrite H, (split_colon_two line H).
Qed.

Lemma add_line_no_colon (fm : gmap string string) (line : string) :
  contains ":" line = false -> add_line fm line = fm.
Proof. intros H. unfold add_line. now rewrite H. Qed.

(** Only the lines with a colon count. *)
Lemma fold_add_line (lines : list string) :
  forall fm : gmap string string,
    fold_left add_line lines fm
    = fold_left insert_entry (List.filter (contains ":") lines) fm.
Proof.
  induction lines as [|l lines IH]; intros fm; [reflexivity|].
  cbn [fold_left List.filter]. destruct (contains ":" l) eqn:E.
  - cbn [fold_left]. now rewrite IH, add_line_colon.
  - now rewrite IH, add_line_no_colon.
Qed.

Lemma fold_insert_other (lines : list string) (key : string) :
  forall fm : gmap string string,
    Forall (fun l => entry_key l <> key) lines ->
    fold_left insert_entry lines fm !! key = fm !! key.
Proof.
  induction lines as [|l lines IH]; intros fm H; [reflexivity|].
  inversion H; subst. cbn [fold_left]. rewrite IH by assumption.
  unfold insert_entry. now rewrite lookup_insert_ne.
Qed.

Lemma fold_insert_origin (lines : list string) (key value : string) :
  forall fm : gmap string string,
    fold_left insert_entry lines fm !! key = Some value ->
    fm !! key = Some value \/
    exists line, In line lines /\ key = entry_key line /\ value = entry_value line.
Proof.
  induction lines as [|l lines IH]; intros fm H; [now left|].
  cbn [fold_left] in H. apply IH in H as [H | (line & Hin & Hk & Hv)].
  - unfold insert_entry in H.
    destruct (decide (entry_key l = key)) as [E|E].
    + rewrite <- E, lookup_insert_eq in H. inversion H.
      right. exists l. repeat split; auto. now left.
    + rewrite lookup_insert_ne in H by assumption. now left.
  - right. exists line. repeat split; auto. now right.
Qed.

Lemma fold_insert_size (lines : list string) :
  forall fm : gmap string string,
    NoDup (map entry_key lines) ->
    Forall (fun l => fm !! entry_key l = None) lines ->
    size (fold_left insert_entry lines fm) = size fm + length lines.
Proof.
  induction lines as [|l lines IH]; intros fm Hnd Hfree.
  - cbn. lia.
  - cbn [fold_left map length] in *. apply NoDup_cons in Hnd as [Hl Hnd].
    inversion Hfree as [|? ? Hl0 Hfree']; subst.
    rewrite IH; [| exact Hnd |].
    + unfold insert_entry. rewrite map_size_insert_None by exact Hl0. lia.
    + apply List.Forall_forall. intros l' Hin.
      unfold insert_entry. rewrite lookup_insert_ne.
      * rewrite List.Forall_forall in Hfree'. now apply Hfree'.
      * intros E. apply Hl. rewrite E. apply list_elem_of_In. now apply in_map.
Qed.

End Frontmatter.

Example parse_frontmatter_example :
  parse_frontmatter ("---" ++ NL ++ "title: Guide" ++ NL ++ "no colon here" ++ NL
                     ++ " owner : ops:core " ++ NL ++ "---" ++ NL ++ "# Guide")
  = ({[ "title" := "Guide"; "owner" := "ops:core" ]}, NL ++ "# Guide").
Proof.
  vm_compute. reflexivity.
Qed.

(** ** The graph writer: the reset undoes the writes *)

Section Reset.

Variable project : string.

Lemma fresh_above (g : graph) (n : node) : In n (nodes g) -> nid n < fresh g.
Proof.
  unfold fresh. induction (nodes g) as [|m ns IH]; intros H; [contradiction|].
  cbn [map fold_right]. destruct H as [->|H]; [lia|]. specialize (IH H). lia.
Qed.

Lemma fresh_app (ns ms : list node) :
  fresh (mkGraph ns []) <= fresh (mkGraph (ns ++ ms) []).
Proof.
  unfold fresh. cbn [nodes]. induction ns as [|n ns IH]; cbn [app map fold_right]; lia.
Qed.

Lemma fresh_nodes (g g' : graph) : nodes g = nodes g' -> fresh g = fresh g'.
Proof. unfold fresh. now intros ->. Qed.

Lemma fresh_extends (g g' : graph) : extends project g g' -> fresh g <= fresh g'.
Proof.
  intros (ns & rs & Hn & _). unfold fresh. rewrite Hn.
  apply (fresh_app (nodes g) ns).
Qed.

Lemma detach_delete_unlabelled (g : graph) : unlabelled project (detach_delete project g).
Proof.
  unfold unlabelled, detach_delete. cbn [nodes].
  apply List.Forall_forall. intros n H. apply filter_In in H as [_ H].
  now apply negb_true_iff in H.
Qed.

Lemma detach_delete_wf (g : graph) : wf_graph g -> wf_graph (detach_delete project g).
Proof.
  intros Hwf r Hr. unfold detach_delete in *. cbn [nodes rels] in *.
  apply list_elem_of_In, filter_In in Hr as [Hr Hkeep].
  apply andb_true_iff in Hkeep as [Hs Hd].
  apply negb_true_iff, bool_decide_eq_false in Hs, Hd.
  destruct (Hwf r) as [Hsrc Hdst]; [now apply list_elem_of_In|].
  assert (Hkept : forall i,
            i ∈ map nid (nodes g) ->
            i ∉ map nid (List.filter (has_label project) (nodes g)) ->
            i ∈ map nid (List.filter (fun n => negb (has_label project n)) (nodes g))).
  { intros i Hi Hdead. apply list_elem_of_In in Hi. apply list_elem_of_In.
    apply in_map_iff in Hi as (n & <- & Hn). apply in_map.
    apply filter_In. split; [exact Hn|]. apply negb_true_iff.
    destruct (has_label project n) eqn:E; [|reflexivity].
    exfalso. apply Hdead. apply list_elem_of_In, in_map, filter_In. now split. }
  split; now apply Hkept.
Qed.

(** The reset removes what an extension added, and nothing else. *)
Lemma detach_delete_extends (g g' : graph) :
  unlabelled project g -> wf_graph g -> extends project g g' ->
  detach_delete project g' = g.
Proof.
  intros Hun Hwf (ns & rs & Hn & Hr & Hns & Hrs).
  assert (Hold : List.filter (has_label project) (nodes g) = []).
  { clear -Hun. unfold unlabelled in Hun. induction Hun as [|n l Hn _ IH]; [reflexivity|].
    cbn [List.filter]. now rewrite Hn. }
  assert (Hold' : List.filter (fun n => negb (has_label project n)) (nodes g) = nodes g).
  { clear -Hun. unfold unlabelled in Hun. induction Hun as [|n l Hn _ IH]; [reflexivity|].
    cbn [List.filter]. now rewrite Hn, IH. }
  assert (Hnew : List.filter (has_label project) ns = ns).
  { clear -Hns. induction Hns as [|n l [Hn _] _ IH]; [reflexivity|].
    cbn [List.filter]. now rewrite Hn, IH. }
  assert (Hnew' : List.filter (fun n => negb (has_label project n)) ns = []).
  { clear -Hns. induction Hns as [|n l [Hn _] _ IH]; [reflexivity|].
    cbn [List.filter]. now rewrite Hn. }
  unfold detach_delete. rewrite Hn, Hr, !List.filter_app, Hold, Hold', Hnew, Hnew'.
  cbn [app]. rewrite app_nil_r.
  destruct g as [gn gr]. cbn [nodes rels] in *. f_equal.
  assert (Hfresh : forall i, i ∈ map nid gn -> i ∉ map nid ns).
  { intros i Hi Hi'. apply list_elem_of_In in Hi, Hi'.
    apply in_map_iff in Hi as (n & <- & Hin).
    apply in_map_iff in Hi' as (m & E & Him).
    rewrite List.Forall_forall in Hns. destruct (Hns m Him) as [_ Hge].
    pose proof (fresh_above (mkGraph gn gr) n Hin) as Hlt.
    unfold fresh in Hge, Hlt. cbn [nodes] in Hge, Hlt. lia. }
  assert (Hkeep : List.filter
            (fun r => negb (bool_decide (src r ∈ map nid ns))
                      && negb (bool_decide (dst r ∈ map nid ns))) gr = gr).
  { assert (Hall : forall r, In r gr -> src r ∈ map nid gn /\ dst r ∈ map nid gn).
    { intros r Hin. apply Hwf. now apply list_elem_of_In. }
    clear -Hall Hfresh. induction gr as [|r gr IH]; [reflexivity|].
    cbn [List.filter]. destruct (Hall r (or_introl eq_refl)) as [Hs Hd].
    rewrite !bool_decide_eq_false_2 by now apply Hfresh.
    cbn [negb andb]. rewrite IH; [reflexivity|]. intros r' Hr'. apply Hall. now right. }
  assert (Hdrop : List.filter
            (fun r => negb (bool_decide (src r ∈ map nid ns))
                      && negb (bool_decide (dst r ∈ map nid ns))) rs = []).
  { clear -Hrs. induction Hrs as [|r l Hr _ IH]; [reflexivity|].
    cbn [List.filter]. rewrite bool_decide_eq_true_2 by now apply list_elem_of_In.
    cbn [negb andb]. exact IH. }
  now rewrite Hkeep, Hdrop, app_nil_r.
Qed.

End Reset.

(** ** The graph writer: every write extends the store after the reset *)

Section Writes.

Variable project : string.
Variable g : graph.
Hypothesis g_unlabelled : unlabelled project g.

Lemma extends_refl : extends project g g.
Proof.
  exists [], []. rewrite !app_nil_r. repeat split; constructor.
Qed.

Lemma fold_extends {A : Type} (f : graph -> A -> graph) (l : list A) :
  (forall g' x, extends project g g' -> extends project g (f g' x)) ->
  forall g', extends project g g' -> extends project g (fold_left f l g').
Proof.
  intros Hf. induction l as [|x l IH]; intros g' H; cbn [fold_left]; auto.
Qed.

Lemma extends_create_node (ls : list string) (ps : list (string * value)) (g' : graph) :
  In project ls ->
  extends project g g' -> extends project g (create_node ls ps g').
Proof.
  intros Hl H. pose proof (fresh_extends project g g' H) as Hfresh.
  destruct H as (ns & rs & Hn & Hr & Hns & Hrs).
  exists (ns ++ [mkNode (fresh g') ls ps])%list, rs. unfold create_node. cbn [nodes rels].
  rewrite Hn, app_assoc. repeat split; auto.
  - apply Forall_app. split; [exact Hns|]. constructor; [|constructor].
    cbn [nid]. split; [|exact Hfresh].
    unfold has_label. cbn [labels]. apply bool_decide_eq_true_2.
    now apply list_elem_of_In.
  - eapply List.Forall_impl; [|exact Hrs]. intros r Hin. cbn beta in *.
    rewrite map_app. apply in_app_iff. now left.
Qed.

Lemma merge_rel_nodes (t : string) (a b : node) (g' : graph) :
  nodes (merge_rel t a b g') = nodes g'.
Proof. unfold merge_rel. now destruct (bool_decide _). Qed.

Lemma extends_merge_rel (t : string) (a b : node) (g' : graph) :
  In a (nodes g') -> has_label project a = true ->
  extends project g g' -> extends project g (merge_rel t a b g').
Proof.
  intros Ha Hl (ns & rs & Hn & Hr & Hns & Hrs).
  unfold merge_rel. destruct (bool_decide _); [now exists ns, rs|].
  exists ns, (rs ++ [mkRel (nid a) t (nid b)])%list. cbn [nodes rels].
  rewrite Hr, app_assoc. repeat split; auto.
  apply Forall_app. split; [exact Hrs|]. constructor; [|constructor].
  cbn [src]. apply in_map. rewrite Hn in Ha. apply in_app_iff in Ha as [Ha|Ha]; [|exact Ha].
  unfold unlabelled in g_unlabelled. rewrite List.Forall_forall in g_unlabelled.
  rewrite (g_unlabelled a Ha) in Hl. discriminate.
Qed.

Lemma match_nodes_owned (ls : list string) (key v : string) (g' : graph) (n : node) :
  In n (match_nodes (project :: ls) key v g') ->
  In n (nodes g') /\ has_label project n = true.
Proof.
  unfold match_nodes, matches. intros H. apply filter_In in H as [Hin H].
  split; [exact Hin|]. apply andb_true_iff in H as [H _].
  cbn [forallb] in H. now apply andb_true_iff in H as [H _].
Qed.

(** [MERGE (a)-[:T]->(b)] over rows whose first node has the label. *)
Lemma extends_merge_from (t : string) (b : node) (froms : list node) :
  forall g',
    (forall a, In a froms -> In a (nodes g') /\ has_label project a = true) ->
    extends project g g' ->
    extends project g (fold_left (fun g0 a => merge_rel t a b g0) froms g').
Proof.
  induction froms as [|a froms IH]; intros g' Hall H; [exact H|].
  cbn [fold_left]. apply IH.
  - intros a' Ha'. rewrite merge_rel_nodes. apply Hall. now right.
  - destruct (Hall a (or_introl eq_refl)). now apply extends_merge_rel.
Qed.

Lemma extends_merge_to (t : string) (a : node) (tos : list node) :
  forall g',
    In a (nodes g') -> has_label project a = true ->
    extends project g g' ->
    extends project g (fold_left (fun g0 b => merge_rel t a b g0) tos g').
Proof.
  induction tos as [|b tos IH]; intros g' Ha Hl H; [exact H|].
  cbn [fold_left]. apply IH; [now rewrite merge_rel_nodes | exact Hl |].
  now apply extends_merge_rel.
Qed.

Lemma fold_merge_to_nodes (t : string) (a : node) (tos : list node) :
  forall g', nodes (fold_left (fun g0 b => merge_rel t a b g0) tos g') = nodes g'.
Proof.
  induction tos as [|b tos IH]; intros g'; [reflexivity|].
  cbn [fold_left]. now rewrite IH, merge_rel_nodes.
Qed.

Lemma extends_merge_rels (t : string) (froms tos : list node) :
  forall g',
    (forall a, In a froms -> In a (nodes g') /\ has_label project a = true) ->
    extends project g g' ->
    extends project g (merge_rels t froms tos g').
Proof.
  unfold merge_rels. induction froms as [|a froms IH]; intros g' Hall H; [exact H|].
  cbn [fold_left]. destruct (Hall a (or_introl eq_refl)) as [Ha Hl]. apply IH.
  - intros a' Ha'. rewrite fold_merge_to_nodes. apply Hall. now right.
  - now apply extends_merge_to.
Qed.

Lemma extends_run_query (q : query) (g' : graph) :
  match q with
  | DetachDelete _ => False
  | Create ls _ => In project ls
  | MergeLinked p _ _ _ _ => p = project
  | LinkDocuments p _ _ => p = project
  end ->
  extends project g g' -> extends project g (run_query g' q).
Proof.
  destruct q as [p | ls ps | p kind t name path | p from_path to_path];
    cbn [run_query]; intros Hq H.
  - contradiction.
  - now apply extends_create_node.
  - subst p. unfold merge_node.
    assert (Hrows : forall (cs : list node) g1,
              extends project g g1 ->
              extends project g
                (fold_left
                   (fun g0 c =>
                      fold_left (fun g2 d => merge_rel t d c g2)
                                (match_nodes [project; "Document"] "path" path g0) g0)
                   cs g1)).
    { induction cs as [|c cs IH]; intros g1 H1; [exact H1|].
      cbn [fold_left]. apply IH. apply extends_merge_from; [|exact H1].
      intros a Ha. now apply match_nodes_owned in Ha. }
    destruct (match_nodes [project; kind] "name" name g') as [|c cs] eqn:E.
    + apply Hrows. apply extends_create_node; [now left | exact H].
    + now apply Hrows.
  - subst p. apply extends_merge_rels; [|exact H].
    intros a Ha. now apply match_nodes_owned in Ha.
Qed.

Lemma extends_write_all (docs : list Document) (decisions : list Decision) :
  extends project g (write_all project docs decisions g).
Proof.
  unfold write_all. apply fold_extends.
  { intros g' doc H. unfold write_references. apply fold_extends; [|exact H].
    intros g1 ref H1. now apply extends_run_query. }
  apply fold_extends.
  { intros g' dec H. unfold write_decision. apply extends_run_query; [now left | exact H]. }
  apply fold_extends; [|apply extends_refl].
  intros g' doc H. unfold write_document.
  apply fold_extends. { intros g1 c H1. now apply extends_run_query. }
  apply fold_extends. { intros g1 c H1. now apply extends_run_query. }
  apply extends_run_query; [now left | exact H].
Qed.

End Writes.

(** C2: written twice in succession with the same label, Documents and
    Decisions, the store is the one that the first run left: the same
    nodes and relationships, hence the same counts and the same summary. *)
Theorem create_graph_twice (project : string) (docs : list Document)
        (decisions : list Decision) (g : graph) :
  wf_graph g ->
  let once := create_graph project docs decisions g in
  let twice := create_graph project docs decisions once in
  twice = once /\
  node_count twice = node_count once /\
  rel_count twice = rel_count once /\
  summary project twice = summary project once.
Proof.
  intros Hwf once twice.
  assert (E : twice = once).
  { subst once twice. unfold create_graph. cbn [run_query].
    rewrite (detach_delete_extends project (detach_delete project g)); [reflexivity | | |].
    - apply detach_delete_unlabelled.
    - now apply detach_delete_wf.
    - apply extends_write_all. apply detach_delete_unlabelled. }
  rewrite E. repeat split; reflexivity.
Qed.

Lemma create_graph_twice_witness :
  let project := "TradingEngine" in
  let docs :=
    [mkDocument "a.md" "A" "other" ["A"] "text" ∅ ["b.md"; "missing.md"]
                ["Keystore"] ["risk"];
     mkDocument "b.md" "B" "other" [] "" ∅ ["a.md"] ["Keystore"; "Jupiter"] []] in
  let decisions := [mkDecision "001" "Use it" "accepted" "b.md" "" "" ""] in
  let g := mkGraph [mkNode 0 ["Person"] []; mkNode 4 ["TradingEngine"; "Document"] []]
                   [mkRel 0 "OWNS" 4; mkRel 0 "KNOWS" 0] in
  let once := create_graph project docs decisions g in
  let twice := create_graph project docs decisions once in
  twice = once /\
  node_count twice = node_count once /\
  rel_count twice = rel_count once /\
  summary project twice = summary project once.
Proof.
  intros project docs decisions g.
  apply (create_graph_twice project docs decisions g).
  intros r Hr. vm_compute in Hr.
  apply elem_of_cons in Hr as [->|Hr]; [vm_compute; split; constructor; constructor|].
  apply elem_of_cons in Hr as [->|Hr]; [vm_compute; split; constructor|].
  inversion Hr.
Defined.

(** The counts of the example: one foreign node and its loop are kept. *)
Example create_graph_counts :
  let g := mkGraph [mkNode 0 ["Person"] []; mkNode 4 ["TradingEngine"; "Document"] []]
                   [mkRel 0 "OWNS" 4; mkRel 0 "KNOWS" 0] in
  let docs :=
    [mkDocument "a.md" "A" "other" ["A"] "text" ∅ ["b.md"; "missing.md"]
                ["Keystore"] ["risk"];
     mkDocument "b.md" "B" "other" [] "" ∅ ["a.md"] ["Keystore"; "Jupiter"] []] in
  let once := create_graph "TradingEngine" docs [] g in
  node_count once = 6 /\ rel_count once = 7.
Proof.
  vm_compute. split; reflexivity.
Qed.

(** ** The graph writer: what the statements after the reset preserve *)

Section Preserved.

Variable project : string.
Variable P : graph -> Prop.

Lemma fold_preserved {A : Type} (f : graph -> A -> graph) (l : list A) :
  (forall g x, P g -> P (f g x)) ->
  forall g, P g -> P (fold_left f l g).
Proof.
  intros Hf. induction l as [|x l IH]; intros g H; cbn [fold_left]; auto.
Qed.

Lemma fold_preserved_in {A : Type} (f : graph -> A -> graph) (l : list A) :
  (forall g x, In x l -> P g -> P (f g x)) ->
  forall g, P g -> P (fold_left f l g).
Proof.
  induction l as [|x l IH]; intros Hf g H; cbn [fold_left]; [exact H|].
  apply IH.
  - intros g0 y Hy. apply Hf. now right.
  - apply Hf; [now left | exact H].
Qed.

Hypothesis P_merge_rel : forall t a b g, P g -> P (merge_rel t a b g).

Lemma preserved_merge_rels (t : string) (froms tos : list node) (g : graph) :
  P g -> P (merge_rels t froms tos g).
Proof.
  unfold merge_rels. apply fold_preserved. intros g0 a H.
  apply fold_preserved; [|exact H]. intros g1 b H1. now apply P_merge_rel.
Qed.

Lemma preserved_link_documents (from_path to_path : string) (g : graph) :
  P g -> P (run_query g (LinkDocuments project from_path to_path)).
Proof. cbn [run_query]. apply preserved_merge_rels. Qed.

Lemma preserved_write_references (g : graph) (doc : Document) :
  P g -> P (write_references project g doc).
Proof.
  unfold write_references. apply fold_preserved.
  intros g0 ref. apply preserved_link_documents.
Qed.

Hypothesis P_create_named :
  forall kind name g,
    kind <> "Document" ->
    P g -> P (create_node [project; kind] [("name", VStr name)] g).

Lemma preserved_merge_linked (kind t name path : string) (g : graph) :
  kind <> "Document" ->
  P g -> P (run_query g (MergeLinked project kind t name path)).
Proof.
  intros Hk H. cbn [run_query]. unfold merge_node.
  assert (Hrows : forall (cs : list node) g1,
            P g1 ->
            P (fold_left
                 (fun g0 c =>
                    fold_left (fun g2 d => merge_rel t d c g2)
                              (match_nodes [project; "Document"] "path" path g0) g0)
                 cs g1)).
  { intros cs. apply fold_preserved. intros g0 c H0.
    apply fold_preserved; [|exact H0]. intros g1 d H1. now apply P_merge_rel. }
  destruct (match_nodes [project; kind] "name" name g) as [|c cs].
  - apply Hrows. now apply P_create_named.
  - now apply Hrows.
Qed.

(** The links of a Document to its components and concepts. *)
Lemma preserved_links (doc : Document) (g : graph) :
  P g ->
  P (fold_left
       (fun g0 concept =>
          run_query g0 (MergeLinked project "Concept" "MENTIONS" concept (path doc)))
       (List.firstn 10 (concepts doc))
       (fold_left
          (fun g0 comp =>
             run_query g0 (MergeLinked project "Component" "DESCRIBES" comp (path doc)))
          (components doc) g)).
Proof.
  intros H. apply fold_preserved.
  { intros g0 c. now apply preserved_merge_linked. }
  apply fold_preserved; [|exact H].
  intros g0 c. now apply preserved_merge_linked.
Qed.

Variable docs : list Document.
Variable decisions : list Decision.

Hypothesis P_create_decision :
  forall dec g,
    In dec decisions ->
    P g -> P (create_node [project; "Decision"] (decision_props dec) g).

Hypothesis P_create_document :
  forall doc g,
    In doc docs ->
    P g -> P (create_node [project; "Document"] (document_props doc) g).

Lemma preserved_write_decision (g : graph) (dec : Decision) :
  In dec decisions -> P g -> P (write_decision project g dec).
Proof.
  intros Hin H. unfold write_decision. cbn [run_query]. now apply P_create_decision.
Qed.

Lemma preserved_write_document (g : graph) (doc : Document) :
  In doc docs -> P g -> P (write_document project g doc).
Proof.
  intros Hin H. unfold write_document. apply preserved_links.
  cbn [run_query]. now apply P_create_document.
Qed.

Lemma preserved_write_all (g : graph) :
  P g -> P (write_all project docs decisions g).
Proof.
  intros H. unfold write_all.
  apply fold_preserved; [intros; now apply preserved_write_references|].
  apply fold_preserved_in; [intros; now apply preserved_write_decision|].
  apply fold_preserved_in; [intros; now apply preserved_write_document|].
  exact H.
Qed.

End Preserved.

(** ** The graph writer: one node for every Document *)

Section DocumentNodes.

Variable project : string.

Lemma doc_paths_merge_rel (t : string) (a b : node) (g : graph) :
  doc_paths project (merge_rel t a b g) = doc_paths project g.
Proof. unfold doc_paths. now rewrite merge_rel_nodes. Qed.

Lemma doc_paths_create (ls : list string) (ps : list (string * value)) (g : graph) :
  doc_paths project (create_node ls ps g)
  = (doc_paths project g
       ++ if bool_decide (ls = [project; "Document"]) then [prop "path" ps] else [])%list.
Proof.
  unfold doc_paths, create_node. cbn [nodes].
  rewrite List.filter_app, map_app. f_equal.
  cbn [List.filter]. unfold is_document at 1. cbn [labels].
  now destruct (bool_decide _).
Qed.

Lemma doc_paths_create_other (kind : string) (ps : list (string * value)) (g : graph) :
  kind <> "Document" ->
  doc_paths project (create_node [project; kind] ps g) = doc_paths project g.
Proof.
  intros Hk. rewrite doc_paths_create, bool_decide_eq_false_2, app_nil_r; [reflexivity|].
  intros E. inversion E. contradiction.
Qed.

Lemma doc_paths_write_document (g : graph) (doc : Document) :
  doc_paths project (write_document project g doc)
  = (doc_paths project g ++ [Some (VStr (path doc))])%list.
Proof.
  unfold write_document.
  apply (preserved_links project
           (fun g' => doc_paths project g'
                      = (doc_paths project g ++ [Some (VStr (path doc))])%list)).
  - intros t a b g' H. now rewrite doc_paths_merge_rel.
  - intros kind ps g' Hk H. now rewrite doc_paths_create_other.
  - cbn [run_query]. rewrite doc_paths_create, bool_decide_eq_true_2 by reflexivity.
    reflexivity.
Qed.

Lemma doc_paths_documents (docs : list Document) :
  forall g,
    doc_paths project (fold_left (write_document project) docs g)
    = (doc_paths project g ++ map (fun d => Some (VStr (path d))) docs)%list.
Proof.
  induction docs as [|doc docs IH]; intros g; cbn [fold_left map].
  - now rewrite app_nil_r.
  - now rewrite IH, doc_paths_write_document, <- app_assoc.
Qed.

Lemma doc_paths_unlabelled (g : graph) :
  unlabelled project g -> doc_paths project g = [].
Proof.
  unfold unlabelled, doc_paths. intros H.
  induction H as [|n ns Hn _ IH]; [reflexivity|].
  cbn [List.filter]. unfold is_document at 1.
  rewrite bool_decide_eq_false_2; [exact IH|].
  intros E. unfold has_label in Hn. rewrite E in Hn.
  apply bool_decide_eq_false in Hn. apply Hn. now left.
Qed.

Lemma doc_paths_write_all (docs : list Document) (decisions : list Decision)
      (g : graph) :
  unlabelled project g ->
  doc_paths project (write_all project docs decisions g)
  = map (fun d => Some (VStr (path d))) docs.
Proof.
  intros Hun. unfold write_all.
  apply (fold_preserved
           (fun g' => doc_paths project g' = map (fun d => Some (VStr (path d))) docs)).
  { intros g' doc H. apply (preserved_write_references project); [|exact H].
    intros t a b g0 H0. now rewrite doc_paths_merge_rel. }
  apply (fold_preserved
           (fun g' => doc_paths project g' = map (fun d => Some (VStr (path d))) docs)).
  { intros g' dec H. unfold write_decision. cbn [run_query].
    now rewrite doc_paths_create_other. }
  now rewrite doc_paths_documents, doc_paths_unlabelled.
Qed.

Lemma filter_none (ns : list node) (v : option value) :
  ~ In v (map path_of ns) ->
  List.filter (fun n => bool_decide (path_of n = v)) ns = [].
Proof.
  induction ns as [|n ns IH]; intros H; [reflexivity|].
  cbn [List.filter map In] in *.
  rewrite bool_decide_eq_false_2 by (intros E; apply H; now left).
  apply IH. intros Hin. apply H. now right.
Qed.

Lemma filter_unique (ns : list node) (v : option value) :
  List.NoDup (map path_of ns) -> In v (map path_of ns) ->
  exists a, List.filter (fun n => bool_decide (path_of n = v)) ns = [a].
Proof.
  induction ns as [|n ns IH]; intros Hnd Hin; [contradiction|].
  cbn [map] in Hnd. inversion Hnd as [|? ? Hfirst Hrest]; subst.
  cbn [List.filter]. destruct (decide (path_of n = v)) as [E|E].
  - rewrite bool_decide_eq_true_2 by exact E. exists n.
    rewrite filter_none; [reflexivity|]. now rewrite <- E.
  - rewrite bool_decide_eq_false_2 by exact E. apply IH; [exact Hrest|].
    destruct Hin as [Hin|Hin]; [contradiction | exact Hin].
Qed.

Lemma filter_and {A : Type} (f h : A -> bool) (l : list A) :
  List.filter (fun x => f x && h x) l = List.filter h (List.filter f l).
Proof.
  induction l as [|x l IH]; [reflexivity|].
  cbn [List.filter]. destruct (f x); cbn [andb List.filter]; [|exact IH].
  destruct (h x); now rewrite IH.
Qed.

(** After the writes every Document of a corpus with distinct paths has
    exactly one node. *)
Lemma document_node_unique (docs : list Document) (decisions : list Decision)
      (g : graph) (doc : Document) :
  unlabelled project g ->
  List.NoDup (map path docs) -> In doc docs ->
  exists a, document_nodes project (path doc) (write_all project docs decisions g) = [a].
Proof.
  intros Hun Hnd Hin. unfold document_nodes. rewrite filter_and.
  apply filter_unique.
  - fold (doc_paths project (write_all project docs decisions g)).
    rewrite doc_paths_write_all by exact Hun.
    rewrite <- (map_map path (fun p => Some (VStr p))).
    apply NoDup_map_NoDup_ForallPairs; [|exact Hnd].
    intros x y _ _ E. now inversion E.
  - fold (doc_paths project (write_all project docs decisions g)).
    rewrite doc_paths_write_all by exact Hun.
    apply in_map_iff. now exists doc.
Qed.

End DocumentNodes.

(** ** The graph writer: references *)

Section ReferenceLinks.

Variable project : string.

Lemma count_rels_In (t : string) (a b : node) (g : graph) :
  In (mkRel (nid a) t (nid b)) (rels g) -> 1 <= count_rels t a b g.
Proof.
  unfold count_rels. induction (rels g) as [|r rs IH]; intros H; [contradiction|].
  cbn [List.filter]. destruct H as [->|H].
  - rewrite bool_decide_eq_true_2 by reflexivity. cbn [length]. lia.
  - specialize (IH H). destruct (bool_decide _); cbn [length]; lia.
Qed.

Lemma count_rels_zero (t : string) (a b : node) (g : graph) :
  ~ In (mkRel (nid a) t (nid b)) (rels g) -> count_rels t a b g = 0.
Proof.
  unfold count_rels. induction (rels g) as [|r rs IH]; intros H; [reflexivity|].
  cbn [List.filter]. rewrite bool_decide_eq_false_2.
  - apply IH. intros Hin. apply H. now right.
  - intros ->. apply H. now left.
Qed.

Lemma count_rels_merge_rel (t : string) (a b : node) (t' : string) (a' b' : node)
      (g : graph) :
  count_rels t a b g <= 1 -> count_rels t a b (merge_rel t' a' b' g) <= 1.
Proof.
  intros H. unfold merge_rel.
  destruct (bool_decide (mkRel (nid a') t' (nid b') ∈ rels g)) eqn:E; [exact H|].
  apply bool_decide_eq_false in E.
  unfold count_rels in *. cbn [rels]. rewrite List.filter_app, length_app.
  cbn [List.filter].
  destruct (decide (mkRel (nid a') t' (nid b') = mkRel (nid a) t (nid b))) as [Er|Er].
  - rewrite bool_decide_eq_true_2 by exact Er. rewrite Er in E.
    pose proof (count_rels_zero t a b g) as Hz. unfold count_rels in Hz.
    rewrite Hz; [cbn [length]; lia|]. intros Hin. apply E. now apply list_elem_of_In.
  - rewrite bool_decide_eq_false_2 by exact Er. cbn [length]. lia.
Qed.

Lemma In_rels_merge_rel (r : rel) (t : string) (a b : node) (g : graph) :
  In r (rels g) -> In r (rels (merge_rel t a b g)).
Proof.
  intros H. unfold merge_rel. destruct (bool_decide _); [exact H|].
  cbn [rels]. apply in_app_iff. now left.
Qed.

Lemma merge_rel_adds (t : string) (a b : node) (g : graph) :
  In (mkRel (nid a) t (nid b)) (rels (merge_rel t a b g)).
Proof.
  unfold merge_rel. destruct (bool_decide _) eqn:E.
  - apply bool_decide_eq_true in E. now apply list_elem_of_In.
  - cbn [rels]. apply in_app_iff. right. now left.
Qed.

(** A fold reaches [P] at the element [x] and keeps it; [Q] holds all along. *)
Lemma fold_reaches {A : Type} (P Q : graph -> Prop) (f : graph -> A -> graph)
      (x : A) (l : list A) :
  In x l ->
  (forall g, Q g -> P (f g x)) ->
  (forall g y, P g -> P (f g y)) ->
  (forall g y, Q g -> Q (f g y)) ->
  forall g, Q g -> P (fold_left f l g).
Proof.
  intros Hin Hx HP HQ. induction l as [|y l IH]; intros g Hg; [contradiction|].
  cbn [fold_left]. destruct Hin as [->|Hin].
  - apply (fold_preserved P); [exact HP|]. now apply Hx.
  - apply IH; [exact Hin|]. now apply HQ.
Qed.

Lemma merge_rels_adds (t : string) (froms tos : list node) (a b : node) (g : graph) :
  In a froms -> In b tos ->
  In (mkRel (nid a) t (nid b)) (rels (merge_rels t froms tos g)).
Proof.
  intros Ha Hb. unfold merge_rels.
  apply (fold_reaches (fun g' => In (mkRel (nid a) t (nid b)) (rels g'))
                      (fun _ => True) _ a); auto.
  - intros g0 _.
    apply (fold_reaches (fun g' => In (mkRel (nid a) t (nid b)) (rels g'))
                        (fun _ => True) _ b); auto.
    + intros g1 _. apply merge_rel_adds.
    + intros g1 y H. now apply In_rels_merge_rel.
  - intros g0 y H. apply (fold_preserved (fun g' => In (mkRel (nid a) t (nid b)) (rels g'))); auto.
    intros g1 z H1. now apply In_rels_merge_rel.
Qed.

Lemma merge_rels_nodes (t : string) (froms tos : list node) (g : graph) :
  nodes (merge_rels t froms tos g) = nodes g.
Proof.
  unfold merge_rels. revert g. induction froms as [|a froms IH]; intros g; [reflexivity|].
  cbn [fold_left]. now rewrite IH, fold_merge_to_nodes.
Qed.

Lemma write_references_nodes (doc : Document) (g : graph) :
  nodes (write_references project g doc) = nodes g.
Proof.
  unfold write_references. revert g.
  induction (references doc) as [|ref refs IH]; intros g; [reflexivity|].
  cbn [fold_left run_query]. now rewrite IH, merge_rels_nodes.
Qed.

(** A reference to a path that no Document node carries changes nothing. *)
Lemma dangling_reference (from_path ref : string) (g : graph) :
  match_nodes [project; "Document"] "path" ref g = [] ->
  run_query g (LinkDocuments project from_path ref) = g.
Proof.
  intros H. cbn [run_query]. rewrite H. unfold merge_rels.
  induction (match_nodes [project; "Document"] "path" from_path g) as [|a froms IH];
    [reflexivity | exact IH].
Qed.

End ReferenceLinks.

Section ReferenceTheorem.

Variable project : string.

Lemma match_nodes_same_nodes (ls : list string) (key v : string) (g g' : graph) :
  nodes g = nodes g' -> match_nodes ls key v g = match_nodes ls key v g'.
Proof. unfold match_nodes. now intros ->. Qed.

Lemma fold_write_references_nodes (docs : list Document) (g : graph) :
  nodes (fold_left (write_references project) docs g) = nodes g.
Proof.
  revert g. induction docs as [|doc docs IH]; intros g; [reflexivity|].
  cbn [fold_left]. now rewrite IH, write_references_nodes.
Qed.

Lemma document_node_matches (p : string) (g : graph) (a : node) :
  In a (document_nodes project p g) ->
  In a (match_nodes [project; "Document"] "path" p g).
Proof.
  unfold document_nodes, match_nodes, matches, is_document, path_of.
  intros H. apply filter_In in H as [Hin H]. apply filter_In. split; [exact Hin|].
  apply andb_true_iff in H as [Hl Hp]. apply bool_decide_eq_true in Hl.
  rewrite Hp, andb_true_r. unfold has_label. rewrite Hl. cbn [forallb].
  rewrite !bool_decide_eq_true_2; [reflexivity | |].
  - apply list_elem_of_In. right. now left.
  - apply list_elem_of_In. now left.
Qed.

(** The reference phase links the nodes of [A] and of the Document that a
    reference of [A] names. *)
Lemma reference_written (docs : list Document) (A : Document) (ref : string)
      (a b : node) (g2 : graph) :
  In A docs -> In ref (references A) ->
  In a (match_nodes [project; "Document"] "path" (path A) g2) ->
  In b (match_nodes [project; "Document"] "path" ref g2) ->
  In (mkRel (nid a) "REFERENCES" (nid b))
     (rels (fold_left (write_references project) docs g2)).
Proof.
  intros HA Href Ha Hb.
  set (P := fun g' : graph => In (mkRel (nid a) "REFERENCES" (nid b)) (rels g')).
  set (Q := fun g' : graph => nodes g' = nodes g2).
  assert (HPm : forall t x y g', P g' -> P (merge_rel t x y g')).
  { intros t x y g' H. now apply In_rels_merge_rel. }
  apply (fold_reaches P Q _ A); auto.
  - intros g' Hg'. unfold write_references.
    apply (fold_reaches P Q _ ref); auto.
    + intros g1 Hg1. cbn [run_query]. apply merge_rels_adds.
      * now rewrite (match_nodes_same_nodes _ _ _ g1 g2 Hg1).
      * now rewrite (match_nodes_same_nodes _ _ _ g1 g2 Hg1).
    + intros g1 y H. now apply (preserved_link_documents project P HPm).
    + intros g1 y Hg1. unfold Q in *. cbn [run_query]. now rewrite merge_rels_nodes.
  - intros g' y H. now apply (preserved_write_references project P HPm).
  - intros g' y Hg'. unfold Q in *. now rewrite write_references_nodes.
  - reflexivity.
Qed.

(** A relationship between nodes written after the reset is there at most
    once. *)
Lemma written_at_most_once (docs : list Document) (decisions : list Decision)
      (g : graph) (t : string) (a b : node) :
  wf_graph g -> fresh g <= nid a ->
  count_rels t a b (write_all project docs decisions g) <= 1.
Proof.
  intros Hwf Hfresh.
  apply (preserved_write_all project (fun g' => count_rels t a b g' <= 1)).
  - intros t' a' b' g' H. now apply count_rels_merge_rel.
  - intros kind name g' _ H. exact H.
  - intros dec g' _ H. exact H.
  - intros doc g' _ H. exact H.
  - rewrite count_rels_zero; [lia|]. intros Hin.
    destruct (Hwf _ (proj2 (list_elem_of_In _ _) Hin)) as [Hsrc _].
    cbn [src] in Hsrc. apply list_elem_of_In, in_map_iff in Hsrc as (n & E & Hn).
    pose proof (fresh_above g n Hn). lia.
Qed.

End ReferenceTheorem.

Section Dangling.

Variable project : string.
Variable ref : string.

Lemma unmatched_create (ls : list string) (ps : list (string * value)) (g : graph) :
  matches [project; "Document"] "path" ref (mkNode (fresh g) ls ps) = false ->
  unmatched project ref g -> unmatched project ref (create_node ls ps g).
Proof.
  unfold unmatched, match_nodes, create_node. cbn [nodes]. intros Hm H.
  rewrite List.filter_app, H. cbn [List.filter app]. now rewrite Hm.
Qed.

Lemma unmatched_unlabelled (g : graph) :
  unlabelled project g -> unmatched project ref g.
Proof.
  unfold unlabelled, unmatched, match_nodes. intros H.
  induction H as [|n ns Hn _ IH]; [reflexivity|].
  cbn [List.filter]. unfold matches at 1. cbn [forallb]. now rewrite Hn.
Qed.

(** A path that is no Document's, and no Decision's when the label of the
    project is "Document" itself, is the path of no node that the pattern
    of a reference matches. *)
Lemma unmatched_write_all (docs : list Document) (decisions : list Decision)
      (g : graph) :
  unlabelled project g ->
  ~ In ref (map path docs) ->
  project <> "Document" \/ ~ In ref (map dec_path decisions) ->
  unmatched project ref (write_all project docs decisions g).
Proof.
  intros Hun Hdocs Hdecs.
  apply (preserved_write_all project (unmatched project ref)).
  - intros t a b g' H. unfold unmatched in *.
    now rewrite (match_nodes_same_nodes _ _ _ _ g' (merge_rel_nodes t a b g')).
  - intros kind name g' _ H. apply unmatched_create; [|exact H].
    unfold matches. cbn [props prop String.eqb Ascii.eqb Bool.eqb].
    rewrite bool_decide_eq_false_2 by discriminate. apply andb_false_r.
  - intros dec g' Hin H. apply unmatched_create; [|exact H].
    unfold matches, has_label. cbn [labels props forallb].
    destruct Hdecs as [Hp|Hd].
    + rewrite (bool_decide_eq_false_2 ("Document" ∈ [project; "Decision"])).
      * now rewrite andb_false_r.
      * intros Hin'. apply list_elem_of_In in Hin'.
        destruct Hin' as [E|[E|[]]]; [now apply Hp | discriminate].
    + rewrite (bool_decide_eq_false_2 (prop "path" (decision_props dec) = Some (VStr ref))).
      * apply andb_false_r.
      * cbn. intros E. inversion E. apply Hd. apply in_map_iff. now exists dec.
  - intros doc g' Hin H. apply unmatched_create; [|exact H].
    unfold matches. cbn [props].
    rewrite (bool_decide_eq_false_2 (prop "path" (document_props doc) = Some (VStr ref))).
    + apply andb_false_r.
    + cbn. intros E. inversion E. apply Hdocs. apply in_map_iff. now exists doc.
  - now apply unmatched_unlabelled.
Qed.

End Dangling.

(** C9: after a load of a corpus with distinct paths, a reference of
    Document [A] that equals the path of Document [B] has given exactly one
    "REFERENCES" relationship from the node of [A] to the node of [B].  A
    reference that is the path of no Document (and of no Decision, when the
    project label is "Document") finds no node: wherever in the run the
    statement is sent, it leaves the store as it is.  The second half needs
    nothing of the first: it holds of every corpus, also of one in which no
    reference names a Document. *)
Theorem reference_links (project : string) (docs : list Document)
        (decisions : list Decision) (g : graph) :
  let G := create_graph project docs decisions g in
  (wf_graph g -> List.NoDup (map path docs) ->
   forall A B,
     In A docs -> In B docs -> In (path B) (references A) ->
     exists a b,
       document_nodes project (path A) G = [a] /\
       document_nodes project (path B) G = [b] /\
       count_rels "REFERENCES" a b G = 1) /\
  (forall ref,
      ~ In ref (map path docs) ->
      project <> "Document" \/ ~ In ref (map dec_path decisions) ->
      forall from_path g',
        nodes g' = nodes G ->
        match_nodes [project; "Document"] "path" ref g' = [] /\
        run_query g' (LinkDocuments project from_path ref) = g').
Proof.
  intros G. subst G. unfold create_graph. cbn [run_query].
  set (r0 := detach_delete project g).
  assert (Hun : unlabelled project r0) by apply detach_delete_unlabelled.
  split.
  2:{ intros ref Hnone Hdec from_path g' Hnodes.
      assert (Hno : match_nodes [project; "Document"] "path" ref g' = []).
      { rewrite (match_nodes_same_nodes _ _ _ _ _ Hnodes).
        now apply unmatched_write_all. }
      split; [exact Hno | now apply dangling_reference]. }
  intros Hwf Hnd A B HA HB Href.
  assert (Hwf0 : wf_graph r0) by now apply detach_delete_wf.
  destruct (document_node_unique project docs decisions r0 A Hun Hnd HA) as [a Ha].
  destruct (document_node_unique project docs decisions r0 B Hun Hnd HB) as [b Hb].
  exists a, b. split; [exact Ha|]. split; [exact Hb|].
  assert (Ha' : In a (document_nodes project (path A) (write_all project docs decisions r0)))
    by (rewrite Ha; now left).
  assert (Hb' : In b (document_nodes project (path B) (write_all project docs decisions r0)))
    by (rewrite Hb; now left).
  apply document_node_matches in Ha', Hb'.
  apply Nat.le_antisymm.
  - apply written_at_most_once; [exact Hwf0|].
    destruct (extends_write_all project r0 Hun docs decisions)
      as (ns & rs & Hn & _ & Hns & _).
    apply match_nodes_owned in Ha' as [Hin Hl]. rewrite Hn in Hin.
    apply in_app_iff in Hin as [Hin|Hin].
    + unfold unlabelled in Hun. rewrite List.Forall_forall in Hun.
      rewrite (Hun a Hin) in Hl. discriminate.
    + rewrite List.Forall_forall in Hns. now destruct (Hns a Hin).
  - apply count_rels_In. unfold write_all in *.
    set (g2 := fold_left (write_decision project) decisions
                 (fold_left (write_document project) docs r0)) in *.
    apply (reference_written project docs A (path B) a b g2 HA Href).
    + now rewrite <- (match_nodes_same_nodes _ _ _ _ _
                        (fold_write_references_nodes project docs g2)).
    + now rewrite <- (match_nodes_same_nodes _ _ _ _ _
                        (fold_write_references_nodes project docs g2)).
Qed.

Lemma reference_links_witness :
  let project := "TradingEngine" in
  let A := mkDocument "a.md" "A" "other" [] "" ∅ ["b.md"; "missing.md"] [] [] in
  let B := mkDocument "b.md" "B" "other" [] "" ∅ ["a.md"] [] [] in
  let decisions := [mkDecision "001" "Use it" "accepted" "b.md" "" "" ""] in
  let g := mkGraph [mkNode 0 ["Person"] []] [mkRel 0 "KNOWS" 0] in
  let G := create_graph project [A; B] decisions g in
  (exists a b,
      document_nodes project (path A) G = [a] /\
      document_nodes project (path B) G = [b] /\
      count_rels "REFERENCES" a b G = 1) /\
  (forall from_path g',
      nodes g' = nodes G ->
      match_nodes [project; "Document"] "path" "missing.md" g' = [] /\
      run_query g' (LinkDocuments project from_path "missing.md") = g').
Proof.
  intros project A B decisions g G.
  destruct (reference_links project [A; B] decisions g) as [Hlink Hdangling].
  split.
  - apply (Hlink).
    + intros r Hr. vm_compute in Hr.
      apply elem_of_cons in Hr as [->|Hr]; [vm_compute; split; constructor|].
      inversion Hr.
    + constructor; [cbn; intros [H|[]]; discriminate|].
      constructor; [cbn; tauto | constructor].
    + now left.
    + right. now left.
    + now left.
  - apply Hdangling.
    + cbn. intros [H|[H|[]]]; discriminate.
    + left. discriminate.
Defined.

(** A corpus in which no reference names a Document: the load writes no
    relationship for them, and the statement of the one reference leaves the
    store as it is. *)
Example reference_links_all_dangling :
  let A := mkDocument "a.md" "A" "other" [] "" ∅ ["missing.md"; "../a.md"] [] [] in
  let G := create_graph "TradingEngine" [A] [] empty_graph in
  rels G = [] /\
  run_query G (LinkDocuments "TradingEngine" "a.md" "missing.md") = G.
Proof. vm_compute. split; reflexivity. Qed.

(** The store of the example: one relationship for each of the two
    references that name a Document, none for the reference to
    [missing.md]. *)
Example reference_links_example :
  rels (create_graph "TradingEngine"
          [mkDocument "a.md" "A" "other" [] "" ∅ ["b.md"; "missing.md"; "b.md"] [] [];
           mkDocument "b.md" "B" "other" [] "" ∅ ["a.md"] [] []]
          [] empty_graph)
  = [mkRel 0 "REFERENCES" 1; mkRel 1 "REFERENCES" 0].
Proof.
  vm_compute. reflexivity.
Qed.

(** X18: the Decisions of a scan are Decisions of its Documents: the paths
    of the former are among the paths of the latter. *)
Lemma scan_decisions_have_documents (docs_path : PathLib.path) (md_files : list file) :
  incl (map dec_path (decisions (scan_files docs_path md_files)))
       (map path (docs (scan_files docs_path md_files))).
Proof.
  rewrite scan_files_lists. cbn [docs decisions]. intros p Hp.
  apply in_map_iff in Hp as (dec & <- & Hdec).
  apply in_flat_map in Hdec as (f & Hf & Hdec).
  unfold decisions_of in Hdec.
  destruct (is_root_readme docs_path f) eqn:Hr; [contradiction|].
  destruct (is_decision_doc f); [|contradiction].
  destruct (parse_decision f docs_path) as [[d|]|e] eqn:Hd; try contradiction.
  destruct Hdec as [->|[]].
  unfold parse_decision in Hd.
  destruct (read_text f) as [text|e] eqn:Hread; [|discriminate].
  destruct (relative_to f docs_path) as [rel_path|e] eqn:Hrel; [|discriminate].
  destruct (match_ _ _ _); [|discriminate]. inversion Hd; subst dec. cbn [dec_path].
  apply in_map_iff.
  destruct (parse_frontmatter text) as [fm body] eqn:Hfm.
  eexists. split; [|apply in_flat_map; exists f; split; [exact Hf|]].
  2:{ unfold documents_of, parse_document. rewrite Hr, Hread, Hrel, Hfm. now left. }
  reflexivity.
Qed.

(** * Further properties of the pipeline *)

(** ** The scan: the root README and the counts *)

(** X1: a file named README.md, in any letter case, that lies directly in
    the root is passed over before it is read: the scan is the scan of the
    other files, whether or not the file can be read. *)
Theorem root_readme_is_skipped (docs_path : PathLib.path) (name : string)
        (data : result string) (before after : list file) :
  upper name = "README.MD" ->
  scan_files docs_path (before ++ mkFile (docs_path ++ [name])%list data :: after)
  = scan_files docs_path (before ++ after).
Proof.
  intros Hname. rewrite !scan_files_lists, !flat_map_app. cbn [flat_map].
  assert (Hr : is_root_readme docs_path (mkFile (docs_path ++ [name])%list data) = true).
  { unfold is_root_readme, PathLib.name, PathLib.parent. cbn [file_path].
    rewrite last_last, removelast_last, Hname.
    cbn [String.eqb]. now rewrite bool_decide_eq_true_2. }
  unfold documents_of, decisions_of, warnings_of. now rewrite Hr.
Qed.

Lemma root_readme_is_skipped_witness :
  scan_files ["srv"; "docs"]
    ([mkFile ["srv"; "docs"; "guide.md"] (Ok "# Guide")]
       ++ mkFile (["srv"; "docs"] ++ ["ReadMe.md"])%list (Raise "not readable") :: [])
  = scan_files ["srv"; "docs"]
      ([mkFile ["srv"; "docs"; "guide.md"] (Ok "# Guide")] ++ []).
Proof.
  apply (root_readme_is_skipped ["srv"; "docs"] "ReadMe.md" (Raise "not readable")
           [mkFile ["srv"; "docs"; "guide.md"] (Ok "# Guide")] []).
  reflexivity.
Defined.

Lemma scan_file_counts (docs_path : PathLib.path) (f : file) :
  length (documents_of docs_path f) + length (warnings_of docs_path f)
  = (if is_root_readme docs_path f then 0 else 1) /\
  length (decisions_of docs_path f) <= length (documents_of docs_path f).
Proof.
  unfold documents_of, warnings_of, decisions_of.
  destruct (is_root_readme docs_path f); [cbn; lia|].
  destruct (parse_document f docs_path) as [doc|e] eqn:Hdoc.
  - split; [reflexivity|].
    destruct (is_decision_doc f); [|cbn; lia].
    destruct (parse_decision f docs_path) as [[dec|]|e]; cbn; lia.
  - split; [reflexivity|]. rewrite (parse_decision_of_raise docs_path f e Hdoc).
    destruct (is_decision_doc f); cbn; lia.
Qed.

(** X2: every file that is not the root README ends either as a Document or
    as a warning, never both and never neither; and there are never more
    Decisions than Documents. *)
Theorem scan_counts (docs_path : PathLib.path) (md_files : list file) :
  length (docs (scan_files docs_path md_files))
  + length (printed (scan_files docs_path md_files))
  = length (List.filter (fun f => negb (is_root_readme docs_path f)) md_files) /\
  length (decisions (scan_files docs_path md_files))
  <= length (docs (scan_files docs_path md_files)).
Proof.
  rewrite scan_files_lists. cbn [docs decisions printed].
  induction md_files as [|f fs [IH1 IH2]]; [cbn; lia|].
  cbn [flat_map List.filter]. rewrite !length_app.
  destruct (scan_file_counts docs_path f) as [H1 H2].
  destruct (is_root_readme docs_path f); cbn [negb length]; lia.
Qed.

(** ** Splitting: what the pieces are *)

Section SplitFacts.

Lemma drop_append (a b : string) : drop (String.length a) (a ++ b) = b.
Proof. induction a as [|c a IH]; [now destruct b | exact IH]. Qed.

(** The characters of a separator that was found are passed over. *)
Lemma split_go_skip (sep : string) (maxsplit : option nat) (s : string) :
  forall (skip : nat) (cur : string),
    skip <= String.length s ->
    split_go sep maxsplit skip cur s = split_go sep maxsplit 0 cur (drop skip s).
Proof.
  induction s as [|c s IH]; intros skip cur H.
  - cbn in H. now replace skip with 0 by lia.
  - destruct skip as [|k]; [reflexivity|].
    cbn [split_go drop]. apply IH. cbn in H. lia.
Qed.

(** Where the separator stands, a cut is made. *)
Lemma split_go_cut (a : ascii) (sep' : string) (maxsplit : option nat) (cur t : string) :
  may_cut maxsplit = true ->
  split_go (String a sep') maxsplit 0 cur (String a sep' ++ t)
  = rev cur :: split_go (String a sep') (cut maxsplit) 0 "" t.
Proof.
  intros Hcut.
  assert (Hs : startswith (String a sep' ++ t) (String a sep') = true)
    by (apply startswith_spec; now exists t).
  cbn [String.append] in *. cbn [split_go]. rewrite Hcut, Hs. cbn [andb]. f_equal.
  cbn [String.length pred].
  rewrite split_go_skip by (rewrite length_append; lia).
  now rewrite drop_append.
Qed.

(** Where it does not stand, the character joins the piece being read. *)
Lemma split_go_step (sep : string) (maxsplit : option nat) (cur : string)
      (c : ascii) (s : string) :
  may_cut maxsplit && startswith (String c s) sep = false ->
  split_go sep maxsplit 0 cur (String c s) = split_go sep maxsplit 0 (String c cur) s.
Proof. intros H. cbn [split_go]. now rewrite H. Qed.

Lemma split_go_nonempty (sep : string) (maxsplit : option nat) (s : string) :
  forall (skip : nat) (cur : string), split_go sep maxsplit skip cur s <> [].
Proof.
  revert maxsplit. induction s as [|c s IH]; intros maxsplit skip cur; [discriminate|].
  cbn [split_go]. destruct skip; [|apply IH].
  destruct (may_cut maxsplit && startswith (String c s) sep); [discriminate | apply IH].
Qed.

Lemma join_cons (sep p : string) (ps : list string) :
  ps <> [] -> join sep (p :: ps) = p ++ sep ++ join sep ps.
Proof. destruct ps; [contradiction | reflexivity]. Qed.

(** [sep.join(s.split(sep, n)) == s] *)
Lemma join_split_go (a : ascii) (sep' : string) (s : string) :
  forall (maxsplit : option nat) (cur : string),
    join (String a sep') (split_go (String a sep') maxsplit 0 cur s) = rev cur ++ s.
Proof.
  remember (String.length s) as n eqn:Hn. revert s Hn.
  induction n as [n IH] using lt_wf_ind. intros s Hn maxsplit cur.
  destruct s as [|c s]; [cbn; now rewrite append_nil_r|].
  destruct (may_cut maxsplit && startswith (String c s) (String a sep')) eqn:E.
  - apply andb_true_iff in E as [Hcut Hs].
    apply startswith_spec in Hs as [t Ht]. rewrite Ht.
    rewrite split_go_cut by exact Hcut.
    rewrite join_cons by apply split_go_nonempty.
    rewrite (IH (String.length t)) with (s := t); [reflexivity | | reflexivity].
    subst n. rewrite Ht, length_append. cbn. lia.
  - rewrite split_go_step by exact E.
    rewrite (IH (String.length s)) with (s := s); [| subst n; cbn; lia | reflexivity].
    now rewrite rev_cons, append_assoc.
Qed.

Lemma join_split (sep s : string) (maxsplit : option nat) :
  sep <> "" -> join sep (split sep maxsplit s) = s.
Proof.
  intros H. destruct sep as [|a sep']; [contradiction|].
  unfold split. now rewrite join_split_go.
Qed.

(** Without the separator in it the text is one piece. *)
Lemma split_go_absent (sep : string) (maxsplit : option nat) (s : string) :
  forall cur : string,
    contains sep s = false -> sep <> "" ->
    split_go sep maxsplit 0 cur s = [rev cur ++ s].
Proof.
  induction s as [|c s IH]; intros cur H Hsep.
  - cbn. now rewrite append_nil_r.
  - cbn [contains] in H. apply orb_false_iff in H as [Hs Hc].
    rewrite split_go_step by (rewrite Hs; apply andb_false_r).
    rewrite IH by assumption. now rewrite rev_cons, append_assoc.
Qed.

(** With one cut left and the separator in the text: the piece before its
    first occurrence, and the rest. *)
Lemma split_go_first (a : ascii) (sep' : string) (s : string) :
  forall cur : string,
    contains (String a sep') s = true ->
    exists x y,
      split_go (String a sep') (Some 1) 0 cur s = [rev cur ++ x; y] /\
      s = x ++ String a sep' ++ y /\
      contains (String a sep') x = false.
Proof.
  induction s as [|c s IH]; intros cur H; [discriminate|].
  destruct (startswith (String c s) (String a sep')) eqn:Hs.
  - apply startswith_spec in Hs as [t Ht]. exists "", t. rewrite Ht.
    rewrite split_go_cut by reflexivity. cbn [cut pred].
    rewrite split_go_no_cut. rewrite append_nil_r. repeat split; reflexivity.
  - cbn [contains] in H. rewrite Hs in H. cbn [orb] in H.
    destruct (IH (String c cur) H) as (x & y & Hsplit & Hxy & Hx).
    exists (String c x), y. rewrite split_go_step by (rewrite Hs; reflexivity).
    rewrite Hsplit, rev_cons, append_assoc. repeat split; [now rewrite Hxy|].
    cbn [contains]. rewrite Hx, orb_false_r.
    destruct (startswith (String c x) (String a sep')) eqn:Hs'; [|reflexivity].
    apply startswith_spec in Hs' as [u Hu].
    assert (Hs'' : startswith (String c s) (String a sep') = true).
    { apply startswith_spec. exists (u ++ String a sep' ++ y).
      rewrite Hxy. change (String c (x ++ String a sep' ++ y))
        with (String c x ++ String a sep' ++ y).
      now rewrite Hu, append_assoc. }
    congruence.
Qed.

End SplitFacts.

(** ** The frontmatter block *)

Lemma starts_with_delimiter (content : string) :
  startswith content "---" = true -> content = "---" ++ drop 3 content.
Proof.
  intros H. apply startswith_spec in H as [t ->]. reflexivity.
Qed.

Lemma split_delimiter (content : string) :
  startswith content "---" = true ->
  split "---" (Some 2) content
  = "" :: split_go "---" (Some 1) 0 "" (drop 3 content).
Proof.
  intros H. unfold split. rewrite (starts_with_delimiter content H) at 1.
  now rewrite split_go_cut.
Qed.

(** X3: a text that begins with the delimiter and has no second one (an
    unterminated block) is returned whole as the body, with an empty
    mapping. *)
Theorem parse_frontmatter_unterminated (content : string) :
  startswith content "---" = true ->
  contains "---" (drop 3 content) = false ->
  parse_frontmatter content = (∅, content).
Proof.
  intros Hs Hc. unfold parse_frontmatter.
  rewrite Hs, (split_delimiter content Hs), split_go_absent by (assumption || discriminate).
  reflexivity.
Qed.

Lemma parse_frontmatter_unterminated_witness :
  parse_frontmatter ("---" ++ NL ++ "title: Guide" ++ NL ++ "# Guide -- draft")
  = (∅, "---" ++ NL ++ "title: Guide" ++ NL ++ "# Guide -- draft").
Proof.
  apply (parse_frontmatter_unterminated
           ("---" ++ NL ++ "title: Guide" ++ NL ++ "# Guide -- draft"));
    reflexivity.
Defined.

(** X4: in a text that begins with the delimiter and has a second one, the
    metadata is the text between the opening delimiter and the next
    occurrence of the delimiter, the body is everything behind that
    occurrence, unchanged, and the mapping is read from the metadata
    alone. *)
Theorem parse_frontmatter_block (content : string) :
  startswith content "---" = true ->
  contains "---" (drop 3 content) = true ->
  exists meta,
    content = "---" ++ meta ++ "---" ++ snd (parse_frontmatter content) /\
    contains "---" meta = false /\
    fst (parse_frontmatter content)
    = fold_left add_line (split NL None (strip meta)) ∅.
Proof.
  intros Hs Hc.
  destruct (split_go_first "-" "--" (drop 3 content) "" Hc) as (x & y & Hsplit & Hxy & Hx).
  exists x. unfold parse_frontmatter.
  rewrite Hs, (split_delimiter content Hs), Hsplit. cbn [negb fst snd rev rev_onto].
  repeat split; [|exact Hx].
  rewrite (starts_with_delimiter content Hs) at 1. now rewrite Hxy.
Qed.

Lemma parse_frontmatter_block_witness :
  let content := "---" ++ NL ++ "title: Guide" ++ NL ++ "---" ++ NL
                 ++ "# Guide" ++ NL ++ "---" ++ NL ++ "end" in
  exists meta,
    content = "---" ++ meta ++ "---" ++ snd (parse_frontmatter content) /\
    contains "---" meta = false /\
    fst (parse_frontmatter content)
    = fold_left add_line (split NL None (strip meta)) ∅.
Proof.
  intros content. apply (parse_frontmatter_block content); reflexivity.
Defined.

(** ** The entries of the frontmatter mapping *)

Section PlainEntries.

Lemma contains_char_append (c : ascii) (u v : string) :
  contains (String c "") (u ++ v)
  = contains (String c "") u || contains (String c "") v.
Proof.
  induction u as [|x u IH].
  - cbn [String.append contains startswith orb]. reflexivity.
  - cbn [String.append]. cbn [contains startswith]. rewrite IH.
    destruct (Ascii.eqb c x); [reflexivity|]. reflexivity.
Qed.

Lemma contains_char_rev (c : ascii) (s : string) :
  contains (String c "") (rev s) = contains (String c "") s.
Proof.
  induction s as [|x s IH]; [reflexivity|].
  rewrite rev_cons, contains_char_append, IH.
  cbn [contains startswith]. destruct (Ascii.eqb c x); cbn.
  - apply orb_true_r.
  - now rewrite !orb_false_r.
Qed.

(** No piece of a text split at a character holds the character. *)
Lemma split_char_pieces (c : ascii) (s : string) :
  forall cur : string,
    contains (String c "") cur = false ->
    Forall (fun p => contains (String c "") p = false)
           (split_go (String c "") None 0 cur s).
Proof.
  induction s as [|x s IH]; intros cur H.
  - cbn [split_go]. constructor; [|constructor]. now rewrite contains_char_rev.
  - cbn [split_go may_cut andb startswith String.length pred cut].
    destruct (Ascii.eqb_spec c x) as [<-|Hne].
    + constructor; [now rewrite contains_char_rev|]. now apply IH.
    + apply IH. cbn [contains startswith]. rewrite H.
      destruct (Ascii.eqb_spec c x); [contradiction | reflexivity].
Qed.

Lemma strip_inside (s : string) : exists u v, s = u ++ strip s ++ v.
Proof.
  unfold strip. destruct (lstrip_suffix s) as [u Hu].
  destruct (rstrip_prefix (lstrip s)) as [v Hv].
  exists u, v. now rewrite <- Hv.
Qed.

Lemma contains_strip (sub s : string) :
  contains sub s = false -> contains sub (strip s) = false.
Proof.
  intros H. destruct (contains sub (strip s)) eqn:E; [|reflexivity].
  apply contains_spec in E as (a & b & E).
  destruct (strip_inside s) as (u & v & Hs).
  assert (contains sub s = true); [|congruence].
  apply contains_spec. exists (u ++ a), (b ++ v).
  rewrite Hs at 1. rewrite E. now rewrite !append_assoc.
Qed.

Lemma after_colon_inside (line : string) :
  exists u, line = u ++ after_colon line.
Proof.
  induction line as [|c s [u IH]]; [now exists ""|].
  cbn [after_colon]. destruct (Ascii.eqb c ":").
  - now exists (String c "").
  - exists (String c u). cbn [String.append]. now rewrite <- IH.
Qed.

Lemma before_colon_inside (line : string) :
  exists v, line = before_colon line ++ v.
Proof.
  induction line as [|c s [v IH]]; [now exists ""|].
  cbn [before_colon]. destruct (Ascii.eqb c ":").
  - now exists (String c s).
  - exists v. cbn [String.append]. now rewrite <- IH.
Qed.

Lemma before_colon_no_colon (line : string) :
  contains ":" (before_colon line) = false.
Proof.
  induction line as [|c s IH]; [reflexivity|].
  cbn [before_colon]. destruct (Ascii.eqb_spec c ":") as [->|Hne]; [reflexivity|].
  cbn [contains startswith]. rewrite IH.
  destruct (Ascii.eqb_spec ":" c); [congruence | reflexivity].
Qed.

End PlainEntries.

(** X5: no key of the mapping holds a colon or a line break, and no value
    holds a line break (a value keeps the colons behind the first one). *)
Theorem frontmatter_entries_plain (content key value : string) :
  fst (parse_frontmatter content) !! key = Some value ->
  contains ":" key = false /\ contains NL key = false /\ contains NL value = false.
Proof.
  unfold parse_frontmatter.
  destruct (negb (startswith content "---")); [cbn; now rewrite lookup_empty|].
  destruct (split "---" (Some 2) content) as [|p0 [|meta [|body [|p3 ps]]]];
    try (cbn; now rewrite lookup_empty).
  cbn [fst]. rewrite fold_add_line. intros H.
  apply fold_insert_origin in H as [H | (line & Hin & -> & ->)];
    [now rewrite lookup_empty in H|].
  apply filter_In in Hin as [Hin _].
  assert (Hline : contains NL line = false).
  { pose proof (split_char_pieces nl (strip meta) "" eq_refl) as Hall.
    rewrite List.Forall_forall in Hall. now apply Hall. }
  unfold entry_key, entry_value. repeat split.
  - apply contains_strip, before_colon_no_colon.
  - apply contains_strip. destruct (before_colon_inside line) as [v Hv].
    rewrite Hv in Hline. unfold NL in *. rewrite contains_char_append in Hline.
    now apply orb_false_iff in Hline as [? _].
  - apply contains_strip. destruct (after_colon_inside line) as [u Hu].
    rewrite Hu in Hline. unfold NL in *. rewrite contains_char_append in Hline.
    now apply orb_false_iff in Hline as [_ ?].
Qed.

Lemma frontmatter_entries_plain_witness :
  contains ":" "owner" = false /\ contains NL "owner" = false
  /\ contains NL "ops:core" = false.
Proof.
  apply (frontmatter_entries_plain
           ("---" ++ NL ++ "title: Guide" ++ NL ++ " owner : ops:core " ++ NL
            ++ "---" ++ NL ++ "# Guide") "owner" "ops:core").
  vm_compute. reflexivity.
Defined.

(** ** Component names: spaces and vocabulary *)

Section ComponentFacts.

(** [s.replace(c, "")] removes the character. *)
Lemma join_split_remove (c : ascii) (s : string) :
  forall cur : string,
    join "" (split_go (String c "") None 0 cur s) = rev cur ++ remove_char c s.
Proof.
  induction s as [|x s IH]; intros cur.
  - cbn. now rewrite append_nil_r.
  - cbn [split_go may_cut andb startswith String.length pred cut remove_char].
    destruct (Ascii.eqb c x).
    + rewrite join_cons by apply split_go_nonempty. rewrite IH. reflexivity.
    + rewrite IH, rev_cons, append_assoc. reflexivity.
Qed.

Lemma replace_remove (c : ascii) (s : string) :
  replace (String c "") "" s = remove_char c s.
Proof. unfold replace, split. now rewrite join_split_remove. Qed.

Lemma remove_char_gone (c : ascii) (s : string) :
  contains (String c "") (remove_char c s) = false.
Proof.
  induction s as [|x s IH]; [reflexivity|].
  cbn [remove_char]. destruct (Ascii.eqb c x) eqn:E; [exact IH|].
  cbn [contains startswith]. now rewrite E, IH.
Qed.

Lemma lower_char_space (x : ascii) :
  Ascii.eqb " " (lower_char x) = Ascii.eqb " " x.
Proof. apply eqb_lower_caseless. reflexivity. Qed.

Lemma lower_remove_space (s : string) :
  lower (remove_char " " s) = remove_char " " (lower s).
Proof.
  induction s as [|x s IH]; [reflexivity|].
  cbn [remove_char lower map_chars]. fold (lower s).
  rewrite lower_char_space. destruct (Ascii.eqb " " x); [exact IH|].
  cbn [lower map_chars]. fold (lower (remove_char " " s)). now rewrite IH.
Qed.

Lemma lower_length (s : string) : String.length (lower s) = String.length s.
Proof.
  unfold lower. induction s as [|x s IH]; [reflexivity|].
  cbn [map_chars String.length]. now rewrite IH.
Qed.

Lemma take_append_length (t s : string) : take (String.length t) (t ++ s) = t.
Proof. induction t as [|x t IH]; [now destruct s | cbn; now rewrite IH]. Qed.

(** A literal matched without regard to case: the text passed over is the
    literal up to letter case. *)
Lemma run_lit_nocase (v : string) :
  forall (st : state) (k : state -> option state) (r : state),
    run IGNORECASE (lit v) st k = Some r ->
    exists t s' p,
      rest st = t ++ s' /\ lower t = lower v /\
      k (State p (pos st + String.length v) s' (groups st)) = Some r.
Proof.
  assert (Hone : forall (a : ascii) (st : state) (k : state -> option state) (r : state),
            run IGNORECASE (Chr (Lit a)) st k = Some r ->
            exists x s',
              rest st = String x s' /\ lower_char x = lower_char a /\
              k (State (Some x) (S (pos st)) s' (groups st)) = Some r).
  { intros a st k r H. cbn [run] in H. destruct (rest st) as [|x s']; [discriminate|].
    cbn [cls_ok same_char IGNORECASE ignorecase] in H.
    destruct (Ascii.eqb_spec (lower_char a) (lower_char x)) as [E|_]; [|discriminate].
    now exists x, s'. }
  induction v as [|a v IH]; intros st k r H.
  - cbn [lit run] in H. exists "", (rest st), (prev st). rewrite Nat.add_0_r.
    destruct st. repeat split. exact H.
  - destruct v as [|b v].
    + cbn [lit] in H. apply Hone in H as (x & s' & Hr & Hx & Hk).
      exists (String x ""), s', (Some x). rewrite Hr. cbn [String.length].
      rewrite Nat.add_1_r. repeat split; [|exact Hk].
      cbn [lower map_chars]. now rewrite Hx.
    + change (run IGNORECASE (lit (String a (String b v))) st k)
        with (run IGNORECASE (Chr (Lit a)) st
                  (fun st' => run IGNORECASE (lit (String b v)) st' k)) in H.
      apply Hone in H as (x & s' & Hr & Hx & Hk).
      apply IH in Hk as (t & s'' & p & Hr' & Ht & Hk). cbn [rest pos groups] in *.
      exists (String x t), s'', p. rewrite Hr, Hr'.
      replace (pos st + String.length (String a (String b v)))
        with (S (pos st) + String.length (String b v)) by (cbn; lia).
      repeat split; [|exact Hk].
      change (lower (String x t)) with (String (lower_char x) (lower t)).
      now rewrite Hx, Ht.
Qed.

Lemma run_alt (fl : flags) (rs : list re) :
  rs <> [] ->
  forall (st : state) (k : state -> option state) (r : state),
    run fl (alt rs) st k = Some r ->
    exists r0, In r0 rs /\ run fl r0 st k = Some r.
Proof.
  induction rs as [|r1 rs IH]; intros Hne st k r H; [contradiction|].
  destruct rs as [|r2 rs].
  - exists r1. split; [now left | exact H].
  - change (alt (r1 :: r2 :: rs)) with (Alt r1 (alt (r2 :: rs))) in H.
    cbn [run] in H. fold (run fl) in H.
    destruct (run fl r1 st k) eqn:E.
    + exists r1. split; [now left | congruence].
    + apply IH in H as (r0 & Hin & Hr); [|discriminate].
      exists r0. split; [now right | exact Hr].
Qed.

(** A match of [\b(v1|v2|...)\b] without regard to case holds one of the
    variants, up to letter case, in its group. *)
Lemma component_match (variants : list string) (p : option ascii) (i : nat)
      (s : string) (m : mtch) :
  variants <> [] ->
  match_at IGNORECASE (component_re variants) p i s = Some m ->
  exists v, In v variants /\ lower (group 1 m) = lower v.
Proof.
  intros Hne. unfold match_at, component_re. cbn [seq].
  destruct (run _ _ _ _) as [st|] eqn:H; [|discriminate].
  intros E. inversion E; subst m; clear E.
  cbn [run] in H. fold (run IGNORECASE) in H.
  destruct (at_boundary _); [|discriminate].
  apply run_alt in H as (r0 & Hin & H); [|now destruct variants].
  apply in_map_iff in Hin as (v & <- & Hv).
  apply run_lit_nocase in H as (t & s' & p' & Hr & Ht & H).
  cbn [rest pos groups prev] in *.
  destruct (at_boundary _); [|discriminate].
  inversion H; subst st; clear H.
  exists v. split; [exact Hv|].
  unfold group. cbn [m_groups groups set_group assoc Nat.eqb pos rest].
  replace (i + String.length v - i) with (String.length t).
  - now rewrite Hr, take_append_length.
  - rewrite <- (lower_length t), Ht, lower_length. lia.
Qed.

(** Where the names of the set come from. *)
Lemma component_set_elem (content x : string) :
  x ∈ component_set content ->
  exists pattern m,
    In pattern patterns /\ In m (finditer IGNORECASE pattern content) /\
    x = component_name m.
Proof.
  unfold component_set.
  assert (Hinner : forall (ms : list mtch) (s0 : gset string),
            x ∈ fold_left (fun (s : gset string) m => s ∪ {[ component_name m ]}) ms s0 ->
            x ∈ s0 \/ exists m, In m ms /\ x = component_name m).
  { induction ms as [|m ms IH]; intros s0 H; [now left|].
    cbn [fold_left] in H. apply IH in H as [H | (m' & Hin & E)].
    - apply elem_of_union in H as [H|H]; [now left|].
      apply elem_of_singleton in H. right. exists m. split; [now left | exact H].
    - right. exists m'. split; [now right | exact E]. }
  assert (Houter : forall (ps : list re) (s0 : gset string),
            x ∈ fold_left
                  (fun (s : gset string) pattern =>
                     fold_left (fun (s1 : gset string) m => s1 ∪ {[ component_name m ]})
                               (finditer IGNORECASE pattern content) s)
                  ps s0 ->
            x ∈ s0 \/ exists pattern m,
                        In pattern ps /\ In m (finditer IGNORECASE pattern content)
                        /\ x = component_name m).
  { induction ps as [|pt ps IH]; intros s0 H; [now left|].
    cbn [fold_left] in H. apply IH in H as [H | (pt' & m & Hp & Hm & E)].
    - apply Hinner in H as [H | (m & Hm & E)]; [now left|].
      right. exists pt, m. repeat split; auto. now left.
    - right. exists pt', m. repeat split; auto. now right. }
  intros H. apply Houter in H as [H|H]; [|exact H].
  now apply not_elem_of_empty in H.
Qed.

End ComponentFacts.

(** X6: the list of components holds no name twice and no name with a
    space in it. *)
Theorem extract_components_plain (content : string) :
  NoDup (extract_components content) /\
  Forall (fun name => contains " " name = false) (extract_components content).
Proof.
  split; [apply extract_components_NoDup|].
  apply List.Forall_forall. intros name H. unfold extract_components in H.
  apply list_elem_of_In, elem_of_elements, component_set_elem in H
    as (pattern & m & _ & _ & ->).
  unfold component_name. rewrite replace_remove. apply remove_char_gone.
Qed.

(** X7: every component returned is, up to letter case, one of the fourteen
    names of the vocabulary. *)
Theorem extract_components_vocabulary (content : string) :
  Forall (fun name => In (lower name) component_names) (extract_components content).
Proof.
  apply List.Forall_forall. intros name H. unfold extract_components in H.
  apply list_elem_of_In, elem_of_elements, component_set_elem in H
    as (pattern & m & Hp & Hm & ->).
  apply finditer_sound in Hm as (before & p & i & s & _ & Hm).
  unfold component_name. rewrite replace_remove, lower_remove_space.
  unfold patterns in Hp.
  repeat (destruct Hp as [<-|Hp];
          [apply component_match in Hm as (v & Hv & ->); [|discriminate];
           repeat (destruct Hv as [<-|Hv]; [vm_compute; tauto|]); contradiction|]).
  contradiction.
Qed.

(** ** References and headings *)

Section MoreMatchFacts.

Lemma run_seq (fl : flags) (r1 r2 : re) (st : state) (k : state -> option state) :
  run fl (Seq r1 r2) st k = run fl r1 st (fun st' => run fl r2 st' k).
Proof. reflexivity. Qed.

Lemma run_group (fl : flags) (n : nat) (r1 : re) (st : state)
      (k : state -> option state) :
  run fl (Group n r1) st k = run fl r1 st (fun st' => k (set_group n st st')).
Proof. reflexivity. Qed.

Lemma run_rep (fl : flags) (c : cls) (lo : nat) (hi : option nat) (greedy : bool)
      (st : state) (k : state -> option state) (r : state) :
  run fl (Rep c lo hi greedy) st k = Some r ->
  exists n p',
    lo <= n /\ n <= String.length (rest st) /\
    all_chars (cls_ok fl c) (take n (rest st)) = true /\
    k (State p' (pos st + n) (drop n (rest st)) (groups st)) = Some r.
Proof. cbn [run]. intros H. now apply rep_sound in H. Qed.

Lemma all_chars_not (a : ascii) (t : string) :
  all_chars (cls_ok no_flags (Not a)) t = true -> contains (String a "") t = false.
Proof.
  induction t as [|x t IH]; [reflexivity|].
  cbn [all_chars cls_ok same_char no_flags ignorecase contains startswith].
  intros H. apply andb_true_iff in H as [Hx Ht]. apply negb_true_iff in Hx.
  now rewrite Hx, IH.
Qed.

Lemma take_nonempty (n : nat) (s : string) :
  1 <= n -> n <= String.length s -> take n s <> "".
Proof. destruct n, s; cbn; intros; (lia || discriminate). Qed.

Lemma link_match (p : option ascii) (i : nat) (s : string) (m : mtch) :
  match_at no_flags link_re p i s = Some m ->
  exists label stem after,
    s = "[" ++ label ++ "](" ++ stem ++ ".md)" ++ after /\
    group 1 m = stem ++ ".md" /\
    label <> "" /\ stem <> "" /\ contains ")" stem = false.
Proof.
  unfold match_at, link_re. cbn [seq lit plus plus_lazy].
  destruct (run _ _ _ _) as [st|] eqn:H; [|discriminate].
  intros E. inversion E; subst m; clear E.
  cbn [run cls_ok same_char no_flags ignorecase rest pos groups prev set_group] in H.
  destruct s as [|c s1]; [discriminate|].
  destruct (Ascii.eqb_spec "[" c) as [<-|_]; [|discriminate].
  apply rep_sound in H as (n1 & p1 & Hn1 & Hlen1 & _ & H).
  cbn [run cls_ok same_char no_flags ignorecase rest pos groups prev set_group] in H.
  destruct (drop n1 s1) as [|c s2] eqn:Hs2; [discriminate|].
  destruct (Ascii.eqb_spec "]" c) as [<-|_]; [|discriminate].
  destruct s2 as [|c s3]; [discriminate|].
  destruct (Ascii.eqb_spec "(" c) as [<-|_]; [|discriminate].
  apply rep_sound in H as (n2 & p2 & Hn2 & Hlen2 & Hall & H).
  cbn [run cls_ok same_char no_flags ignorecase rest pos groups prev set_group] in H.
  destruct (drop n2 s3) as [|c s4] eqn:Hs4; [discriminate|].
  destruct (Ascii.eqb_spec "." c) as [<-|_]; [|discriminate].
  destruct s4 as [|c s5]; [discriminate|].
  destruct (Ascii.eqb_spec "m" c) as [<-|_]; [|discriminate].
  destruct s5 as [|c s6]; [discriminate|].
  destruct (Ascii.eqb_spec "d" c) as [<-|_]; [|discriminate].
  destruct s6 as [|c s7]; [discriminate|].
  destruct (Ascii.eqb_spec ")" c) as [<-|_]; [|discriminate].
  inversion H; subst st; clear H.
  assert (Hstem : String.length (take n2 s3) = n2).
  { clear -Hlen2. revert s3 Hlen2.
    induction n2 as [|n IH]; intros [|x s3] H; cbn in *; try lia.
    now rewrite IH by lia. }
  assert (Hne1 : take n1 s1 <> "") by now apply take_nonempty.
  assert (Hne2 : take n2 s3 <> "") by now apply take_nonempty.
  apply (all_chars_not ")") in Hall.
  assert (Es3 : s3 = take n2 s3 ++ ".md)" ++ s7).
  { rewrite <- (take_drop n2 s3) at 1. now rewrite Hs4. }
  assert (Es1 : s1 = take n1 s1 ++ "](" ++ s3).
  { rewrite <- (take_drop n1 s1) at 1. now rewrite Hs2. }
  remember (take n1 s1) as label. remember (take n2 s3) as stem.
  exists label, stem, s7.
  unfold group. cbn [m_groups groups assoc Nat.eqb].
  repeat split; auto.
  - cbn [String.append]. f_equal. rewrite Es1. f_equal.
    cbn [String.append]. do 2 f_equal. exact Es3.
  - match goal with |- take ?k _ = _ => replace k with (String.length stem + 3) by lia end.
    rewrite Es3. clear.
    induction stem as [|x t IH]; [reflexivity|].
    cbn [String.length]. cbn [Nat.add String.append take]. f_equal. exact IH.
  - rewrite Heqstem. exact Hall.
Qed.

End MoreMatchFacts.

(** X8: every reference returned is the target of a link [[label](target)]
    of the body, with a label that is not empty; it ends in [.md], holds no
    closing parenthesis and does not begin with [http]. *)
Theorem extract_references_links (content : string) :
  Forall (fun ref =>
            startswith ref "http" = false /\
            exists label stem,
              label <> "" /\ stem <> "" /\ contains ")" stem = false /\
              ref = stem ++ ".md" /\
              contains ("[" ++ label ++ "](" ++ ref ++ ")") content = true)
         (extract_references content).
Proof.
  apply List.Forall_forall. intros ref H. unfold extract_references in H.
  apply filter_In in H as [H Hhttp]. apply negb_true_iff in Hhttp.
  split; [exact Hhttp|].
  apply in_map_iff in H as (m & <- & Hm).
  apply finditer_sound in Hm as (before & p & i & s & -> & Hm).
  apply link_match in Hm as (label & stem & after & -> & -> & Hl & Hs & Hc).
  exists label, stem. repeat split; auto.
  apply contains_spec. exists before, after.
  now rewrite !append_assoc.
Qed.

(** Links are kept in the order of the body, and as often as they occur. *)
Example extract_references_example :
  extract_references
    "See [a](x.md), [b](https://h/y.md), [c](../z.md#top), [d](x.md) and [e](q.txt)."
  = ["x.md"; "x.md"].
Proof. vm_compute. reflexivity. Qed.

Section Headings.




Lemma length_take_le (n : nat) (s : string) :
  n <= String.length s -> String.length (take n s) = n.
Proof.
  revert s. induction n as [|n IH]; intros [|x s] H; cbn in *; try lia.
  now rewrite IH by lia.
Qed.


End Headings.



(** Four hashes are no heading; the whitespace behind the hashes may hold
    line breaks. *)
Example extract_headings_example :
  extract_headings ("# One" ++ NL ++ "text # no" ++ NL ++ "#### Four" ++ NL
                    ++ "###" ++ NL ++ "Three  " ++ NL)
  = ["One"; "Three  "].
Proof. vm_compute. reflexivity. Qed.

(** ** The file name of a decision record *)

Lemma adr_match (s : string) (m : mtch) :
  match_ no_flags adr_name_re s = Some m ->
  exists rest tail,
    s = group 1 m ++ "-" ++ rest ++ tail /\
    (tail = "" \/ tail = NL) /\
    group 1 m <> "" /\ all_chars is_digit (group 1 m) = true /\
    rest <> "" /\ contains NL rest = false.
Proof.
  unfold match_, match_at, adr_name_re, plus. cbn [seq lit].
  destruct (run _ _ _ _) as [st|] eqn:H; [|discriminate].
  intros E. inversion E; subst m; clear E.
  cbn [run] in H. unfold at_bol in H. cbn [prev pos rest groups] in H.
  apply rep_sound in H as (n1 & p1 & Hlo1 & Hlen1 & Hall1 & H).
  cbn [set_group prev pos rest groups cls_ok same_char no_flags ignorecase] in H.
  destruct (drop n1 s) as [|c s1] eqn:Hs1; [discriminate|].
  destruct (Ascii.eqb_spec "-" c) as [<-|_]; [|discriminate].
  apply rep_sound in H as (n2 & p2 & Hlo2 & Hlen2 & Hall2 & H).
  unfold at_eol in H. cbn [set_group prev pos rest groups multiline no_flags orb] in H.
  assert (Hend : (drop n2 s1 = "" \/ drop n2 s1 = NL) /\
                 groups st = [(2, take (S n1 + n2 - S n1) s1); (1, take (n1 - 0) s)]).
  { destruct (drop n2 s1) as [|c t]; [split; [now left | now inversion H]|].
    destruct (Ascii.eqb_spec c nl) as [->|_]; [|discriminate].
    destruct t as [|c' t]; [|discriminate].
    split; [now right | now inversion H]. }
  destruct Hend as [Htail Hg].
  exists (take n2 s1), (drop n2 s1).
  unfold group. cbn [m_groups]. rewrite Hg. cbn [assoc Nat.eqb].
  rewrite Nat.sub_0_r. repeat split; auto.
  - rewrite take_drop. rewrite <- (take_drop n1 s) at 1. now rewrite Hs1.
  - now apply take_nonempty.
  - now apply take_nonempty.
  - clear -Hall2. revert Hall2. generalize (take n2 s1). intros t.
    induction t as [|x t IH]; [reflexivity|].
    cbn [all_chars cls_ok no_flags dotall orb contains startswith NL].
    intros H. apply andb_true_iff in H as [Hx Ht]. apply negb_true_iff in Hx.
    rewrite (Ascii.eqb_sym nl x), Hx. now apply IH.
Qed.

(** X10: the id of a Decision is the run of digits at the beginning of the
    name of its file (without the suffix): the name is the id, a hyphen and
    a rest that is not empty; and the path of the Decision is the path of
    the file below the root. *)
Theorem parse_decision_id (f : file) (base_path : PathLib.path) (dec : Decision) :
  parse_decision f base_path = Ok (Some dec) ->
  relative_to f base_path = Ok (dec_path dec) /\
  dec_id dec <> "" /\ all_chars is_digit (dec_id dec) = true /\
  exists rest, rest <> "" /\
               startswith (PathLib.stem (file_path f)) (dec_id dec ++ "-" ++ rest) = true.
Proof.
  unfold parse_decision.
  destruct (read_text f) as [content|e]; [|discriminate].
  destruct (relative_to f base_path) as [rel_path|e]; [|discriminate].
  destruct (match_ no_flags adr_name_re (PathLib.stem (file_path f))) as [m|] eqn:Hm;
    [|discriminate].
  intros H. inversion H; subst dec; clear H. cbn [dec_id dec_path].
  apply adr_match in Hm as (rest & tail & Hs & _ & Hne & Hd & Hr & _).
  repeat split; auto. exists rest. split; [exact Hr|].
  apply startswith_spec. exists tail. rewrite Hs at 1. now rewrite !append_assoc.
Qed.

Lemma parse_decision_id_witness :
  let f := mkFile ["srv"; "docs"; "decisions"; "012-use-bolt.md"] (Ok "# Use Bolt") in
  let dec := mkDecision "012" "Use Bolt" "accepted" "decisions/012-use-bolt.md" "" "" "" in
  relative_to f ["srv"; "docs"] = Ok (dec_path dec) /\
  dec_id dec <> "" /\ all_chars is_digit (dec_id dec) = true /\
  exists rest, rest <> "" /\
               startswith (PathLib.stem (file_path f)) (dec_id dec ++ "-" ++ rest) = true.
Proof.
  intros f dec. apply (parse_decision_id f ["srv"; "docs"] dec). reflexivity.
Defined.

(** A greedy repetition that can pass over a whole run of the class, and
    whose continuation succeeds behind the run, succeeds with that. *)
Lemma rep_greedy_all {A : Type} (ok : ascii -> bool) (d : string) :
  forall (lo : nat) (s' : string) (p : option ascii) (i : nat)
         (k : option ascii -> nat -> string -> option A) (r : A),
    all_chars ok d = true -> lo <= String.length d ->
    (s' = "" \/ exists c t, s' = String c t /\ ok c = false) ->
    k (last_char p d) (i + String.length d) s' = Some r ->
    rep ok true lo None p i (d ++ s') k = Some r.
Proof.
  induction d as [|x d IH]; intros lo s' p i k r Hall Hlo Hs' Hk.
  - cbn in Hlo. replace lo with 0 by lia. cbn [String.append last_char String.length] in *.
    rewrite Nat.add_0_r in Hk.
    destruct Hs' as [->|(c & t & -> & Hc)]; cbn [rep]; [exact Hk|].
    now rewrite Hc, andb_false_r.
  - cbn [all_chars] in Hall. apply andb_true_iff in Hall as [Hx Hall].
    cbn [String.append rep more less]. rewrite Hx. cbn [andb].
    cbn [last_char String.length] in Hk.
    replace (i + S (String.length d)) with (S i + String.length d) in Hk by lia.
    destruct lo as [|lo'].
    + now rewrite (IH 0 s' (Some x) (S i) k r Hall (Nat.le_0_l _) Hs' Hk).
    + apply IH; auto. cbn in Hlo. lia.
Qed.

Lemma adr_match_complete (d tl : string) :
  d <> "" -> all_chars is_digit d = true ->
  tl <> "" -> contains NL tl = false ->
  exists m, match_ no_flags adr_name_re (d ++ "-" ++ tl) = Some m.
Proof.
  intros Hd Hdig Hr Hnl.
  unfold match_, match_at, adr_name_re, plus. cbn [seq lit].
  cbn [run]. unfold at_bol. cbn [prev pos rest groups].
  assert (Hany : all_chars (cls_ok no_flags Any) tl = true).
  { clear -Hnl. induction tl as [|x t IH]; [reflexivity|].
    cbn [contains startswith NL] in Hnl. apply orb_false_iff in Hnl as [Hx Ht].
    cbn [all_chars cls_ok no_flags dotall orb].
    rewrite (Ascii.eqb_sym x nl). destruct (Ascii.eqb nl x); [discriminate|].
    cbn [negb andb]. now apply IH. }
  erewrite (rep_greedy_all (cls_ok no_flags Digit) d 1 ("-" ++ tl)).
  - eauto.
  - exact Hdig.
  - destruct d; [contradiction | cbn; lia].
  - right. exists "-"%char, tl. split; reflexivity.
  - cbn [String.append run set_group rest prev pos groups cls_ok same_char
           no_flags ignorecase Ascii.eqb Bool.eqb].
    rewrite <- (append_nil_r tl) at 1.
    erewrite (rep_greedy_all (cls_ok no_flags Any) tl 1 "").
    + reflexivity.
    + exact Hany.
    + destruct tl; [contradiction | cbn; lia].
    + now left.
    + reflexivity.
Qed.

(** X11: a file is taken for a decision record exactly when its name,
    without the suffix, is a run of digits, a hyphen and a rest that is not
    empty (for a name without a line break in it). *)
Theorem numeric_prefix_iff (f : file) :
  contains NL (PathLib.stem (file_path f)) = false ->
  (numeric_prefix f = true <->
   exists d rest,
     PathLib.stem (file_path f) = d ++ "-" ++ rest /\
     d <> "" /\ all_chars is_digit d = true /\ rest <> "").
Proof.
  intros Hnl. unfold numeric_prefix. split.
  - destruct (match_ no_flags adr_name_re (PathLib.stem (file_path f))) as [m|] eqn:Hm;
      [|discriminate].
    intros _. apply adr_match in Hm as (rest & tail & Hs & Htail & Hne & Hd & Hr & _).
    exists (group 1 m), rest. repeat split; auto.
    destruct Htail as [->| ->]; [now rewrite append_nil_r in Hs|].
    exfalso. rewrite Hs in Hnl. unfold NL in Hnl.
    rewrite !contains_char_append in Hnl.
    cbn in Hnl. now rewrite !orb_true_r in Hnl.
  - intros (d & rest & Hs & Hd & Hdig & Hr).
    assert (Hrest : contains NL rest = false).
    { rewrite Hs in Hnl. unfold NL in *. rewrite !contains_char_append in Hnl.
      apply orb_false_iff in Hnl as [_ Hnl]. now apply orb_false_iff in Hnl as [_ ?]. }
    destruct (adr_match_complete d rest Hd Hdig Hr Hrest) as [m Hm].
    now rewrite Hs, Hm.
Qed.

Lemma numeric_prefix_iff_witness :
  let f := mkFile ["srv"; "docs"; "decisions"; "012-use-bolt.md"] (Ok "# Use Bolt") in
  numeric_prefix f = true <->
  exists d rest,
    PathLib.stem (file_path f) = d ++ "-" ++ rest /\
    d <> "" /\ all_chars is_digit d = true /\ rest <> "".
Proof.
  intros f. apply (numeric_prefix_iff f). reflexivity.
Defined.

(** ** The graph writer: what a load leaves of the other nodes *)

Section Others.

Variable project : string.

Lemma filter_filter_same {A : Type} (f : A -> bool) (l : list A) :
  List.filter f (List.filter f l) = List.filter f l.
Proof.
  induction l as [|x l IH]; [reflexivity|].
  cbn [List.filter]. destruct (f x) eqn:E; [|exact IH].
  cbn [List.filter]. now rewrite E, IH.
Qed.

Lemma filter_all_false {A : Type} (f : A -> bool) (l : list A) :
  List.Forall (fun x => f x = false) l -> List.filter f l = [].
Proof.
  induction 1 as [|x l Hx _ IH]; [reflexivity|].
  cbn [List.filter]. now rewrite Hx.
Qed.

Lemma create_graph_extends (docs : list Document) (decisions : list Decision)
      (g : graph) :
  extends project (detach_delete project g) (create_graph project docs decisions g).
Proof.
  unfold create_graph. cbn [run_query].
  apply extends_write_all, detach_delete_unlabelled.
Qed.

End Others.

(** X12: a load leaves the nodes of other owners as they are and in their
    order, keeps every relationship that touches no node of the project,
    and adds only relationships that leave a node of the project. *)
Theorem create_graph_keeps_others (project : string) (docs : list Document)
        (decisions : list Decision) (g : graph) :
  let G := create_graph project docs decisions g in
  List.filter (foreign project) (nodes G) = List.filter (foreign project) (nodes g) /\
  (forall r, In r (rels g) ->
             (forall n, In n (nodes g) -> has_label project n = true ->
                        src r <> nid n /\ dst r <> nid n) ->
             In r (rels G)) /\
  (forall r, In r (rels G) ->
             In r (rels g) \/
             exists n, In n (nodes G) /\ has_label project n = true /\ src r = nid n).
Proof.
  intros G. subst G.
  destruct (create_graph_extends project docs decisions g)
    as (ns & rs & Hn & Hr & Hns & Hrs).
  rewrite Hn, Hr. split; [|split].
  - rewrite List.filter_app. unfold detach_delete at 1. cbn [nodes].
    fold (foreign project). rewrite filter_filter_same.
    rewrite (filter_all_false (foreign project) ns), app_nil_r; [reflexivity|].
    eapply List.Forall_impl; [|exact Hns]. cbn. intros n [Hl _].
    unfold foreign. now rewrite Hl.
  - intros r Hin Hfar. apply in_app_iff. left.
    unfold detach_delete. cbn [rels]. apply filter_In. split; [exact Hin|].
    assert (Hno : forall x, In x (map nid (List.filter (has_label project) (nodes g))) ->
                            src r <> x /\ dst r <> x).
    { intros x Hx. apply in_map_iff in Hx as (n & <- & Hn').
      apply filter_In in Hn' as [Hn1 Hn2]. now apply Hfar. }
    apply andb_true_iff. split; apply negb_true_iff, bool_decide_eq_false;
      intros Hx; apply list_elem_of_In in Hx; destruct (Hno _ Hx); congruence.
  - intros r Hin. apply in_app_iff in Hin as [Hin|Hin].
    + left. unfold detach_delete in Hin. cbn [rels] in Hin.
      now apply filter_In in Hin as [Hin _].
    + right. rewrite List.Forall_forall in Hrs, Hns.
      specialize (Hrs r Hin). apply in_map_iff in Hrs as (n & Hid & Hn').
      exists n. split; [apply in_app_iff; now right|].
      split; [now destruct (Hns n Hn') | now symmetry].
Qed.

(** ** The graph writer: the nodes of a load *)

Section KindNodes.

Variable project : string.

Lemma fold_same_nodes {A : Type} (f : graph -> A -> graph) (l : list A) :
  (forall g x, nodes (f g x) = nodes g) ->
  forall g, nodes (fold_left f l g) = nodes g.
Proof.
  intros Hf. induction l as [|x l IH]; intros g; cbn [fold_left]; [reflexivity|].
  now rewrite IH, Hf.
Qed.

(** The nodes after a [MERGE ... WITH c MATCH ... MERGE] statement: one
    more when the pattern of the first [MERGE] matched nothing. *)
Lemma merge_linked_nodes (kind t name path : string) (g : graph) :
  nodes (run_query g (MergeLinked project kind t name path))
  = match match_nodes [project; kind] "name" name g with
    | [] => (nodes g ++ [mkNode (fresh g) [project; kind] [("name", VStr name)]])%list
    | _ => nodes g
    end.
Proof.
  cbn [run_query]. unfold merge_node.
  destruct (match_nodes [project; kind] "name" name g) as [|c cs];
    (rewrite fold_same_nodes; [reflexivity|]);
    intros g' x; apply fold_same_nodes; intros; apply merge_rel_nodes.
Qed.

Variable kind : string.
Hypothesis not_component : kind <> "Component".
Hypothesis not_concept : kind <> "Concept".

Lemma kind_props_same_nodes (g g' : graph) :
  nodes g' = nodes g -> kind_props project kind g' = kind_props project kind g.
Proof. unfold kind_props. now intros ->. Qed.

Lemma kind_props_create (ls : list string) (ps : list (string * value)) (g : graph) :
  kind_props project kind (create_node ls ps g)
  = (kind_props project kind g
       ++ if bool_decide (ls = [project; kind]) then [ps] else [])%list.
Proof.
  unfold kind_props, create_node. cbn [nodes].
  rewrite List.filter_app, map_app. f_equal.
  cbn [List.filter]. unfold of_kind at 1. cbn [labels].
  now destruct (bool_decide _).
Qed.

Lemma kind_props_merge_linked (kind' t name path : string) (g : graph) :
  kind' = "Component" \/ kind' = "Concept" ->
  kind_props project kind (run_query g (MergeLinked project kind' t name path))
  = kind_props project kind g.
Proof.
  intros Hk. unfold kind_props at 1. rewrite merge_linked_nodes.
  destruct (match_nodes _ _ _ _); [|reflexivity].
  rewrite List.filter_app, map_app. cbn [List.filter]. unfold of_kind at 2. cbn [labels].
  rewrite bool_decide_eq_false_2; [now rewrite app_nil_r|].
  intros E. inversion E. destruct Hk; congruence.
Qed.

Lemma kind_props_write_document (g : graph) (doc : Document) :
  kind_props project kind (write_document project g doc)
  = (kind_props project kind g
       ++ if bool_decide (kind = "Document") then [document_props doc] else [])%list.
Proof.
  unfold write_document.
  set (X := (kind_props project kind g ++ _)%list).
  apply (fold_preserved (fun g' => kind_props project kind g' = X)).
  { intros g' x H. rewrite kind_props_merge_linked; auto. }
  apply (fold_preserved (fun g' => kind_props project kind g' = X)).
  { intros g' x H. rewrite kind_props_merge_linked; auto. }
  cbn [run_query]. rewrite kind_props_create. subst X. f_equal.
  destruct (decide (kind = "Document")) as [->|Hk].
  - now rewrite !bool_decide_eq_true_2.
  - rewrite !bool_decide_eq_false_2; [reflexivity | exact Hk |].
    intros E. inversion E. congruence.
Qed.

Lemma kind_props_write_decision (g : graph) (dec : Decision) :
  kind_props project kind (write_decision project g dec)
  = (kind_props project kind g
       ++ if bool_decide (kind = "Decision") then [decision_props dec] else [])%list.
Proof.
  unfold write_decision. cbn [run_query]. rewrite kind_props_create. f_equal.
  destruct (decide (kind = "Decision")) as [->|Hk].
  - now rewrite !bool_decide_eq_true_2.
  - rewrite !bool_decide_eq_false_2; [reflexivity | exact Hk |].
    intros E. inversion E. congruence.
Qed.

Lemma kind_props_documents (docs : list Document) :
  forall g,
    kind_props project kind (fold_left (write_document project) docs g)
    = (kind_props project kind g
         ++ if bool_decide (kind = "Document") then map document_props docs else [])%list.
Proof.
  induction docs as [|doc docs IH]; intros g; cbn [fold_left map].
  - now destruct (bool_decide _); rewrite app_nil_r.
  - rewrite IH, kind_props_write_document, <- app_assoc.
    now destruct (bool_decide _).
Qed.

Lemma kind_props_decisions (decisions : list Decision) :
  forall g,
    kind_props project kind (fold_left (write_decision project) decisions g)
    = (kind_props project kind g
         ++ if bool_decide (kind = "Decision") then map decision_props decisions else [])%list.
Proof.
  induction decisions as [|dec decisions IH]; intros g; cbn [fold_left map].
  - now destruct (bool_decide _); rewrite app_nil_r.
  - rewrite IH, kind_props_write_decision, <- app_assoc.
    now destruct (bool_decide _).
Qed.

Lemma kind_props_unlabelled (g : graph) :
  unlabelled project g -> kind_props project kind g = [].
Proof.
  unfold unlabelled, kind_props. intros H.
  rewrite filter_all_false; [reflexivity|].
  eapply List.Forall_impl; [|exact H]. cbn. intros n Hn.
  unfold of_kind. apply bool_decide_eq_false. intros E.
  unfold has_label in Hn. rewrite E in Hn.
  apply bool_decide_eq_false in Hn. apply Hn. now left.
Qed.

Lemma kind_props_write_all (docs : list Document) (decisions : list Decision)
      (g : graph) :
  unlabelled project g ->
  kind_props project kind (write_all project docs decisions g)
  = ((if bool_decide (kind = "Document") then map document_props docs else [])
       ++ if bool_decide (kind = "Decision") then map decision_props decisions else [])%list.
Proof.
  intros Hun. unfold write_all.
  rewrite (kind_props_same_nodes _ _ (fold_write_references_nodes project docs _)).
  now rewrite kind_props_decisions, kind_props_documents, kind_props_unlabelled.
Qed.

End KindNodes.

(** X13: after a load the store holds one Document node for every
    Document, in their order and with the five properties of the
    statement, and one Decision node for every Decision with its seven. *)
Theorem create_graph_nodes (project : string) (docs : list Document)
        (decisions : list Decision) (g : graph) :
  let G := create_graph project docs decisions g in
  kind_props project "Document" G = map document_props docs /\
  kind_props project "Decision" G = map decision_props decisions.
Proof.
  intros G. subst G. unfold create_graph. cbn [run_query]. split.
  - rewrite kind_props_write_all;
      [| discriminate | discriminate | apply detach_delete_unlabelled].
    now rewrite app_nil_r.
  - rewrite kind_props_write_all;
      [| discriminate | discriminate | apply detach_delete_unlabelled].
    reflexivity.
Qed.

(** ** The graph writer: one node for every name *)

Section Merged.

Variable project : string.
Hypothesis not_component : project <> "Component".
Hypothesis not_concept : project <> "Concept".

Lemma merged_once_same_nodes (g g' : graph) :
  nodes g' = nodes g -> merged_once project g -> merged_once project g'.
Proof.
  intros E H kind name Hk. unfold match_nodes. rewrite E. now apply H.
Qed.

Lemma merged_once_create (ls : list string) (ps : list (string * value)) (g : graph) :
  prop "name" ps = None ->
  merged_once project g -> merged_once project (create_node ls ps g).
Proof.
  intros Hp H kind name Hk. unfold match_nodes, create_node. cbn [nodes].
  rewrite List.filter_app. cbn [List.filter]. unfold matches at 2. cbn [props].
  rewrite Hp, bool_decide_eq_false_2, andb_false_r by discriminate.
  rewrite app_nil_r. now apply H.
Qed.

Lemma merged_once_merge_linked (kind' t name' path : string) (g : graph) :
  kind' = "Component" \/ kind' = "Concept" ->
  merged_once project g ->
  merged_once project (run_query g (MergeLinked project kind' t name' path)).
Proof.
  intros Hk' H kind name Hk. unfold match_nodes at 1. rewrite merge_linked_nodes.
  destruct (match_nodes [project; kind'] "name" name' g) eqn:Hnone; [|now apply H].
  rewrite List.filter_app, length_app. cbn [List.filter].
  destruct (matches [project; kind] "name" name _) eqn:Hm; cbn [length];
    [|specialize (H kind name Hk); unfold match_nodes in H; lia].
  unfold matches in Hm. cbn [forallb labels props prop String.eqb Ascii.eqb Bool.eqb] in Hm.
  apply andb_true_iff in Hm as [Hl Hn]. apply bool_decide_eq_true in Hn.
  apply andb_true_iff in Hl as [_ Hl]. apply andb_true_iff in Hl as [Hl _].
  unfold has_label in Hl. cbn [labels] in Hl. apply bool_decide_eq_true in Hl.
  assert (kind = kind').
  { apply elem_of_cons in Hl as [->|Hl]; [destruct Hk; congruence|].
    apply elem_of_cons in Hl as [->|Hl]; [reflexivity | inversion Hl]. }
  subst kind'. inversion Hn; subst name'.
  unfold match_nodes in Hnone. rewrite Hnone. cbn. lia.
Qed.

Lemma merged_once_unlabelled (g : graph) :
  unlabelled project g -> merged_once project g.
Proof.
  intros Hun kind name _. unfold match_nodes.
  rewrite filter_all_false; [cbn; lia|].
  eapply List.Forall_impl; [|exact Hun]. cbn. intros n Hn.
  unfold matches. cbn [forallb]. now rewrite Hn.
Qed.

Lemma merged_once_write_all (docs : list Document) (decisions : list Decision)
      (g : graph) :
  merged_once project g -> merged_once project (write_all project docs decisions g).
Proof.
  intros H. unfold write_all.
  eapply merged_once_same_nodes; [apply fold_write_references_nodes|].
  apply (fold_preserved (merged_once project)).
  { intros g' dec Hg'. now apply merged_once_create. }
  apply (fold_preserved (merged_once project)); [|exact H].
  intros g' doc Hg'. unfold write_document.
  apply (fold_preserved (merged_once project)).
  { intros g0 x H0. apply merged_once_merge_linked; auto. }
  apply (fold_preserved (merged_once project)).
  { intros g0 x H0. apply merged_once_merge_linked; auto. }
  now apply merged_once_create.
Qed.

End Merged.

(** X14: after a load the pattern of a [MERGE] for a Component or a
    Concept matches at most one node for every name, when the project label
    is neither of the two kinds. *)
Theorem merged_nodes_unique (project : string) (docs : list Document)
        (decisions : list Decision) (g : graph) (kind name : string) :
  project <> "Component" -> project <> "Concept" ->
  kind = "Component" \/ kind = "Concept" ->
  length (match_nodes [project; kind] "name" name
            (create_graph project docs decisions g)) <= 1.
Proof.
  intros Hp1 Hp2 Hk. unfold create_graph. cbn [run_query].
  apply (merged_once_write_all project Hp1 Hp2 docs decisions); [|exact Hk].
  apply merged_once_unlabelled, detach_delete_unlabelled.
Qed.

Lemma merged_nodes_unique_witness :
  length (match_nodes ["TradingEngine"; "Component"] "name" "Keystore"
            (create_graph "TradingEngine"
               [mkDocument "a.md" "A" "other" [] "" ∅ [] ["Keystore"] ["Keystore"];
                mkDocument "b.md" "B" "other" [] "" ∅ [] ["Keystore"; "Jupiter"] []]
               [] empty_graph)) <= 1.
Proof.
  apply merged_nodes_unique; [discriminate | discriminate | now left].
Defined.

(** With the project label [Component] the pattern of the second [MERGE]
    also matches the Concept node of the same name. *)
Example merged_nodes_label_clash :
  length (match_nodes ["Component"; "Component"] "name" "Keystore"
            (create_graph "Component"
               [mkDocument "a.md" "A" "other" [] "" ∅ [] ["Keystore"] ["Keystore"]]
               [] empty_graph)) = 2.
Proof. vm_compute. reflexivity. Qed.

(** ** The graph writer: components and concepts *)

Section Links.

Variable project : string.

Lemma grows_refl (g : graph) : grows g g.
Proof. split; apply incl_refl. Qed.

Lemma grows_trans (g1 g2 g3 : graph) : grows g1 g2 -> grows g2 g3 -> grows g1 g3.
Proof. intros [H1 H2] [H3 H4]. split; eapply incl_tran; eauto. Qed.

Lemma grows_merge_rel (t : string) (a b : node) (g : graph) :
  grows g (merge_rel t a b g).
Proof.
  unfold merge_rel. destruct (bool_decide _); [apply grows_refl|].
  split; cbn [nodes rels]; [apply incl_refl | apply incl_appl, incl_refl].
Qed.

Lemma grows_create_node (ls : list string) (ps : list (string * value)) (g : graph) :
  grows g (create_node ls ps g).
Proof. split; cbn [nodes rels create_node]; [apply incl_appl|]; apply incl_refl. Qed.

Lemma grows_fold {A : Type} (f : graph -> A -> graph) (l : list A) :
  (forall g x, grows g (f g x)) -> forall g, grows g (fold_left f l g).
Proof.
  intros Hf. induction l as [|x l IH]; intros g; cbn [fold_left]; [apply grows_refl|].
  eapply grows_trans; [apply Hf | apply IH].
Qed.

Lemma grows_merge_linked (kind t name path : string) (g : graph) :
  grows g (run_query g (MergeLinked project kind t name path)).
Proof.
  cbn [run_query]. unfold merge_node.
  destruct (match_nodes [project; kind] "name" name g) as [|c cs].
  - eapply grows_trans; [apply grows_create_node|].
    apply grows_fold. intros g' x. apply grows_fold. intros. apply grows_merge_rel.
  - apply grows_fold. intros g' x. apply grows_fold. intros. apply grows_merge_rel.
Qed.

Lemma grows_link_documents (from_path to_path : string) (g : graph) :
  grows g (run_query g (LinkDocuments project from_path to_path)).
Proof.
  cbn [run_query]. unfold merge_rels.
  apply grows_fold. intros g' x. apply grows_fold. intros. apply grows_merge_rel.
Qed.

Lemma grows_write_document (g : graph) (doc : Document) :
  grows g (write_document project g doc).
Proof.
  unfold write_document.
  eapply grows_trans; [|apply grows_fold; intros; apply grows_merge_linked].
  eapply grows_trans; [|apply grows_fold; intros; apply grows_merge_linked].
  cbn [run_query]. apply grows_create_node.
Qed.

Lemma grows_write_decision (g : graph) (dec : Decision) :
  grows g (write_decision project g dec).
Proof. unfold write_decision. cbn [run_query]. apply grows_create_node. Qed.

Lemma grows_write_references (g : graph) (doc : Document) :
  grows g (write_references project g doc).
Proof.
  unfold write_references. apply grows_fold. intros. apply grows_link_documents.
Qed.

Lemma match_nodes_grows (ls : list string) (key v : string) (g g' : graph) (n : node) :
  grows g g' -> In n (match_nodes ls key v g) -> In n (match_nodes ls key v g').
Proof.
  intros [Hn _] H. unfold match_nodes in *. apply filter_In in H as [H1 H2].
  apply filter_In. split; [now apply Hn | exact H2].
Qed.

Lemma links_to_grows (kind t name : string) (d : node) (g g' : graph) :
  grows g g' -> links_to project kind t name d g -> links_to project kind t name d g'.
Proof.
  intros Hg (c & Hc & Hr). exists c. split.
  - eapply match_nodes_grows; eauto.
  - now apply (proj2 Hg).
Qed.

Lemma document_linked_grows (doc : Document) (g g' : graph) :
  grows g g' -> document_linked project doc g -> document_linked project doc g'.
Proof.
  intros Hg (d & Hd & Hl & Hp & Hc & Hk). exists d.
  split; [now apply (proj1 Hg)|]. split; [exact Hl|]. split; [exact Hp|].
  split; intros x Hx; eapply links_to_grows; eauto.
Qed.

(** The second half of the statement: the relationships from the matched
    Documents to one node [c]. *)
Lemma link_adds (t path : string) (c d : node) (g : graph) :
  In d (match_nodes [project; "Document"] "path" path g) ->
  In (mkRel (nid d) t (nid c))
     (rels (fold_left (fun g0 d0 => merge_rel t d0 c g0)
                      (match_nodes [project; "Document"] "path" path g) g)).
Proof.
  intros Hd.
  apply (fold_reaches (fun g0 => In (mkRel (nid d) t (nid c)) (rels g0))
                      (fun _ => True) _ d); auto.
  - intros g0 _. apply merge_rel_adds.
  - intros g0 y H. now apply In_rels_merge_rel.
Qed.

Lemma merge_linked_links (kind t name path : string) (d : node) (g : graph) :
  In d (match_nodes [project; "Document"] "path" path g) ->
  links_to project kind t name d (run_query g (MergeLinked project kind t name path)).
Proof.
  intros Hd.
  pose proof (grows_merge_linked kind t name path g) as Hgrow.
  cbn [run_query] in *. unfold merge_node in *.
  set (F := fun g0 c0 =>
              fold_left (fun g1 d0 => merge_rel t d0 c0 g1)
                        (match_nodes [project; "Document"] "path" path g0) g0) in *.
  assert (HF : forall g0 c0, grows g0 (F g0 c0)).
  { intros g0 c0. unfold F. apply grows_fold. intros. apply grows_merge_rel. }
  destruct (match_nodes [project; kind] "name" name g) as [|c cs] eqn:Hm.
  - set (c := mkNode (fresh g) [project; kind] [("name", VStr name)]) in *.
    set (g1 := create_node [project; kind] [("name", VStr name)] g) in *.
    cbn [fold_left] in *. exists c. split.
    + apply (match_nodes_grows _ _ _ g1); [apply HF|].
      unfold match_nodes. apply filter_In. split.
      * unfold g1, create_node. cbn [nodes]. apply in_app_iff. right. now left.
      * unfold matches, c. cbn [forallb labels props prop String.eqb Ascii.eqb Bool.eqb].
        unfold has_label. cbn [labels].
        rewrite !bool_decide_eq_true_2; [reflexivity | reflexivity | |].
        -- apply elem_of_cons. right. apply elem_of_cons. now left.
        -- apply elem_of_cons. now left.
    + unfold F. apply link_adds.
      apply (match_nodes_grows _ _ _ g); [apply grows_create_node | exact Hd].
  - cbn [fold_left] in *. exists c. split.
    + apply (match_nodes_grows _ _ _ g); [exact Hgrow|]. rewrite Hm. now left.
    + assert (Hg : grows (F g c) (fold_left F cs (F g c))) by now apply grows_fold.
      apply (proj2 Hg). unfold F at 1. now apply link_adds.
Qed.

Lemma fold_links (kind t path : string) (items : list string) (d : node) (x : string) :
  In x items ->
  forall g,
    In d (match_nodes [project; "Document"] "path" path g) ->
    links_to project kind t x d
             (fold_left (fun g0 y => run_query g0 (MergeLinked project kind t y path))
                        items g).
Proof.
  intros Hx.
  apply (fold_reaches (fun g0 => links_to project kind t x d g0)
                      (fun g0 => In d (match_nodes [project; "Document"] "path" path g0))
                      _ x); auto.
  - intros g0 H. now apply merge_linked_links.
  - intros g0 y H. eapply links_to_grows; [apply grows_merge_linked | exact H].
  - intros g0 y H. eapply match_nodes_grows; [apply grows_merge_linked | exact H].
Qed.

Lemma write_document_links (g : graph) (doc : Document) :
  document_linked project doc (write_document project g doc).
Proof.
  unfold write_document. cbn [run_query].
  set (d := mkNode (fresh g) [project; "Document"] (document_props doc)).
  set (g1 := create_node [project; "Document"] (document_props doc) g).
  set (g2 := fold_left _ (components doc) g1).
  assert (Hd1 : In d (match_nodes [project; "Document"] "path" (path doc) g1)).
  { unfold match_nodes. apply filter_In. split.
    - unfold g1, create_node. cbn [nodes]. apply in_app_iff. right. now left.
    - unfold matches, d, document_props.
      cbn [forallb labels props prop String.eqb Ascii.eqb Bool.eqb].
      unfold has_label. cbn [labels].
      rewrite !bool_decide_eq_true_2; [reflexivity | reflexivity | |].
      + apply elem_of_cons. right. apply elem_of_cons. now left.
      + apply elem_of_cons. now left. }
  assert (H12 : grows g1 g2).
  { unfold g2. apply grows_fold. intros. apply grows_merge_linked. }
  assert (Hd2 : In d (match_nodes [project; "Document"] "path" (path doc) g2))
    by (eapply match_nodes_grows; eauto).
  set (g3 := fold_left _ (List.firstn 10 (concepts doc)) g2).
  assert (H23 : grows g2 g3).
  { unfold g3. apply grows_fold. intros. apply grows_merge_linked. }
  exists d. split.
  { apply (proj1 H23), (proj1 H12). unfold g1, create_node. cbn [nodes].
    apply in_app_iff. right. now left. }
  split; [reflexivity|]. split; [reflexivity|]. split.
  - intros comp Hc. apply (links_to_grows _ _ _ _ g2); [exact H23|].
    unfold g2. now apply fold_links.
  - intros concept Hc. unfold g3. now apply fold_links.
Qed.

Lemma write_all_links (docs : list Document) (decisions : list Decision)
      (g : graph) (doc : Document) :
  In doc docs -> document_linked project doc (write_all project docs decisions g).
Proof.
  intros Hin. unfold write_all.
  eapply document_linked_grows;
    [apply grows_fold; intros; apply grows_write_references|].
  eapply document_linked_grows;
    [apply grows_fold; intros; apply grows_write_decision|].
  apply (fold_reaches (document_linked project doc) (fun _ => True) _ doc); auto.
  - intros g0 _. apply write_document_links.
  - intros g0 y H. eapply document_linked_grows; [apply grows_write_document | exact H].
Qed.

End Links.

(** X15: after a load every Document has a node with its properties, and
    that node has a "DESCRIBES" relationship to a Component node for every
    component of the Document and a "MENTIONS" relationship to a Concept
    node for each of its first ten concepts. *)
Theorem documents_are_linked (project : string) (docs : list Document)
        (decisions : list Decision) (g : graph) (doc : Document) :
  In doc docs ->
  document_linked project doc (create_graph project docs decisions g).
Proof.
  intros Hin. unfold create_graph. cbn [run_query]. now apply write_all_links.
Qed.

Lemma documents_are_linked_witness :
  let A := mkDocument "a.md" "A" "other" [] "" ∅ [] ["Keystore"] ["risk"] in
  let B := mkDocument "b.md" "B" "other" [] "" ∅ [] ["Keystore"; "Jupiter"] [] in
  document_linked "TradingEngine" B
    (create_graph "TradingEngine" [A; B] [] (mkGraph [mkNode 0 ["Person"] []] [])).
Proof.
  intros A B. apply (documents_are_linked "TradingEngine" [A; B] [] _ B).
  right. now left.
Defined.

(** ** The status of a decision record *)

Section Status.

Lemma search_sound (fl : flags) (r : re) (s : string) :
  forall (p : option ascii) (i : nat) (m : mtch),
    search_go fl r p i s = Some m ->
    exists before p' i' s', s = before ++ s' /\ match_at fl r p' i' s' = Some m.
Proof.
  induction s as [|c s IH]; intros p i m H; cbn [search_go] in H.
  - destruct (match_at fl r p i "") eqn:E; [|discriminate].
    inversion H; subst. now exists "", p, i, "".
  - destruct (match_at fl r p i (String c s)) eqn:E.
    + inversion H; subst. now exists "", p, i, (String c s).
    + apply IH in H as (before & p' & i' & s' & -> & H).
      now exists (String c before), p', i', s'.
Qed.

Lemma lower_append (a b : string) : lower (a ++ b) = lower a ++ lower b.
Proof.
  induction a as [|x a IH]; [reflexivity|].
  cbn [String.append lower map_chars]. fold (lower (a ++ b)) (lower a). now rewrite IH.
Qed.

Lemma lower_word (c : ascii) :
  is_word c = true -> is_lower_word (lower_char c) = true.
Proof.
  destruct c as [[] [] [] [] [] [] [] []]; vm_compute; congruence.
Qed.

Lemma all_lower_word (w : string) :
  all_chars is_word w = true -> all_chars is_lower_word (lower w) = true.
Proof.
  induction w as [|c w IH]; [reflexivity|].
  cbn [all_chars lower map_chars]. fold (lower w). intros H.
  apply andb_true_iff in H as [Hc Hw]. now rewrite lower_word, IH.
Qed.

Lemma status_match (p : option ascii) (i : nat) (s : string) (m : mtch) :
  match_at IGNORECASE status_re p i s = Some m ->
  exists t spaces after,
    s = t ++ spaces ++ group 1 m ++ after /\
    lower t = "status:" /\
    all_chars is_space spaces = true /\
    group 1 m <> "" /\ all_chars is_word (group 1 m) = true.
Proof.
  unfold match_at, status_re, star, plus. cbn [seq].
  destruct (run _ _ _ _) as [st|] eqn:H; [|discriminate].
  intros E. inversion E; subst m; clear E.
  rewrite run_seq in H.
  apply run_lit_nocase in H as (t & s1 & p1 & Hs & Ht & H).
  rewrite run_seq in H.
  apply run_rep in H as (n1 & p2 & _ & Hlen1 & Hall1 & H).
  rewrite run_group in H.
  apply run_rep in H as (n2 & p3 & Hlo2 & Hlen2 & Hall2 & H).
  cbn [rest pos groups prev set_group] in *.
  inversion H; subst st; clear H.
  exists t, (take n1 s1), (drop n2 (drop n1 s1)).
  unfold group, set_group. cbn [m_groups groups assoc Nat.eqb pos rest].
  replace (i + 7 + n1 + n2 - (i + 7 + n1)) with n2 by lia.
  repeat split; auto.
  - now rewrite Hs, !take_drop.
  - now apply take_nonempty.
Qed.

End Status.

(** X16: for a file whose text is ASCII, the status of the Decision is a
    word without capital letters and is not empty; it is "accepted" when
    the text holds no "status:" in whatever letter case; and each of the
    three sections has at most 2000 characters.  (Outside ASCII Python's
    word class and [lower] are wider than the ones of this file, and the
    first two statements are not meant.) *)
Theorem parse_decision_status (f : file) (base_path : PathLib.path)
        (content : string) (dec : Decision) :
  read_text f = Ok content ->
  all_chars is_ascii content = true ->
  parse_decision f base_path = Ok (Some dec) ->
  dec_status dec <> "" /\
  all_chars is_lower_word (dec_status dec) = true /\
  (contains_nocase "status:" content = false -> dec_status dec = "accepted") /\
  String.length (dec_context dec) <= 2000 /\
  String.length (dec_decision dec) <= 2000 /\
  String.length (dec_consequences dec) <= 2000.
Proof.
  intros Hread _. unfold parse_decision. rewrite Hread.
  destruct (relative_to f base_path) as [rel_path|e]; [|discriminate].
  destruct (match_ _ _ _) as [m|]; [|discriminate].
  intros H. inversion H; subst dec; clear H.
  cbn [dec_status dec_context dec_decision dec_consequences].
  split; [|split; [|split]].
  - destruct (search IGNORECASE status_re content) as [sm|] eqn:Hsm; [|discriminate].
    apply search_sound in Hsm as (before & p & i & s & -> & Hsm).
    apply status_match in Hsm as (t & spaces & after & _ & _ & _ & Hne & _).
    intros E. apply Hne. destruct (group 1 sm); [reflexivity | discriminate].
  - destruct (search IGNORECASE status_re content) as [sm|] eqn:Hsm; [|reflexivity].
    apply search_sound in Hsm as (before & p & i & s & -> & Hsm).
    apply status_match in Hsm as (t & spaces & after & _ & _ & _ & _ & Hw).
    now apply all_lower_word.
  - intros Hno.
    destruct (search IGNORECASE status_re content) as [sm|] eqn:Hsm; [|reflexivity].
    exfalso.
    apply search_sound in Hsm as (before & p & i & s & -> & Hsm).
    apply status_match in Hsm as (t & spaces & after & -> & Ht & _).
    unfold contains_nocase in Hno. rewrite !lower_append, Ht in Hno.
    rewrite contains_append in Hno; [discriminate|].
    right. apply contains_append. left. apply contains_refl.
  - repeat split; apply section_length.
Qed.

Lemma parse_decision_status_witness :
  let f := mkFile ["srv"; "docs"; "decisions"; "012-use-bolt.md"]
                  (Ok ("# Use Bolt" ++ NL ++ "STATUS:  Superseded by 13" ++ NL)) in
  let dec := mkDecision "012" "Use Bolt" "superseded" "decisions/012-use-bolt.md"
                        "" "" "" in
  dec_status dec <> "" /\
  all_chars is_lower_word (dec_status dec) = true /\
  (contains_nocase "status:" ("# Use Bolt" ++ NL ++ "STATUS:  Superseded by 13" ++ NL)
   = false -> dec_status dec = "accepted") /\
  String.length (dec_context dec) <= 2000 /\
  String.length (dec_decision dec) <= 2000 /\
  String.length (dec_consequences dec) <= 2000.
Proof.
  intros f dec.
  apply (parse_decision_status f ["srv"; "docs"] _ dec); reflexivity.
Defined.

(** ** The title of a Document *)

Section Title.








End Title.


(** The first heading line gives the title; the whitespace behind the hash
    may hold a line break; a hash and two spaces give the empty title; and
    a body without a heading line takes the title from the name of the
    file. *)
Example extract_title_examples :
  extract_title ("intro" ++ NL ++ "#  Risk Engine " ++ NL ++ "# Two") "a/b.md"
  = "Risk Engine" /\
  extract_title ("#  " ++ NL ++ "text") "a/b.md" = "text" /\
  extract_title "#  " "a/b.md" = "" /\
  extract_title "## no title" "01-architecture/risk-engine.md" = "Risk Engine".
Proof. vm_compute. repeat split. Qed.

(** ** The summary of a load *)

Section Summary.

Variable ls : list string.

Lemma tally_of_add_same (rows : list (list string * nat)) :
  tally_of ls (tally_add ls rows) = S (tally_of ls rows).
Proof.
  induction rows as [|[ls' c] rows IH]; cbn [tally_add tally_of].
  - now rewrite bool_decide_eq_true_2.
  - destruct (decide (ls' = ls)) as [E|E].
    + rewrite !bool_decide_eq_true_2 by exact E. cbn [tally_of].
      now rewrite bool_decide_eq_true_2.
    + rewrite !bool_decide_eq_false_2 by exact E. cbn [tally_of].
      now rewrite bool_decide_eq_false_2.
Qed.

Lemma tally_of_add_other (ls0 : list string) (rows : list (list string * nat)) :
  ls0 <> ls -> tally_of ls (tally_add ls0 rows) = tally_of ls rows.
Proof.
  intros Hne. induction rows as [|[ls' c] rows IH]; cbn [tally_add tally_of].
  - now rewrite bool_decide_eq_false_2.
  - destruct (decide (ls' = ls0)) as [E|E].
    + rewrite (bool_decide_eq_true_2 _ E). cbn [tally_of]. subst ls'.
      now rewrite !bool_decide_eq_false_2.
    + rewrite (bool_decide_eq_false_2 _ E). cbn [tally_of]. now rewrite IH.
Qed.

Lemma tally_of_fold (ns : list node) :
  forall rows,
    tally_of ls (fold_left (fun rows0 n => tally_add (labels n) rows0) ns rows)
    = tally_of ls rows
      + length (List.filter (fun n => bool_decide (labels n = ls)) ns).
Proof.
  induction ns as [|n ns IH]; intros rows; cbn [fold_left List.filter length]; [lia|].
  rewrite IH. destruct (decide (labels n = ls)) as [E|E].
  - rewrite (bool_decide_eq_true_2 _ E), E, tally_of_add_same. cbn [length]. lia.
  - now rewrite (bool_decide_eq_false_2 _ E), tally_of_add_other.
Qed.

Lemma tally_of_In (rows : list (list string * nat)) (c : nat) :
  tally_of ls rows = S c -> In (ls, S c) rows.
Proof.
  induction rows as [|[ls' c'] rows IH]; cbn [tally_of]; [discriminate|].
  destruct (decide (ls' = ls)) as [E|E].
  - rewrite (bool_decide_eq_true_2 _ E). intros ->. left. now rewrite E.
  - rewrite (bool_decide_eq_false_2 _ E). intros H. right. now apply IH.
Qed.

End Summary.

Lemma summary_of_kind (project kind : string) (g : graph) :
  tally_of [project; kind] (summary project g)
  = length (kind_props project kind g).
Proof.
  unfold summary, kind_props. rewrite tally_of_fold, length_map.
  cbn [tally_of Nat.add]. fold (of_kind project kind).
  induction (nodes g) as [|n ns IH]; [reflexivity|].
  cbn [List.filter]. destruct (has_label project n) eqn:Hl.
  - cbn [List.filter]. destruct (of_kind project kind n); cbn [length]; now rewrite IH.
  - rewrite IH. unfold of_kind at 2. rewrite bool_decide_eq_false_2; [reflexivity|].
    intros E. unfold has_label in Hl. rewrite E in Hl.
    apply bool_decide_eq_false in Hl. apply Hl. now left.
Qed.

(** X19: the summary that ends a load counts as many Document nodes as
    there are Documents and as many Decision nodes as there are Decisions;
    a kind without a node has no row. *)
Theorem summary_counts (project : string) (docs : list Document)
        (decisions : list Decision) (g : graph) :
  let rows := summary project (create_graph project docs decisions g) in
  tally_of [project; "Document"] rows = length docs /\
  tally_of [project; "Decision"] rows = length decisions /\
  (docs <> [] -> In ([project; "Document"], length docs) rows) /\
  (decisions <> [] -> In ([project; "Decision"], length decisions) rows).
Proof.
  intros rows. subst rows. unfold create_graph. cbn [run_query].
  set (G := write_all project docs decisions (detach_delete project g)).
  assert (H1 : tally_of [project; "Document"] (summary project G) = length docs).
  { assert (Hd : kind_props project "Document" G = map document_props docs).
    { unfold G. rewrite kind_props_write_all;
        [| discriminate | discriminate | apply detach_delete_unlabelled].
      now rewrite app_nil_r. }
    now rewrite summary_of_kind, Hd, length_map. }
  assert (H2 : tally_of [project; "Decision"] (summary project G) = length decisions).
  { assert (Hc : kind_props project "Decision" G = map decision_props decisions).
    { unfold G. rewrite kind_props_write_all;
        [| discriminate | discriminate | apply detach_delete_unlabelled].
      reflexivity. }
    now rewrite summary_of_kind, Hc, length_map. }
  split; [exact H1|]. split; [exact H2|]. split.
  - intros Hne. destruct docs as [|d l]; [contradiction|].
    cbn [length] in *. now apply tally_of_In.
  - intros Hne. destruct decisions as [|d l]; [contradiction|].
    cbn [length] in *. now apply tally_of_In.
Qed.

(** ** Concepts are distinct; the content that is stored *)

Lemma take_take (n m : nat) (s : string) : n <= m -> take n (take m s) = take n s.
Proof.
  revert m s. induction n as [|n IH]; intros m s H; [now destruct (take m s), s|].
  destruct m as [|m]; [lia|]. destruct s as [|c s]; [reflexivity|].
  cbn [take]. rewrite IH; [reflexivity | lia].
Qed.

Lemma Ok_eq {A : Type} (a b : A) : Ok a = Ok b -> a = b.
Proof. intros H. now inversion H. Qed.

(** X20: no concept is returned twice. *)
Theorem extract_concepts_distinct (content : string) :
  NoDup (extract_concepts content).
Proof.
  unfold extract_concepts.
  apply (sublist_NoDup _ (elements (concept_set content)));
    [apply NoDup_elements | apply sublist_take].
Qed.

(** X21: the [content] of the Document node of a file is the first 2000
    characters of the body, that is of the text behind the frontmatter
    block: the cut of the parser at 5000 characters does not show. *)
Theorem stored_content (f : file) (base_path : PathLib.path) (text : string)
        (doc : Document) :
  read_text f = Ok text ->
  parse_document f base_path = Ok doc ->
  prop "content" (document_props doc)
  = Some (VStr (take 2000 (snd (parse_frontmatter text)))).
Proof.
  intros Hread. unfold parse_document. rewrite Hread.
  destruct (relative_to f base_path) as [rel_path|e]; [|discriminate].
  destruct (parse_frontmatter text) as [fm body].
  intros H. apply Ok_eq in H. subst doc. unfold document_props.
  cbn [prop String.eqb Ascii.eqb Bool.eqb content snd].
  rewrite take_take by lia. reflexivity.
Qed.

Lemma stored_content_witness :
  let text := "---" ++ NL ++ "title: T" ++ NL ++ "---" ++ NL ++ "# Body" in
  let f := mkFile ["srv"; "docs"; "a.md"] (Ok text) in
  let doc := mkDocument "a.md" "Body" "other" ["Body"] (NL ++ "# Body")
                        (<["title" := "T"]> ∅) [] [] [] in
  prop "content" (document_props doc)
  = Some (VStr (take 2000 (snd (parse_frontmatter text)))).
Proof.
  intros text f doc. apply (stored_content f ["srv"; "docs"] text doc).
  - reflexivity.
  - vm_compute. reflexivity.
Defined.

(** ** The classifier and the checks of the specification *)

Section Separators.

(** A text without the character [c] cannot begin across an occurrence of
    [c], nor lie across one. *)
Lemma startswith_sep (sub : string) (c : ascii) (b : string) :
  contains (String c "") sub = false ->
  forall a, sub <> "" -> startswith (a ++ String c b) sub = startswith a sub.
Proof.
  induction sub as [|x sub IH]; intros Hc a Hne; [contradiction|].
  cbn [contains startswith] in Hc.
  destruct (Ascii.eqb_spec c x) as [->|Hx]; [discriminate|].
  cbn [orb] in Hc.
  destruct a as [|y a]; cbn [String.append startswith].
  - destruct (Ascii.eqb_spec x c) as [E|_]; [congruence | reflexivity].
  - destruct (Ascii.eqb x y); [|reflexivity].
    destruct sub as [|x' sub']; [reflexivity|].
    apply IH; [|discriminate].
    cbn [contains startswith] in Hc |- *. exact Hc.
Qed.

Lemma contains_sep (sub : string) (c : ascii) (a b : string) :
  contains (String c "") sub = false -> sub <> "" ->
  contains sub (a ++ String c b) = contains sub a || contains sub b.
Proof.
  intros Hc Hne. induction a as [|y a IH].
  - pose proof (startswith_sep sub c b Hc "" Hne) as E.
    cbn [String.append] in E |- *. cbn [contains]. rewrite E.
    destruct sub; [contradiction | reflexivity].
  - cbn [String.append]. cbn [contains].
    change (String y (a ++ String c b)) with (String y a ++ String c b).
    rewrite (startswith_sep sub c b Hc (String y a) Hne), IH.
    now rewrite orb_assoc.
Qed.

(** A piece of a split text is a part of the text. *)
Lemma In_join_part (sep p : string) (ps : list string) :
  In p ps -> exists a b, join sep ps = a ++ p ++ b.
Proof.
  induction ps as [|q ps IH]; intros H; [contradiction|].
  destruct ps as [|q' ps].
  - destruct H as [->|[]]. exists "", "". cbn. now rewrite append_nil_r.
  - rewrite join_cons by discriminate. destruct H as [->|H].
    + now exists "", (sep ++ join sep (q' :: ps)).
    + destruct (IH H) as (a & b & E). exists (q ++ sep ++ a), b.
      rewrite E. now rewrite !append_assoc.
Qed.

Lemma In_split_part (sep s p : string) :
  sep <> "" -> In p (split sep None s) -> exists a b, s = a ++ p ++ b.
Proof.
  intros Hsep H. rewrite <- (join_split sep s None Hsep).
  now apply In_join_part.
Qed.

End Separators.

Lemma starts_segment_contains (marker path : string) :
  starts_segment marker path = true -> contains marker path = true.
Proof.
  unfold starts_segment. intros H. apply existsb_exists in H as (seg & Hin & Hs).
  apply (In_split_part "/") in Hin as (a & b & ->); [|discriminate].
  apply startswith_spec in Hs as [t ->]. apply contains_spec.
  exists a, (t ++ b). now rewrite !append_assoc.
Qed.

(** The code and the listed checks agree on every path in which a marker
    only occurs where a segment starts. *)
Lemma determine_doc_type_listed (path : string) :
  (forall marker,
      In marker ["00-"; "01-"; "02-"; "04-"; "05-"; "06-"] ->
      contains marker (lower path) = true ->
      starts_segment marker (lower path) = true) ->
  determine_doc_type path = specified_doc_type path.
Proof.
  intros H.
  assert (E : forall marker,
             In marker ["00-"; "01-"; "02-"; "04-"; "05-"; "06-"] ->
             caseless marker = true ->
             contains marker path = starts_segment marker (lower path)).
  { intros marker Hin Hc. rewrite <- (contains_lower_caseless marker path Hc).
    destruct (contains marker (lower path)) eqn:Hm.
    - symmetry. now apply H.
    - destruct (starts_segment marker (lower path)) eqn:Hs; [|reflexivity].
      apply starts_segment_contains in Hs. congruence. }
  unfold determine_doc_type, specified_doc_type, classifier_rules, listed_checks.
  change (lower "overview") with "overview".
  change (lower "architecture") with "architecture".
  change (lower "decision") with "decision".
  change (lower "implementation") with "implementation".
  change (lower "operations") with "operations".
  change (lower "plan") with "plan".
  change (lower "00-") with "00-". change (lower "01-") with "01-".
  change (lower "02-") with "02-". change (lower "04-") with "04-".
  change (lower "05-") with "05-". change (lower "06-") with "06-".
  rewrite (E "00-"), (E "01-"), (E "02-"), (E "04-"), (E "05-"), (E "06-");
    try reflexivity; cbn; tauto.
Qed.

(** C4: the code looks for the numeric markers anywhere in the path, the
    listed checks where a segment starts.  The first record of a decisions
    directory, [001-...], holds "01-" inside its name: no segment starts
    with a marker, the listed checks give "decision" for the keyword, the
    code gives "architecture". *)
Theorem determine_doc_type_marker_inside_name :
  let path := "decisions/001-go-for-trading-engine.md" in
  contains "01-" path = true /\
  Forall (fun marker => starts_segment marker (lower path) = false)
         ["00-"; "01-"; "02-"; "04-"; "05-"; "06-"] /\
  specified_doc_type path = "decision" /\
  determine_doc_type path = "architecture".
Proof.
  vm_compute. repeat split; repeat constructor.
Qed.

(** The same below a numbered directory, and for a marker in a directory
    name; a path whose markers start segments is classified as listed. *)
Example determine_doc_type_inside_examples :
  determine_doc_type "02-decisions/001-go-for-trading-engine.md" = "architecture" /\
  specified_doc_type "02-decisions/001-go-for-trading-engine.md" = "decision" /\
  determine_doc_type "guides/2000-2005/plan.md" = "overview" /\
  specified_doc_type "guides/2000-2005/plan.md" = "plan" /\
  determine_doc_type "04-implementation/api.md" = "implementation" /\
  specified_doc_type "04-implementation/api.md" = "implementation".
Proof.
  vm_compute. repeat split.
Qed.

(** ** Decision candidates: what the check reads *)

Section Candidates.

Lemma contains_join_parts (sub : string) (p : list string) :
  contains "/" sub = false -> sub <> "" ->
  contains sub (join "/" p) = true ->
  Exists (fun d => contains sub d = true) p.
Proof.
  intros Hc Hne. induction p as [|d p IH]; intros H.
  - cbn [join contains] in H. destruct sub; [contradiction | discriminate].
  - destruct p as [|d' p]; [now left|].
    rewrite join_cons in H by discriminate.
    change (d ++ "/" ++ join "/" (d' :: p))
      with (d ++ String "/" (join "/" (d' :: p))) in H.
    rewrite (contains_sep sub "/" d _ Hc Hne) in H.
    apply orb_true_iff in H as [H|H]; [now left | right; now apply IH].
Qed.

(** The marker is in the text of a path exactly when it is in one of the
    components of the path. *)
Lemma marker_in_str (p : PathLib.path) :
  contains "02-" (PathLib.str p) = true <->
  Exists (fun d => contains "02-" d = true) p.
Proof.
  unfold PathLib.str. split; intros H.
  - apply contains_join_parts; [reflexivity | discriminate |].
    change ("/" ++ join "/" p) with ("" ++ String "/" (join "/" p)) in H.
    rewrite (contains_sep "02-" "/" "" _ eq_refl) in H by discriminate.
    exact H.
  - apply contains_append. right. now apply contains_join.
Qed.

Lemma relative_to_below (docs_path rel : PathLib.path) :
  PathLib.relative_to (docs_path ++ rel)%list docs_path = Some rel.
Proof.
  induction docs_path as [|d ds IH]; [reflexivity|].
  cbn. now rewrite String.eqb_refl.
Qed.

(** The file names that [^(\d+)-(.+)$] matches. *)
Lemma adr_name_shape (s : string) :
  contains NL s = false ->
  ((exists m, match_ no_flags adr_name_re s = Some m) <->
   exists d tl, s = d ++ "-" ++ tl /\ d <> "" /\ all_chars is_digit d = true /\ tl <> "").
Proof.
  intros Hnl. split.
  - intros [m Hm].
    apply adr_match in Hm as (tl & tail & Hs & Htail & Hne & Hd & Hr & _).
    exists (group 1 m), tl. repeat split; auto.
    destruct Htail as [->| ->]; [now rewrite append_nil_r in Hs|].
    exfalso. rewrite Hs in Hnl. unfold NL in Hnl.
    rewrite !contains_char_append in Hnl.
    cbn in Hnl. now rewrite !orb_true_r in Hnl.
  - intros (d & tl & Hs & Hd & Hdig & Hr).
    assert (Htl : contains NL tl = false).
    { rewrite Hs in Hnl. unfold NL in *. rewrite !contains_char_append in Hnl.
      apply orb_false_iff in Hnl as [_ Hnl]. now apply orb_false_iff in Hnl as [_ ?]. }
    rewrite Hs. now apply adr_match_complete.
Qed.

End Candidates.

(** C10: the check reads the keyword in the name of the parent directory
    and the marker "02-" in the text of the absolute path, that is in any
    component of it, the components of the root and above included.  So
    when a directory at or above the corpus root has the marker in its
    name, every file of the corpus is a candidate, the Decisions of the scan
    are those of all its files, and a readable file gives a Decision exactly
    when its name is digits, a hyphen and a rest. *)
Theorem marker_above_root_makes_all_candidates
        (docs_path : PathLib.path) (md_files : list file) :
  Forall (fun f => exists rel, file_path f = (docs_path ++ rel)%list) md_files ->
  (forall f,
      is_decision_doc f = true <->
      contains "decision" (lower (PathLib.name (PathLib.parent (file_path f)))) = true \/
      Exists (fun d => contains "02-" d = true) (file_path f)) /\
  (Exists (fun d => contains "02-" d = true) docs_path ->
   Forall (fun f => is_decision_doc f = true) md_files /\
   decisions (scan_files docs_path md_files) =
     flat_map (fun f => if is_root_readme docs_path f then []
                        else match parse_decision f docs_path with
                             | Ok (Some dec) => [dec]
                             | _ => []
                             end) md_files) /\
  Forall (fun f => forall content,
            read_text f = Ok content ->
            contains NL (PathLib.stem (file_path f)) = false ->
            ((exists dec, parse_decision f docs_path = Ok (Some dec)) <->
             exists d tl,
               PathLib.stem (file_path f) = d ++ "-" ++ tl /\
               d <> "" /\ all_chars is_digit d = true /\ tl <> "")) md_files.
Proof.
  intros Hunder. split; [|split].
  - intros f. unfold is_decision_doc. rewrite orb_true_iff, marker_in_str. reflexivity.
  - intros Hmark.
    assert (Hcand : Forall (fun f => is_decision_doc f = true) md_files).
    { eapply List.Forall_impl; [|exact Hunder]. intros [p data] [rel Hrel].
      cbn [file_path] in Hrel. subst p. now apply marker_in_path. }
    split; [exact Hcand|].
    rewrite scan_files_lists. cbn [decisions].
    clear Hunder. induction Hcand as [|f fs Hf _ IH]; [reflexivity|].
    cbn [flat_map]. rewrite IH. f_equal.
    unfold decisions_of. now rewrite Hf.
  - eapply List.Forall_impl; [|exact Hunder]. intros f [rel Hrel] content Hread Hnl.
    rewrite <- (adr_name_shape _ Hnl).
    unfold parse_decision, relative_to. rewrite Hread, Hrel, relative_to_below.
    rewrite <- Hrel.
    destruct (match_ no_flags adr_name_re (PathLib.stem (file_path f))) as [m|];
      split; intros [x H]; try discriminate; eauto.
Qed.

Lemma marker_above_root_makes_all_candidates_witness :
  let docs_path := ["srv"; "2002-archive"; "docs"] in
  let md_files :=
    [mkFile ["srv"; "2002-archive"; "docs"; "notes"; "7-ideas.md"] (Ok "# Ideas");
     mkFile ["srv"; "2002-archive"; "docs"; "guide.md"] (Ok "# Guide")] in
  (forall f,
      is_decision_doc f = true <->
      contains "decision" (lower (PathLib.name (PathLib.parent (file_path f)))) = true \/
      Exists (fun d => contains "02-" d = true) (file_path f)) /\
  (Exists (fun d => contains "02-" d = true) docs_path ->
   Forall (fun f => is_decision_doc f = true) md_files /\
   decisions (scan_files docs_path md_files) =
     flat_map (fun f => if is_root_readme docs_path f then []
                        else match parse_decision f docs_path with
                             | Ok (Some dec) => [dec]
                             | _ => []
                             end) md_files) /\
  Forall (fun f => forall content,
            read_text f = Ok content ->
            contains NL (PathLib.stem (file_path f)) = false ->
            ((exists dec, parse_decision f docs_path = Ok (Some dec)) <->
             exists d tl,
               PathLib.stem (file_path f) = d ++ "-" ++ tl /\
               d <> "" /\ all_chars is_digit d = true /\ tl <> "")) md_files.
Proof.
  intros docs_path md_files.
  apply (marker_above_root_makes_all_candidates docs_path md_files).
  constructor; [exists ["notes"; "7-ideas.md"]; reflexivity|].
  constructor; [exists ["guide.md"]; reflexivity|].
  constructor.
Defined.

(** Below a root without the marker the same two files are no candidates:
    neither the parent directory nor a component of the path names them. *)
Example no_marker_no_candidate :
  map is_decision_doc
      [mkFile ["srv"; "docs"; "notes"; "7-ideas.md"] (Ok "# Ideas");
       mkFile ["srv"; "docs"; "guide.md"] (Ok "# Guide");
       mkFile ["srv"; "docs"; "Decisions"; "guide.md"] (Ok "# Guide");
       mkFile ["srv"; "docs"; "x02-y"; "z"; "guide.md"] (Ok "# Guide")]
  = [false; false; true; true].
Proof. vm_compute. reflexivity. Qed.

(** ** The frontmatter splitter: when the text is returned whole *)

Lemma first_line_prefix (content : string) :
  exists t, content = first_line content ++ t.
Proof.
  unfold first_line.
  pose proof (join_split NL content None) as E.
  destruct (split NL None content) as [|h [|h' t]] eqn:Hs.
  - exists content. reflexivity.
  - exists "". cbn [hd]. rewrite <- E by discriminate. cbn [join].
    now rewrite append_nil_r.
  - eexists. cbn [hd]. rewrite <- E by discriminate.
    rewrite join_cons by discriminate. reflexivity.
Qed.

Lemma delimiter_line_prefix (content : string) :
  begins_with_delimiter_line content = true -> startswith content "---" = true.
Proof.
  unfold begins_with_delimiter_line. intros H. apply String.eqb_eq in H.
  destruct (first_line_prefix content) as [t Ht].
  destruct (rstrip_prefix (first_line content)) as [w Hw].
  rewrite H in Hw. apply startswith_spec. exists (w ++ t).
  rewrite Ht at 1. rewrite Hw at 1. now rewrite !append_assoc.
Qed.

(** C5 (amended): the text is returned whole, with an empty mapping, exactly
    when it does not begin with the three dashes or holds no further three
    dashes behind them.  A text that begins with a delimiter line begins
    with the three dashes; a text that begins with them need not begin with
    a delimiter line. *)
Theorem parse_frontmatter_unchanged_iff (content : string) :
  (parse_frontmatter content = (∅, content) <->
   startswith content "---" = false \/ contains "---" (drop 3 content) = false) /\
  (begins_with_delimiter_line content = true -> startswith content "---" = true).
Proof.
  split; [|apply delimiter_line_prefix].
  destruct (startswith content "---") eqn:Hs.
  2:{ split; [now left|]. intros _. unfold parse_frontmatter. now rewrite Hs. }
  destruct (contains "---" (drop 3 content)) eqn:Hc.
  2:{ split; [now right|]. intros _. unfold parse_frontmatter.
      rewrite Hs, (split_delimiter content Hs), split_go_absent
        by (assumption || discriminate).
      reflexivity. }
  split; [|intros [H|H]; discriminate].
  intros H. exfalso.
  destruct (split_go_first "-" "--" (drop 3 content) "" Hc) as (x & y & Hsplit & Hxy & _).
  unfold parse_frontmatter in H.
  rewrite Hs, (split_delimiter content Hs), Hsplit in H. cbn [negb] in H.
  apply (f_equal snd) in H. cbn [snd] in H.
  pose proof (starts_with_delimiter content Hs) as E. rewrite Hxy in E.
  apply (f_equal String.length) in E. rewrite <- H in E.
  rewrite !length_append in E. cbn [String.length] in E. lia.
Qed.

(** A rule of six dashes is no delimiter line, and a first line that only
    begins with the dashes is none: both texts are split all the same, and
    the body is not the text. *)
Lemma long_rule_is_split :
  let rule := "------" ++ NL ++ "rule" in
  let draft := "--- draft: v2 ---" in
  begins_with_delimiter_line rule = false /\
  parse_frontmatter rule = (∅, NL ++ "rule") /\
  begins_with_delimiter_line draft = false /\
  parse_frontmatter draft = ({[ "draft" := "v2" ]}, "").
Proof.
  vm_compute. repeat split; reflexivity.
Qed.

(** ** The frontmatter block of the specification *)

Section BlockLines.

Lemma split_nl_cut (cur s : string) :
  split_go NL None 0 cur (String nl s) = rev cur :: split_go NL None 0 "" s.
Proof.
  change (String nl s) with (NL ++ s). unfold NL. now rewrite split_go_cut.
Qed.

Lemma split_nl_step (cur : string) (c : ascii) (s : string) :
  c <> nl ->
  split_go NL None 0 cur (String c s) = split_go NL None 0 (String c cur) s.
Proof.
  intros Hc. apply split_go_step. cbn [may_cut andb startswith NL].
  destruct (Ascii.eqb_spec nl c); [congruence | reflexivity].
Qed.

Lemma entries_cons (l : string) (ls : list string) :
  entries (l :: ls) = (entries [l] ++ entries ls)%list.
Proof.
  unfold entries. cbn [List.filter]. destruct (contains ":" l); reflexivity.
Qed.

Lemma entries_app (a b : list string) :
  entries (a ++ b) = (entries a ++ entries b)%list.
Proof. unfold entries. now rewrite List.filter_app, map_app. Qed.

Lemma space_not_colon (x : ascii) : is_space x = true -> x <> ":"%char.
Proof. intros H ->. discriminate. Qed.

Lemma entry_cons_space (x : ascii) (l : string) :
  is_space x = true -> entries [String x l] = entries [l].
Proof.
  intros Hx. pose proof (space_not_colon x Hx) as Hne.
  unfold entries. cbn [List.filter contains startswith].
  destruct (Ascii.eqb_spec ":" x) as [E|_]; [congruence|]. cbn [orb].
  destruct (contains ":" l); [|reflexivity]. cbn [map].
  unfold entry_key, entry_value. cbn [before_colon after_colon].
  destruct (Ascii.eqb_spec x ":") as [E|_]; [congruence|].
  unfold strip at 1. cbn [lstrip]. now rewrite Hx.
Qed.

Lemma before_colon_append (l t : string) :
  contains ":" l = true -> before_colon (l ++ t) = before_colon l.
Proof.
  induction l as [|c l IH]; intros H; [discriminate|].
  cbn [contains startswith] in H. cbn [String.append before_colon].
  destruct (Ascii.eqb_spec c ":") as [->|Hne]; [reflexivity|].
  destruct (Ascii.eqb_spec ":" c) as [E|_]; [congruence|]. cbn [orb] in H.
  now rewrite IH.
Qed.

Lemma after_colon_append (l t : string) :
  contains ":" l = true -> after_colon (l ++ t) = after_colon l ++ t.
Proof.
  induction l as [|c l IH]; intros H; [discriminate|].
  cbn [contains startswith] in H. cbn [String.append after_colon].
  destruct (Ascii.eqb_spec c ":") as [->|Hne]; [reflexivity|].
  destruct (Ascii.eqb_spec ":" c) as [E|_]; [congruence|]. cbn [orb] in H.
  now rewrite IH.
Qed.

Lemma rstrip_snoc_space (u : string) (x : ascii) :
  is_space x = true -> rstrip (u ++ String x "") = rstrip u.
Proof.
  intros Hx. unfold rstrip. rewrite rev_append.
  change (rev (String x "")) with (String x ""). cbn [String.append lstrip].
  now rewrite Hx.
Qed.

Lemma strip_snoc_space (a : string) (x : ascii) :
  is_space x = true -> strip (a ++ String x "") = strip a.
Proof.
  intros Hx. unfold strip. induction a as [|c a IH].
  - cbn [String.append lstrip]. now rewrite Hx.
  - cbn [String.append lstrip]. destruct (is_space c); [exact IH|].
    change (String c (a ++ String x "")) with (String c a ++ String x "").
    now apply rstrip_snoc_space.
Qed.

Lemma entry_snoc_space (x : ascii) (l : string) :
  is_space x = true -> entries [l ++ String x ""] = entries [l].
Proof.
  intros Hx. pose proof (space_not_colon x Hx) as Hne.
  unfold entries. cbn [List.filter]. rewrite contains_char_append.
  assert (E : contains ":" (String x "") = false).
  { cbn [contains startswith]. destruct (Ascii.eqb_spec ":" x); [congruence | reflexivity]. }
  rewrite E, orb_false_r.
  destruct (contains ":" l) eqn:Hl; [|reflexivity]. cbn [map].
  unfold entry_key, entry_value.
  rewrite before_colon_append, after_colon_append by exact Hl.
  now rewrite strip_snoc_space.
Qed.

(** Whitespace before the first line, or behind the last, changes no
    entry. *)
Lemma entries_first_space (x : ascii) (s : string) :
  is_space x = true ->
  forall cur,
    entries (split_go NL None 0 (cur ++ String x "") s)
    = entries (split_go NL None 0 cur s).
Proof.
  intros Hx. induction s as [|c s IH]; intros cur.
  - cbn [split_go]. rewrite rev_append.
    change (rev (String x "")) with (String x ""). cbn [String.append].
    now apply entry_cons_space.
  - destruct (Ascii.eqb_spec c nl) as [->|Hc].
    + rewrite !split_nl_cut, (entries_cons (rev (cur ++ _))), (entries_cons (rev cur)).
      f_equal. rewrite rev_append.
      change (rev (String x "")) with (String x ""). cbn [String.append].
      now apply entry_cons_space.
    + rewrite !split_nl_step by exact Hc.
      change (String c (cur ++ String x "")) with (String c cur ++ String x "").
      apply IH.
Qed.

Lemma entries_lstrip (s : string) :
  entries (split NL None (lstrip s)) = entries (split NL None s).
Proof.
  induction s as [|x s IH]; [reflexivity|].
  cbn [lstrip]. destruct (is_space x) eqn:Hx; [|reflexivity].
  rewrite IH. unfold split. destruct (Ascii.eqb_spec x nl) as [->|Hc].
  - now rewrite split_nl_cut, entries_cons.
  - rewrite split_nl_step by exact Hc. symmetry.
    apply (entries_first_space x s Hx "").
Qed.

Lemma entries_spaces (w : string) :
  all_chars is_space w = true ->
  forall cur, entries (split_go NL None 0 cur w) = entries [rev cur].
Proof.
  induction w as [|x w IH]; intros Hw cur; [reflexivity|].
  cbn [all_chars] in Hw. apply andb_true_iff in Hw as [Hx Hw].
  destruct (Ascii.eqb_spec x nl) as [->|Hc].
  - rewrite split_nl_cut, entries_cons, (IH Hw ""). cbn. now rewrite app_nil_r.
  - rewrite split_nl_step by exact Hc. rewrite (IH Hw), rev_cons.
    now apply entry_snoc_space.
Qed.

Lemma entries_last_spaces (w : string) :
  all_chars is_space w = true ->
  forall t cur,
    entries (split_go NL None 0 cur (t ++ w)) = entries (split_go NL None 0 cur t).
Proof.
  intros Hw. induction t as [|c t IH]; intros cur.
  - cbn [String.append split_go]. now apply entries_spaces.
  - cbn [String.append]. destruct (Ascii.eqb_spec c nl) as [->|Hc].
    + rewrite !split_nl_cut, (entries_cons _ (split_go _ _ _ _ (t ++ w))),
        (entries_cons _ (split_go _ _ _ _ t)).
      now rewrite IH.
    + rewrite !split_nl_step by exact Hc. apply IH.
Qed.

Lemma all_chars_append (ok : ascii -> bool) (a b : string) :
  all_chars ok (a ++ b) = all_chars ok a && all_chars ok b.
Proof.
  induction a as [|c a IH]; [reflexivity|].
  cbn [String.append all_chars]. now rewrite IH, andb_assoc.
Qed.

Lemma all_chars_rev (ok : ascii -> bool) (s : string) :
  all_chars ok (rev s) = all_chars ok s.
Proof.
  induction s as [|c s IH]; [reflexivity|].
  rewrite rev_cons, all_chars_append, IH. cbn [all_chars].
  now rewrite andb_true_r, andb_comm.
Qed.

Lemma lstrip_spaces (s : string) :
  exists w, s = w ++ lstrip s /\ all_chars is_space w = true.
Proof.
  induction s as [|a s (w & IH & Hw)]; cbn [lstrip]; [now exists ""|].
  destruct (is_space a) eqn:Ha.
  - exists (String a w). cbn [String.append all_chars]. rewrite Ha, Hw.
    split; [now rewrite <- IH | reflexivity].
  - now exists "".
Qed.

Lemma rstrip_spaces (s : string) :
  exists w, s = rstrip s ++ w /\ all_chars is_space w = true.
Proof.
  unfold rstrip. destruct (lstrip_spaces (rev s)) as (w & E & Hw).
  exists (rev w). split; [|now rewrite all_chars_rev].
  rewrite <- rev_append, <- E. now rewrite rev_involutive.
Qed.

(** [strip] before the lines are cut changes no entry. *)
Lemma entries_strip (s : string) :
  entries (split NL None (strip s)) = entries (split NL None s).
Proof.
  rewrite <- (entries_lstrip s). unfold strip.
  destruct (rstrip_spaces (lstrip s)) as (w & E & Hw).
  rewrite E at 2. unfold split. symmetry. now apply entries_last_spaces.
Qed.

Lemma fold_insert_pairs (lines : list string) :
  forall fm : gmap string string,
    fold_left insert_entry (List.filter (contains ":") lines) fm
    = fold_left insert_pair (entries lines) fm.
Proof.
  unfold entries. induction (List.filter (contains ":") lines) as [|l ls IH];
    intros fm; [reflexivity|].
  cbn [fold_left map]. now rewrite IH.
Qed.

(** The lines of the text of lines. *)
Lemma split_go_line (l rest : string) :
  contains NL l = false ->
  forall cur,
    split_go NL None 0 cur (l ++ rest) = split_go NL None 0 (rev_onto l cur) rest.
Proof.
  induction l as [|c l IH]; intros H cur; [reflexivity|].
  cbn [contains startswith NL] in H. apply orb_false_iff in H as [Hc Hl].
  cbn [String.append rev_onto]. rewrite split_nl_step.
  - now apply IH.
  - intros ->. rewrite Ascii.eqb_refl in Hc. discriminate.
Qed.

Lemma split_lines (lines : list string) :
  Forall (fun l => contains NL l = false) lines ->
  forall cur,
    split_go NL None 0 cur (lines_text lines ++ NL) = (rev cur :: lines ++ [""])%list.
Proof.
  induction 1 as [|l ls Hl _ IH]; intros cur.
  - cbn [lines_text String.append]. unfold NL at 2. now rewrite split_nl_cut.
  - cbn [lines_text]. rewrite !append_assoc.
    change (NL ++ l ++ lines_text ls ++ NL) with (String nl (l ++ lines_text ls ++ NL)).
    rewrite split_nl_cut, (split_go_line l _ Hl), IH, rev_rev_onto. reflexivity.
Qed.

(** Where the block of the specification is cut. *)
Lemma block_text (lines : list string) (body : string) :
  frontmatter_block lines body = "---" ++ lines_text lines ++ NL ++ "---" ++ body.
Proof.
  unfold frontmatter_block.
  assert (E : forall ls x, NL ++ join NL (ls ++ [x]) = lines_text ls ++ NL ++ x).
  { induction ls as [|l ls IH]; intros x; [reflexivity|].
    cbn [app lines_text]. rewrite join_cons by (destruct ls; discriminate).
    rewrite IH. now rewrite !append_assoc. }
  rewrite join_cons by (destruct lines; discriminate).
  now rewrite E.
Qed.

Lemma lines_text_no_delimiter (lines : list string) :
  Forall (fun l => contains "---" l = false) lines ->
  contains "---" (lines_text lines) = false.
Proof.
  induction 1 as [|l ls Hl _ IH]; [reflexivity|].
  cbn [lines_text]. change (NL ++ l ++ lines_text ls) with (String nl (l ++ lines_text ls)).
  cbn [contains startswith]. cbn [Ascii.eqb Bool.eqb orb].
  destruct ls as [|l' ls].
  - cbn [lines_text]. now rewrite append_nil_r.
  - cbn [lines_text] in *.
    change (NL ++ l' ++ lines_text ls) with (String nl (l' ++ lines_text ls)) in *.
    rewrite contains_sep by (reflexivity || discriminate).
    rewrite Hl. cbn [orb]. cbn [contains startswith] in IH.
    cbn [Ascii.eqb Bool.eqb orb] in IH. exact IH.
Qed.

Lemma split_go_line_end (meta rest : string) :
  contains "---" meta = false ->
  forall cur,
    split_go "---" (Some 1) 0 cur (meta ++ NL ++ "---" ++ rest)
    = [rev cur ++ meta ++ NL; rest].
Proof.
  induction meta as [|c meta IH]; intros H cur.
  - change ("" ++ NL ++ "---" ++ rest) with (String nl ("---" ++ rest)).
    rewrite split_go_step by reflexivity.
    rewrite (split_go_cut "-" "--" (Some 1) _ rest eq_refl).
    cbn [cut pred]. rewrite split_go_no_cut, rev_cons. reflexivity.
  - cbn [contains] in H. apply orb_false_iff in H as [Hs Hm].
    cbn [String.append]. rewrite split_go_step.
    + rewrite (IH Hm), rev_cons, append_assoc. reflexivity.
    + cbn [may_cut andb].
      transitivity (startswith (String c meta) "---"); [|exact Hs].
      apply (startswith_sep "---" nl ("---" ++ rest) eq_refl (String c meta)).
      discriminate.
Qed.

Lemma parse_frontmatter_block_lines (lines : list string) (body : string) :
  Forall (fun l => contains NL l = false) lines ->
  Forall (fun l => contains "---" l = false) lines ->
  parse_frontmatter (frontmatter_block lines body)
  = (fold_left insert_entry (List.filter (contains ":") lines) ∅, body).
Proof.
  intros Hnl Hd. rewrite block_text. unfold parse_frontmatter.
  assert (Hs : startswith ("---" ++ lines_text lines ++ NL ++ "---" ++ body) "---" = true)
    by reflexivity.
  rewrite Hs, (split_delimiter _ Hs). cbn [negb].
  change (drop 3 ("---" ++ lines_text lines ++ NL ++ "---" ++ body))
    with (lines_text lines ++ NL ++ "---" ++ body).
  rewrite (split_go_line_end _ body (lines_text_no_delimiter lines Hd)).
  cbn [rev rev_onto String.append]. f_equal.
  rewrite fold_add_line, !fold_insert_pairs. f_equal.
  rewrite entries_strip. unfold split.
  rewrite (split_lines lines Hnl ""), entries_cons, entries_app.
  cbn. now rewrite app_nil_r.
Qed.

End BlockLines.

(** C6 (amended): in a text made of a delimiter line, metadata lines none
    of which holds the three dashes, and a closing delimiter with the body
    behind it, the body is returned as it is, and a metadata line with a
    colon gives the entry from its trimmed key (the text before the first
    colon) to its trimmed value (the text behind it) unless a later line has
    the same trimmed key; every entry of the mapping comes from a line with
    a colon and has a trimmed key and value; when the trimmed keys differ
    there is exactly one entry for each line with a colon. *)
Theorem parse_frontmatter_entries (lines : list string) (body : string) :
  Forall (fun l => contains NL l = false) lines ->
  Forall (fun l => contains "---" l = false) lines ->
  let fm := fst (parse_frontmatter (frontmatter_block lines body)) in
  let colon_lines := List.filter (contains ":") lines in
  snd (parse_frontmatter (frontmatter_block lines body)) = body /\
  (forall before line after,
      colon_lines = (before ++ line :: after)%list ->
      Forall (fun l => entry_key l <> entry_key line) after ->
      fm !! entry_key line = Some (entry_value line)) /\
  (forall key value,
      fm !! key = Some value ->
      trimmed key /\ trimmed value /\
      exists line,
        In line colon_lines /\ key = entry_key line /\ value = entry_value line) /\
  (NoDup (map entry_key colon_lines) -> size fm = length colon_lines).
Proof.
  intros Hnl Hd fm colon_lines. subst fm colon_lines.
  rewrite (parse_frontmatter_block_lines lines body Hnl Hd). cbn [fst snd].
  split; [reflexivity|]. split; [|split].
  - intros before line after -> Hafter.
    rewrite fold_left_app. cbn [fold_left].
    rewrite fold_insert_other by exact Hafter.
    unfold insert_entry. apply lookup_insert_eq.
  - intros key value Hl. apply fold_insert_origin in Hl as [Hl | (line & Hin & -> & ->)].
    + rewrite lookup_empty in Hl. discriminate.
    + repeat split; try apply strip_trimmed. now exists line.
  - intros Hnd. rewrite fold_insert_size; [rewrite map_size_empty; lia | exact Hnd |].
    apply List.Forall_forall. intros l _. apply lookup_empty.
Qed.

Lemma parse_frontmatter_entries_witness :
  let lines := ["  title: Guide"; "no colon here"; " owner : ops:core "; "  "] in
  let body := NL ++ "# Guide" ++ NL ++ "---" ++ NL ++ "end" in
  let fm := fst (parse_frontmatter (frontmatter_block lines body)) in
  let colon_lines := List.filter (contains ":") lines in
  snd (parse_frontmatter (frontmatter_block lines body)) = body /\
  (forall before line after,
      colon_lines = (before ++ line :: after)%list ->
      Forall (fun l => entry_key l <> entry_key line) after ->
      fm !! entry_key line = Some (entry_value line)) /\
  (forall key value,
      fm !! key = Some value ->
      trimmed key /\ trimmed value /\
      exists line,
        In line colon_lines /\ key = entry_key line /\ value = entry_value line) /\
  (NoDup (map entry_key colon_lines) -> size fm = length colon_lines).
Proof.
  intros lines body.
  apply (parse_frontmatter_entries lines body);
    repeat (constructor; [reflexivity|]); constructor.
Defined.

(** Two lines with the same key: two lines with a colon, one entry, and
    the value of the first line is not in the mapping. *)
Lemma duplicate_key_one_entry :
  let lines := ["a: 1"; "a: 2"] in
  let content := frontmatter_block lines (NL ++ "body") in
  content = "---" ++ NL ++ "a: 1" ++ NL ++ "a: 2" ++ NL ++ "---" ++ NL ++ "body" /\
  List.filter (contains ":") lines = ["a: 1"; "a: 2"] /\
  entry_key "a: 1" = "a" /\ entry_value "a: 1" = "1" /\
  fst (parse_frontmatter content) !! "a" = Some "2" /\
  size (fst (parse_frontmatter content)) = 1.
Proof.
  vm_compute. repeat split; reflexivity.
Qed.

(** The three dashes inside a value end the segment: the value is cut
    there, the line behind it gives no entry, and the body begins inside
    the line. *)
Example delimiter_inside_value :
  let lines := ["title: Intro --- part 1"; "owner: core"] in
  let content := frontmatter_block lines (NL ++ "body") in
  parse_frontmatter content
  = ({[ "title" := "Intro" ]},
     " part 1" ++ NL ++ "owner: core" ++ NL ++ "---" ++ NL ++ "body").
Proof.
  vm_compute. reflexivity.
Qed.
